(** * lidarview: rasterisation (gridify) and ground classification (find_ground)

    A shallow embedding of the two algorithmic functions of
    [lidarview.cpp], [gridify] and [find_ground], over IEEE-754 binary32
    numbers, and the properties of the specification checked against it.

    Conventions of the embedding.
    - A C++ [float] is a [spec_float] of the Standard Library, with the
      operations of [SpecFloat] taken at precision 24 and maximal exponent
      128 (binary32, round to nearest even).
    - A C++ [int] is a [Z]; the conversions between [int] and [float] are
      written out ([of_int], [to_int]).
    - A [vector<vector<T>>] is a [list (list T)]; [operator[]] does not
      check its index, so an access out of range is undefined behaviour:
      [gridify] reports it as [Undefined], and [find_ground] is studied on
      rectangular grids with at least one cell ([wf_grid]), where every
      access it makes is in range.
    - The queue of [find_ground] holds [Point]s, whose fields are [float]s
      in the source; the row and column kept there are integers below the
      grid dimensions, which a binary32 number holds exactly up to 2^24, so
      the embedding keeps them as integers.

    The rest of the program is embedded after these two functions: the
    drawing functions, the event handlers and [main].
    - A C++ [double] is a [spec_float] too, with the operations taken at
      precision 53 and maximal exponent 1024 (binary64); an operation of
      a [float] and a [double] is made in [double] and its result is
      converted where it is assigned to a [float].
    - The calls to OpenGL and GLUT are recorded, with their arguments, in
      the order in which the program makes them.
    - The functions of the C library that [main] calls, and the files of
      the system, are parameters of [main]. *)

From Stdlib Require Import ZArith Lia Bool.
From Stdlib Require Import Strings.Ascii Strings.String.
From Stdlib Require Import Floats.SpecFloat.
From stdpp Require Import base option list.

Local Open Scope Z_scope.

(** ** binary32 arithmetic *)

Module F32.

Definition prec : Z := 24.
Definition emax : Z := 128.

Definition add : spec_float -> spec_float -> spec_float := SFadd prec emax.
Definition sub : spec_float -> spec_float -> spec_float := SFsub prec emax.
Definition mul : spec_float -> spec_float -> spec_float := SFmul prec emax.
Definition div : spec_float -> spec_float -> spec_float := SFdiv prec emax.
Definition sqrt : spec_float -> spec_float := SFsqrt prec emax.

(** [a == b], [a < b], [a <= b]; all three are false when a NaN is involved. *)
Definition eqb : spec_float -> spec_float -> bool := SFeqb.
Definition ltb : spec_float -> spec_float -> bool := SFltb.
Definition leb : spec_float -> spec_float -> bool := SFleb.

(** Conversion of an integer to [float]: rounding to nearest even. *)
Definition of_int (n : Z) : spec_float := binary_normalize prec emax n 0 false.

(** The integer part of a finite number, rounded towards minus infinity
    ([fl_floor]) or plus infinity ([fl_ceil]). *)
Definition fl_floor (x : spec_float) : option Z :=
  match x with
  | S754_zero _ => Some 0
  | S754_finite s m e =>
      Some (if 0 <=? e then (if s then Z.neg m else Z.pos m) * 2 ^ e
            else (if s then Z.neg m else Z.pos m) / 2 ^ (- e))
  | _ => None
  end.

Definition fl_ceil (x : spec_float) : option Z :=
  match x with
  | S754_zero _ => Some 0
  | S754_finite s m e =>
      Some (if 0 <=? e then (if s then Z.neg m else Z.pos m) * 2 ^ e
            else - ((- (if s then Z.neg m else Z.pos m)) / 2 ^ (- e)))
  | _ => None
  end.

Definition sign (x : spec_float) : bool :=
  match x with
  | S754_zero s | S754_infinity s | S754_finite s _ _ => s
  | S754_nan => false
  end.

(** [floor] and [ceil] of the C library: an integral value as a [float];
    infinities and NaN are returned unchanged, and a zero result keeps the
    sign of the argument. *)
Definition floor (x : spec_float) : spec_float :=
  match fl_floor x with
  | Some n => binary_normalize prec emax n 0 (sign x)
  | None => x
  end.

Definition ceil (x : spec_float) : spec_float :=
  match fl_ceil x with
  | Some n => binary_normalize prec emax n 0 (sign x)
  | None => x
  end.

Definition INT_MIN : Z := - 2 ^ 31.
Definition INT_MAX : Z := 2 ^ 31 - 1.

(** Conversion of a [float] to [int]: truncation towards zero; the
    behaviour is undefined ([None]) for NaN, for the infinities and when
    the truncated value is not an [int]. *)
Definition to_int (x : spec_float) : option Z :=
  match x with
  | S754_zero _ => Some 0
  | S754_finite s m e =>
      let n := if 0 <=? e then Z.pos m * 2 ^ e else Z.pos m / 2 ^ (- e) in
      let n := if s then - n else n in
      if (INT_MIN <=? n) && (n <=? INT_MAX) then Some n else None
  | _ => None
  end.

End F32.

(** ** Constants and data of the program *)

Definition NODATA : Z := -9999.
Definition BIGINT : Z := 0x0fffffff.

(** [NODATA] and [BIGINT] as they are used in comparisons with a [float]. *)
Definition NODATA_f : spec_float := Eval vm_compute in F32.of_int NODATA.
Definition BIGINT_f : spec_float := Eval vm_compute in F32.of_int BIGINT.

Record lidarPoint := mkLidarPoint {
  lp_x : spec_float;
  lp_y : spec_float;
  lp_z : spec_float;
  nb_of_returns : Z;
  return_number : Z;
  code : Z;
  mycode : Z
}.

(** [class Point]: an entry of the work queue of [find_ground]; [pt_x] and
    [pt_y] are the row and the column, [pt_z] the height stored with them. *)
Record Point := mkPoint {
  pt_x : Z;
  pt_y : Z;
  pt_z : spec_float
}.

(** ** Grids *)

Section Grid.
Context {A : Type}.

(** [g[i][j]], with [d] where the index is out of range. *)
Definition cell (d : A) (g : list (list A)) (i j : Z) : A :=
  if (0 <=? i) && (0 <=? j)
  then default d (g !! Z.to_nat i ≫= fun row => row !! Z.to_nat j)
  else d.

(** [g[i][j] = v]. *)
Definition set_cell (g : list (list A)) (i j : Z) (v : A) : list (list A) :=
  if (0 <=? i) && (0 <=? j)
  then alter (fun row => <[Z.to_nat j := v]> row) (Z.to_nat i) g
  else g.

(** [vector<vector<A>>(rows, vector<A>(cols, v))]. *)
Definition make_grid (rows cols : nat) (v : A) : list (list A) :=
  replicate rows (replicate cols v).

(** A rectangular grid of [r] rows and [c] columns. *)
Definition rect (r c : nat) (g : list (list A)) : Prop :=
  length g = r /\ Forall (fun row => length row = c) g.
End Grid.

Definition height (g : list (list spec_float)) (i j : Z) : spec_float :=
  cell S754_nan g i j.
Definition label (g : list (list Z)) (i j : Z) : Z :=
  cell (-1) g i j.

(** [last_grid.size()] and [last_grid[0].size()]. *)
Definition num_rows {A} (g : list (list A)) : nat := length g.
Definition num_cols {A} (g : list (list A)) : nat := length (default [] (g !! 0%nat)).

(** [for (i = 0; i < g.size(); i++) for (j = 0; j < g[i].size(); j++) body],
    the loop over the cells of a grid, on a state [s]. *)
Definition for_each_cell {A S} (g : list (list A)) (body : Z -> Z -> S -> S) (s : S) : S :=
  foldl (fun s i =>
           foldl (fun s j => body i j s) s
                 (seqZ 0 (Z.of_nat (length (default [] (g !! Z.to_nat i))))))
        s (seqZ 0 (Z.of_nat (num_rows g))).

(** ** find_ground *)

(** The variables of [find_ground] that change while it runs:
    [is_ground], the queue [q] and [unclassified_count].  Two more fields
    record its history and are not read by the code: [writes] lists the
    cells assigned a label, latest first, and [seedings] counts the
    iterations of the outer loop. *)
Record fg_state := mkState {
  is_ground : list (list Z);
  q : list Point;
  unclassified_count : Z;
  writes : list (Z * Z);
  seedings : nat
}.

(** [q.push(Point(i, j, h)); is_ground[i][j] = l; unclassified_count--]. *)
Definition push_label (st : fg_state) (i j : Z) (h : spec_float) (l : Z) : fg_state :=
  {| is_ground := set_cell (is_ground st) i j l;
     q := q st ++ [mkPoint i j h];
     unclassified_count := unclassified_count st - 1;
     writes := (i, j) :: writes st;
     seedings := seedings st |}.

Section FindGround.
Variable last_grid : list (list spec_float).
Variable building_slope_threshold : spec_float.

(** The number of cells that are not NODATA: the initial value of
    [unclassified_count]. *)
Definition count_data : Z :=
  for_each_cell last_grid
    (fun i j n => if F32.eqb (height last_grid i j) NODATA_f then n - 1 else n)
    (Z.of_nat (num_rows last_grid) * Z.of_nat (num_cols last_grid)).

(** The body of the scan for the lowest unclassified cell. *)
Definition scan_cell (isg : list (list Z)) (i j : Z)
    (m : spec_float * Z * Z) : spec_float * Z * Z :=
  let '(min_height, min_i, min_j) := m in
  if negb (F32.eqb (height last_grid i j) NODATA_f)
     && (label isg i j =? -1)
     && F32.ltb (height last_grid i j) min_height
  then (height last_grid i j, i, j)
  else m.

(** The scan, from [min_height = BIGINT] and [min_i = min_j = 0]. *)
Definition find_lowest (isg : list (list Z)) : spec_float * Z * Z :=
  for_each_cell last_grid (scan_cell isg) (BIGINT_f, 0, 0).

(** The start of an iteration of the outer loop: the lowest unclassified
    cell, or (0, 0) with height [BIGINT] when the scan selects none, is
    pushed and labelled ground. *)
Definition seed (st : fg_state) : fg_state :=
  let '(min_height, min_i, min_j) := find_lowest (is_ground st) in
  let st' := push_label st min_i min_j min_height 1 in
  {| is_ground := is_ground st'; q := q st';
     unclassified_count := unclassified_count st';
     writes := writes st'; seedings := S (seedings st) |}.

(** [di != dj && (di == 0 || dj == 0)]: the four compass directions. *)
Definition compass (di dj : Z) : bool :=
  negb (di =? dj) && ((di =? 0) || (dj =? 0)).

(** [i >= 0 && j >= 0 && i < last_grid.size() && j < last_grid[0].size()]. *)
Definition in_bounds (i j : Z) : bool :=
  (0 <=? i) && (0 <=? j)
  && (i <? Z.of_nat (num_rows last_grid)) && (j <? Z.of_nat (num_cols last_grid)).

(** [slope <= building_slope_threshold && slope >= 0]. *)
Definition gentle (slope : spec_float) : bool :=
  F32.leb slope building_slope_threshold && F32.leb (S754_zero false) slope.

(** [slope > building_slope_threshold]. *)
Definition steep (slope : spec_float) : bool :=
  F32.ltb building_slope_threshold slope.

(** The body of the two loops on [di] and [dj], for the cell [current]
    taken from the queue. *)
Definition visit (current : Point) (curr_type : bool) (st : fg_state)
    (d : Z * Z) : fg_state :=
  let '(di, dj) := d in
  let curr_i := pt_x current in
  let curr_j := pt_y current in
  let curr_h := pt_z current in
  if compass di dj then
    if in_bounds (curr_i + di) (curr_j + dj) then
      let new_i := curr_i + di in
      let new_j := curr_j + dj in
      if negb (label (is_ground st) new_i new_j =? -1)
         || F32.eqb (height last_grid new_i new_j) NODATA_f
      then st
      else
        let new_h := height last_grid new_i new_j in
        let slope := F32.sub new_h curr_h in
        if gentle slope
        then push_label st new_i new_j new_h (Z.b2z curr_type)
        else if steep slope
        then push_label st new_i new_j new_h 0
        else if F32.ltb slope (S754_zero false)
        then st
        else st
    else st
  else st.

(** The pairs [(di, dj)] in the order of the two nested loops. *)
Definition directions : list (Z * Z) :=
  d ← [-1; 0; 1]; (fun dj => (d, dj)) <$> [-1; 0; 1].

(** One iteration of [while(q.size())]: the front of the queue is popped
    and its neighbours are visited. *)
Definition expand (current : Point) (st : fg_state) : fg_state :=
  let curr_type := negb (label (is_ground st) (pt_x current) (pt_y current) =? 0) in
  foldl (visit current curr_type) st directions.

Definition pop (st : fg_state) : option (Point * fg_state) :=
  match q st with
  | [] => None
  | current :: rest =>
      Some (current,
            {| is_ground := is_ground st; q := rest;
               unclassified_count := unclassified_count st;
               writes := writes st; seedings := seedings st |})
  end.

(** [while(q.size()) { ... }], bounded by [fuel] iterations. *)
Fixpoint bfs (fuel : nat) (st : fg_state) : option fg_state :=
  match pop st with
  | None => Some st
  | Some (current, st') =>
      match fuel with
      | O => None
      | S fuel' => bfs fuel' (expand current st')
      end
  end.

(** [do { ... } while(unclassified_count > 0)], bounded by [fuel]
    iterations; [n] bounds the iterations of each inner loop. *)
Fixpoint classify (n : nat) (fuel : nat) (st : fg_state) : option fg_state :=
  match fuel with
  | O => None
  | S fuel' =>
      match bfs n (seed st) with
      | None => None
      | Some st' =>
          if 0 <? unclassified_count st' then classify n fuel' st' else Some st'
      end
  end.

Definition init_state : fg_state :=
  {| is_ground := make_grid (num_rows last_grid) (num_cols last_grid) (-1);
     q := [];
     unclassified_count := count_data;
     writes := [];
     seedings := 0 |}.

(** The whole run.  A cell is pushed only when it is labelled, so an
    inner loop pops at most one cell more than the grid has, and the
    outer loop runs at most once per cell (and once at least):
    these bounds are the fuel, and [find_ground_total] proves that they
    are never exhausted. *)
Definition cells : nat := (num_rows last_grid * num_cols last_grid)%nat.

Definition run : option fg_state :=
  classify (S cells) (S cells) init_state.

Definition find_ground : option (list (list Z)) :=
  is_ground <$> run.
End FindGround.

(** A DepthGrid as [gridify] builds it: rectangular, with a cell at least. *)
Definition wf_grid (g : list (list spec_float)) : Prop :=
  (0 < num_rows g)%nat /\ (0 < num_cols g)%nat /\ rect (num_rows g) (num_cols g) g.

(** [wf_grid], as a test. *)
Definition wf_gridb (g : list (list spec_float)) : bool :=
  Nat.ltb 0 (num_rows g) && Nat.ltb 0 (num_cols g)
  && forallb (fun row => Nat.eqb (length row) (num_cols g)) g.

(** Grids of small integers, for the examples. *)
Definition grid_of (g : list (list Z)) : list (list spec_float) :=
  map (map F32.of_int) g.



(** ** gridify and readPointsFromFile *)

(** How a call ends: normally, by [exit(status)] after an error message,
    by a C++ exception that nothing catches, or in undefined behaviour
    (an index out of range, a division of integers by zero, a conversion
    to [int] of a [float] that is not an [int]). *)
Inductive outcome (A : Type) : Type :=
  | Returns (a : A)
  | Exits (status : Z)
  | Throws
  | Undefined.
Arguments Returns {A} a.
Arguments Exits {A} status.
Arguments Throws {A}.
Arguments Undefined {A}.

#[global] Instance outcome_ret : MRet outcome := fun A a => Returns a.
#[global] Instance outcome_bind : MBind outcome := fun A B k m =>
  match m with
  | Returns a => k a
  | Exits s => Exits s
  | Throws => Throws
  | Undefined => Undefined
  end.

Definition of_option {A} (o : option A) : outcome A :=
  match o with
  | Some a => Returns a
  | None => Undefined
  end.

(** A loop whose body may fail. *)
Fixpoint for_each {A B} (body : A -> B -> outcome A) (l : list B) (a : A) : outcome A :=
  match l with
  | [] => Returns a
  | x :: l' => a' ← body a x; for_each body l' a'
  end.

(** The bounding box, global in the source and zero before the file is read. *)
Record bbox := mkBbox {
  minx : spec_float; maxx : spec_float;
  miny : spec_float; maxy : spec_float;
  minz : spec_float; maxz : spec_float
}.

Definition bbox_zero : bbox :=
  let z := S754_zero false in mkBbox z z z z z z.

(** What [gridify] leaves in the globals [elevation], [min_elevation],
    [last_grid] and [is_ground]. *)
Record gridded := mkGridded {
  elevation : list (list spec_float);
  min_elevation : spec_float;
  g_last_grid : list (list spec_float);
  g_is_ground : list (list Z)
}.

(** The conversion of a [size_t] to [int]. *)
Definition to_int32 (n : Z) : Z := (n + 2 ^ 31) mod 2 ^ 32 - 2 ^ 31.

(** [g[r][c].push_back(z)] on a grid of sample lists. *)
Definition push_sample (g : list (list (list spec_float))) (r c : Z) (z : spec_float)
    : outcome (list (list (list spec_float))) :=
  if (0 <=? r) && (r <? Z.of_nat (length g))
     && (0 <=? c) && (c <? Z.of_nat (length (default [] (g !! Z.to_nat r))))
  then Returns (set_cell g r c (cell [] g r c ++ [z]))
  else Undefined.

(** [g[i][j]] on a grid of sample lists, read in the averaging loop. *)
Definition samples_at (g : list (list (list spec_float))) (i j : Z)
    : outcome (list spec_float) :=
  if (0 <=? i) && (0 <=? j)
  then of_option (g !! Z.to_nat i ≫= fun row => row !! Z.to_nat j)
  else Undefined.

Section Gridify.
Variable points : list lidarPoint.
Variable bb : bbox.
Variable point_density : Z.
Variable building_slope_threshold : spec_float.

(** [int num_cells = points.size()/point_density], a division of [size_t]. *)
Definition num_cells : outcome Z :=
  let d := point_density mod 2 ^ 64 in
  if d =? 0 then Undefined
  else Returns (to_int32 (Z.of_nat (length points) / d)).

Definition bb_h : spec_float := F32.sub (maxy bb) (miny bb).
Definition bb_w : spec_float := F32.sub (maxx bb) (minx bb).

(** [float delta = sqrt(h*w/float(num_cells))]. *)
Definition cell_size (n : Z) : spec_float :=
  F32.sqrt (F32.div (F32.mul bb_h bb_w) (F32.of_int n)).

(** [int rows = ceil(h/delta)] and [int cols = ceil(w/delta)]. *)
Definition grid_rows (delta : spec_float) : outcome Z :=
  of_option (F32.to_int (F32.ceil (F32.div bb_h delta))).
Definition grid_cols (delta : spec_float) : outcome Z :=
  of_option (F32.to_int (F32.ceil (F32.div bb_w delta))).

(** [int r = floor((p.y - miny)/delta)] and [int c = floor((p.x - minx)/delta)]. *)
Definition row_of (delta : spec_float) (p : lidarPoint) : outcome Z :=
  of_option (F32.to_int (F32.floor (F32.div (F32.sub (lp_y p) (miny bb)) delta))).
Definition col_of (delta : spec_float) (p : lidarPoint) : outcome Z :=
  of_option (F32.to_int (F32.floor (F32.div (F32.sub (lp_x p) (minx bb)) delta))).

(** The body of the loop that puts the points into the two grids of
    samples; the second test is the one of the source,
    [p.return_number == p.return_number]. *)
Definition bin_point (delta : spec_float)
    (s : list (list (list spec_float)) * list (list (list spec_float)))
    (p : lidarPoint)
    : outcome (list (list (list spec_float)) * list (list (list spec_float))) :=
  let '(first_returns, last_returns) := s in
  r ← row_of delta p;
  c ← col_of delta p;
  first_returns' ←
    (if return_number p =? 1 then push_sample first_returns r c (lp_z p)
     else Returns first_returns);
  last_returns' ←
    (if return_number p =? return_number p then push_sample last_returns r c (lp_z p)
     else Returns last_returns);
  Returns (first_returns', last_returns').

(** [sum += samples[k]] for every [k], from [sum = 0]. *)
Definition sum_samples (samples : list spec_float) : spec_float :=
  foldl F32.add (S754_zero false) samples.

(** The body of the averaging loops for the cell [(i, j)]. *)
Definition average_cell
    (first_returns last_returns : list (list (list spec_float))) (i : Z)
    (s : list (list spec_float) * list (list spec_float) * spec_float) (j : Z)
    : outcome (list (list spec_float) * list (list spec_float) * spec_float) :=
  let '(avg_height, avg_depth, min_elev) := s in
  heights ← samples_at first_returns i j;
  depths ← samples_at last_returns i j;
  let k := Z.of_nat (length heights) in
  let l := Z.of_nat (length depths) in
  let avg_height :=
    if 0 <? k then set_cell avg_height i j (F32.div (sum_samples heights) (F32.of_int k))
    else avg_height in
  let avg_depth :=
    if 0 <? l then set_cell avg_depth i j (F32.div (sum_samples depths) (F32.of_int l))
    else avg_depth in
  let a := cell S754_nan avg_height i j in
  let min_elev :=
    if negb (F32.eqb a NODATA_f) && F32.ltb a min_elev then a else min_elev in
  Returns (avg_height, avg_depth, min_elev).

(** The averaging loops; both run up to [first_returns.size()], as in the
    source. *)
Definition average (first_returns last_returns : list (list (list spec_float)))
    (s : list (list spec_float) * list (list spec_float) * spec_float)
    : outcome (list (list spec_float) * list (list spec_float) * spec_float) :=
  for_each
    (fun s i =>
       for_each (average_cell first_returns last_returns i)
                (seqZ 0 (Z.of_nat (length first_returns))) s)
    (seqZ 0 (Z.of_nat (length first_returns))) s.

(** [gridify].  The vectors cannot be built with a negative size
    ([Throws]); [find_ground] reads [last_grid[0]] and writes
    [is_ground[0][0]], which is out of range on a grid without a cell. *)
Definition gridify : outcome gridded :=
  n ← num_cells;
  let delta := cell_size n in
  rows ← grid_rows delta;
  cols ← grid_cols delta;
  if (rows <? 0) || (cols <? 0) then Throws
  else
    let empty := make_grid (Z.to_nat rows) (Z.to_nat cols) ([] : list spec_float) in
    '(first_returns, last_returns) ← for_each (bin_point delta) points (empty, empty);
    let nodata := make_grid (Z.to_nat rows) (Z.to_nat cols) NODATA_f in
    '(avg_height, avg_depth, min_elev) ←
      average first_returns last_returns (nodata, nodata, maxz bb);
    if wf_gridb avg_depth then
      is_ground ← of_option (find_ground avg_depth building_slope_threshold);
      Returns (mkGridded avg_height min_elev avg_depth is_ground)
    else Undefined.
End Gridify.

(** The update of the bounding box for the point [p], the [n]-th read. *)
Definition update_bbox (n : nat) (bb : bbox) (p : lidarPoint) : bbox :=
  if Nat.eqb n 1 then
    mkBbox (lp_x p) (lp_x p) (lp_y p) (lp_y p) (lp_z p) (lp_z p)
  else
    mkBbox (if F32.ltb (lp_x p) (minx bb) then lp_x p else minx bb)
           (if F32.ltb (maxx bb) (lp_x p) then lp_x p else maxx bb)
           (if F32.ltb (lp_y p) (miny bb) then lp_y p else miny bb)
           (if F32.ltb (maxy bb) (lp_y p) then lp_y p else maxy bb)
           (if F32.ltb (lp_z p) (minz bb) then lp_z p else minz bb)
           (if F32.ltb (maxz bb) (lp_z p) then lp_z p else maxz bb).

(** The loop of [readPointsFromFile] over the records read from the file:
    each is stored with [mycode = 0] and widens the bounding box. *)
Definition read_points (records : list lidarPoint) : list lidarPoint * bbox :=
  foldl (fun '(points, bb) p =>
           let p' := mkLidarPoint (lp_x p) (lp_y p) (lp_z p)
                       (nb_of_returns p) (return_number p) (code p) 0 in
           (points ++ [p'], update_bbox (S (length points)) bb p'))
        ([], bbox_zero) records.

(** [readPointsFromFile], on the records of the file, or on [None] when
    the file cannot be opened. *)
Definition readPointsFromFile (file : option (list lidarPoint))
    (point_density : Z) (building_slope_threshold : spec_float) : outcome gridded :=
  match file with
  | None => Exits 1
  | Some records =>
      let '(points, bb) := read_points records in
      gridify points bb point_density building_slope_threshold
  end.

(** A record of the input file, with integer coordinates. *)
Definition record_of (x y z n r : Z) : lidarPoint :=
  mkLidarPoint (F32.of_int x) (F32.of_int y) (F32.of_int z) n r 0 0.

(** Classes of binary32 numbers met when the bounding box is degenerate. *)
Definition is_zero (x : spec_float) : Prop :=
  match x with S754_zero _ => True | _ => False end.
Definition zero_or_nan (x : spec_float) : Prop :=
  match x with S754_zero _ | S754_nan => True | _ => False end.
Definition inf_or_nan (x : spec_float) : Prop :=
  match x with S754_infinity _ | S754_nan => True | _ => False end.

(** ** Grid positions and counting *)

(** The cells of an [r] by [c] grid, in the order of the nested loops. *)
Definition positions (r c : nat) : list (Z * Z) :=
  i ← seqZ 0 (Z.of_nat r); (fun j => (i, j)) <$> seqZ 0 (Z.of_nat c).

Definition in_grid (r c : nat) (p : Z * Z) : Prop :=
  0 <= p.1 < Z.of_nat r /\ 0 <= p.2 < Z.of_nat c.

Fixpoint count_if {A} (f : A -> bool) (l : list A) : nat :=
  match l with
  | [] => 0
  | x :: l' => (if f x then 1 else 0) + count_if f l'
  end%nat.

(** An unclassified cell that holds data, and a cell without a label. *)
Definition open_cell (lg : list (list spec_float)) (isg : list (list Z)) (p : Z * Z) : bool :=
  negb (F32.eqb (height lg p.1 p.2) NODATA_f) && (label isg p.1 p.2 =? -1).

Definition unlabelled (isg : list (list Z)) (p : Z * Z) : bool :=
  label isg p.1 p.2 =? -1.

(** What the scan may return besides its initial value: an unclassified
    cell that holds data, with its height. *)
Definition candidate (lg : list (list spec_float)) (isg : list (list Z))
    (m : spec_float * Z * Z) : Prop :=
  in_grid (num_rows lg) (num_cols lg) (m.1.2, m.2)
  /\ open_cell lg isg (m.1.2, m.2) = true
  /\ m.1.1 = height lg m.1.2 m.2.

(** An entry of the queue: a cell of the grid that carries a label, with
    its height, or with [BIGINT] for the cell (0, 0) seeded by default. *)
Definition entry_ok (lg : list (list spec_float)) (isg : list (list Z)) (p : Point) : Prop :=
  in_grid (num_rows lg) (num_cols lg) (pt_x p, pt_y p)
  /\ (label isg (pt_x p) (pt_y p) = 0 \/ label isg (pt_x p) (pt_y p) = 1)
  /\ (pt_z p = height lg (pt_x p) (pt_y p)
      \/ (pt_x p = 0 /\ pt_y p = 0 /\ pt_z p = BIGINT_f)).

(** The invariant of the two loops of [find_ground]. *)
Record inv (lg : list (list spec_float)) (st : fg_state) : Prop := mkInv {
  inv_rect : rect (num_rows lg) (num_cols lg) (is_ground st);
  inv_queue : Forall (entry_ok lg (is_ground st)) (q st);
  inv_labels : forall i j,
    label (is_ground st) i j = -1 \/ label (is_ground st) i j = 0
    \/ label (is_ground st) i j = 1;
  inv_count :
    unclassified_count st = count_data lg - Z.of_nat (length (writes st));
  inv_open :
    unclassified_count st
    <= Z.of_nat (count_if (open_cell lg (is_ground st))
                          (positions (num_rows lg) (num_cols lg)));
  inv_writes : forall p, p ∈ writes st <-> label (is_ground st) p.1 p.2 <> -1;
  inv_seedings : (seedings st <= length (writes st))%nat
}.

(** The states of a run: the outer loop seeds when the queue is empty, at
    its first iteration or while [unclassified_count] is positive; the
    inner loop pops a cell and expands it. *)
Inductive reachable (lg : list (list spec_float)) (t : spec_float) : fg_state -> Prop :=
  | reach_init : reachable lg t (init_state lg)
  | reach_seed st :
      reachable lg t st -> q st = [] ->
      seedings st = 0%nat \/ 0 < unclassified_count st ->
      reachable lg t (seed lg st)
  | reach_expand st current st' :
      reachable lg t st -> pop st = Some (current, st') ->
      reachable lg t (expand lg t current st').

(** The bound on the iterations left in the inner loop. *)
Definition measure (lg : list (list spec_float)) (st : fg_state) : nat :=
  (length (q st)
   + count_if (unlabelled (is_ground st)) (positions (num_rows lg) (num_cols lg)))%nat.

(** Every height that is not NODATA is below [BIGINT]. *)
Definition below_BIGINT (lg : list (list spec_float)) : Prop :=
  forall p, in_grid (num_rows lg) (num_cols lg) p ->
    F32.eqb (height lg p.1 p.2) NODATA_f = false ->
    F32.ltb (height lg p.1 p.2) BIGINT_f = true.

(** A cell of the grid that holds data. *)
Definition data_cell (lg : list (list spec_float)) (p : Z * Z) : Prop :=
  in_grid (num_rows lg) (num_cols lg) p
  /\ F32.eqb (height lg p.1 p.2) NODATA_f = false.

(** Only cells that hold data carry a label, and [unclassified_count] is
    the number of unclassified cells that hold data. *)
Definition data_labelled (lg : list (list spec_float)) (st : fg_state) : Prop :=
  (forall i j, label (is_ground st) i j <> -1 -> data_cell lg (i, j))
  /\ unclassified_count st
     = Z.of_nat (count_if (open_cell lg (is_ground st))
                          (positions (num_rows lg) (num_cols lg))).

(** ** Auxiliary notions for the proofs *)

(** The order of binary32 numbers, read on a key: the class of the number
    (infinities, negative, zero, positive), then exponent and mantissa;
    NaN has no key and compares with nothing.  [SFcompare] is the
    lexicographic comparison of the keys ([compare_key]). *)
Definition key (x : spec_float) : option (Z * Z * Z) :=
  match x with
  | S754_nan => None
  | S754_zero _ => Some (0, 0, 0)
  | S754_infinity s => Some (if s then -2 else 2, 0, 0)
  | S754_finite s m e => Some (if s then (-1, - e, Z.neg m) else (1, e, Z.pos m))
  end.

Definition lex_compare (a b : Z * Z * Z) : comparison :=
  match a.1.1 ?= b.1.1 with
  | Eq => match a.1.2 ?= b.1.2 with Eq => a.2 ?= b.2 | c => c end
  | c => c
  end.

Definition lex_lt (a b : Z * Z * Z) : Prop :=
  a.1.1 < b.1.1 \/ (a.1.1 = b.1.1 /\ (a.1.2 < b.1.2 \/ (a.1.2 = b.1.2 /\ a.2 < b.2))).

Definition num_lt (x y : spec_float) : Prop :=
  match key x, key y with
  | Some a, Some b => lex_lt a b
  | _, _ => False
  end.

Definition lex_eq (a b : Z * Z * Z) : Prop :=
  a.1.1 = b.1.1 /\ a.1.2 = b.1.2 /\ a.2 = b.2.

Definition num_le (x y : spec_float) : Prop :=
  match key x, key y with
  | Some a, Some b => lex_lt a b \/ lex_eq a b
  | _, _ => False
  end.

(** The states of the two runs, side by side. *)
Definition twin (s1 s2 : fg_state) : Prop :=
  q s1 = q s2
  /\ unclassified_count s1 = unclassified_count s2
  /\ forall i j,
       (label (is_ground s1) i j = -1 <-> label (is_ground s2) i j = -1)
       /\ (label (is_ground s1) i j <> 0 -> label (is_ground s2) i j <> 0).

(** Every entry of the queue carries the height of its cell. *)
Definition own_heights (lg : list (list spec_float)) (st : fg_state) : Prop :=
  Forall (fun p => pt_z p = height lg (pt_x p) (pt_y p)) (q st).

(** A cell whose neighbours reached by a steep slope all carry a label:
    what an expansion of the cell, with its own height, leaves behind. *)
Definition closed_cell (lg : list (list spec_float)) (t : spec_float)
    (isg : list (list Z)) (c : Z * Z) : Prop :=
  forall d, d ∈ directions -> compass d.1 d.2 = true ->
    in_grid (num_rows lg) (num_cols lg) (c.1 + d.1, c.2 + d.2) ->
    F32.eqb (height lg (c.1 + d.1) (c.2 + d.2)) NODATA_f = false ->
    steep t (F32.sub (height lg (c.1 + d.1) (c.2 + d.2)) (height lg c.1 c.2)) = true ->
    label isg (c.1 + d.1) (c.2 + d.2) <> -1.

(** Every labelled cell is waiting in the queue or is closed. *)
Definition closure (lg : list (list spec_float)) (t : spec_float) (st : fg_state) : Prop :=
  own_heights lg st
  /\ forall c, label (is_ground st) c.1 c.2 <> -1 ->
       (exists p, p ∈ q st /\ (pt_x p, pt_y p) = c)
       \/ closed_cell lg t (is_ground st) c.

(** No unclassified cell that holds data is below [BIGINT]: the scan
    selects nothing. *)
Definition no_candidate (lg : list (list spec_float)) (isg : list (list Z)) : Prop :=
  forall p, in_grid (num_rows lg) (num_cols lg) p -> open_cell lg isg p = true ->
    F32.ltb (height lg p.1 p.2) BIGINT_f = false.

(** A visit keeps the labels already given, adds what it labels to the
    queue, with its height, and keeps the queue otherwise. *)
Definition extends (lg : list (list spec_float)) (st0 st : fg_state) : Prop :=
  (forall p, p ∈ q st0 -> p ∈ q st)
  /\ (forall p, p ∈ q st -> p ∈ q st0 \/ pt_z p = height lg (pt_x p) (pt_y p))
  /\ (forall i j, label (is_ground st0) i j <> -1 ->
        label (is_ground st) i j = label (is_ground st0) i j)
  /\ (forall i j, label (is_ground st) i j <> -1 ->
        label (is_ground st0) i j <> -1
        \/ exists p, p ∈ q st /\ (pt_x p, pt_y p) = (i, j)).

(** The initial value of the scan, and the cell that a scan selects. *)
Definition initial : spec_float * Z * Z := (BIGINT_f, 0, 0).
Definition seed_cell (m : spec_float * Z * Z) : Z * Z := (m.1.2, m.2).

(** The states in which the outer loop, under the threshold [t], seeds the
    cell [X] after a scan that selected it ([real_ref]), or seeds (0, 0)
    by default ([default_ref]). *)
Definition real_ref (lg : list (list spec_float)) (t : spec_float)
    (s0 : fg_state) (X : Z * Z) : Prop :=
  inv lg s0 /\ closure lg t s0 /\ q s0 = []
  /\ find_lowest lg (is_ground s0) <> initial
  /\ X = seed_cell (find_lowest lg (is_ground s0)).

Definition default_ref (lg : list (list spec_float)) (t : spec_float)
    (s0 : fg_state) : Prop :=
  inv lg s0 /\ closure lg t s0 /\ q s0 = []
  /\ no_candidate lg (is_ground s0)
  /\ (s0 = init_state lg \/ 0 < unclassified_count s0).

(** A cell that some iteration of the outer loop seeds. *)
Definition seeded (lg : list (list spec_float)) (t : spec_float) (X : Z * Z) : Prop :=
  (exists s0, real_ref lg t s0 X) \/ (X = (0, 0) /\ exists s0, default_ref lg t s0).

(** A state of the run under a higher threshold, compared with a state
    [s0] of the run under a lower one: it has labelled cells that [s0] has
    labelled, and [unclassified_count] still counts its unclassified
    cells that hold data. *)
Definition core (lg : list (list spec_float)) (s0 st : fg_state) : Prop :=
  own_heights lg st
  /\ (forall i j, label (is_ground st) i j <> -1 -> label (is_ground s0) i j <> -1)
  /\ unclassified_count st
     = Z.of_nat (count_if (open_cell lg (is_ground st))
                          (positions (num_rows lg) (num_cols lg))).

(** * The rest of the program *)

(** ** binary64 arithmetic and the conversions between [float] and [double] *)

Module F64.

Definition prec : Z := 53.
Definition emax : Z := 1024.

Definition add : spec_float -> spec_float -> spec_float := SFadd prec emax.
Definition sub : spec_float -> spec_float -> spec_float := SFsub prec emax.
Definition div : spec_float -> spec_float -> spec_float := SFdiv prec emax.

Definition of_int (n : Z) : spec_float := binary_normalize prec emax n 0 false.

(** The decimal literal [num/den], for a power of ten [den]: the
    nearest [double]. *)
Definition literal (num den : Z) : spec_float := div (of_int num) (of_int den).

(** The promotion of a [float] to [double], which is exact. *)
Definition of_float (x : spec_float) : spec_float :=
  match x with
  | S754_finite s m e => binary_normalize prec emax (if s then Z.neg m else Z.pos m) e s
  | _ => x
  end.

(** The conversion of a [double] to [float]: rounding to nearest even. *)
Definition to_float (x : spec_float) : spec_float :=
  match x with
  | S754_finite s m e =>
      binary_normalize F32.prec F32.emax (if s then Z.neg m else Z.pos m) e s
  | _ => x
  end.

End F64.

(** ** Rendering *)

(** The calls to OpenGL and GLUT that the program makes, in the order in
    which it makes them; the text printed on the standard output is left
    out. *)
Inductive gl_mode := GL_POINTS | GL_TRIANGLES | GL_PROJECTION | GL_MODELVIEW.

Inductive gl_call :=
  | glBegin (mode : gl_mode)
  | glEnd
  | glColor3fv (r g b : spec_float)
  | glVertex3f (x y z : spec_float)
  | glClear
  | glMatrixMode (mode : gl_mode)
  | glLoadIdentity
  | glTranslatef (x y z : spec_float)
  | glRotatef (angle : spec_float) (x y z : Z)
  | glFlush
  | glOrtho (left right bottom top near far : Z)
  | gluPerspective (fovy aspect near far : Z)
  | glutPostRedisplay.

(** The colours of [draw_ground], arrays of [GLfloat] initialised with
    decimal literals. *)
Definition colour (r g b : spec_float) : spec_float * spec_float * spec_float :=
  (F64.to_float r, F64.to_float g, F64.to_float b).

Definition green := Eval vm_compute in
  colour (F64.literal 0 10) (F64.literal 10 10) (F64.literal 0 10).
Definition white := Eval vm_compute in
  colour (F64.literal 10 10) (F64.literal 10 10) (F64.literal 10 10).
Definition magenta := Eval vm_compute in
  colour (F64.literal 10 10) (F64.literal 0 10) (F64.literal 10 10).
Definition brown := Eval vm_compute in
  colour (F64.literal 647059 1000000) (F64.literal 164706 1000000)
         (F64.literal 164706 1000000).

Definition glColor (c : spec_float * spec_float * spec_float) : gl_call :=
  glColor3fv c.1.1 c.1.2 c.2.

(** [class Point] with its three fields, as [hill_shade] uses it. *)
Record Point3 := mkPoint3 { p3_x : spec_float; p3_y : spec_float; p3_z : spec_float }.

(** [Point sun_incidence(0.577, 0.577, -0.577)]. *)
Definition sun_incidence : Point3 := Eval vm_compute in
  mkPoint3 (F64.to_float (F64.literal 577 1000)) (F64.to_float (F64.literal 577 1000))
           (F64.to_float (SFopp (F64.literal 577 1000))).

(** [g[i][j]] on a grid, undefined out of range. *)
Definition at2 {A} (g : list (list A)) (i j : Z) : outcome A :=
  if (0 <=? i) && (0 <=? j)
  then of_option (g !! Z.to_nat i ≫= fun row => row !! Z.to_nat j)
  else Undefined.

Section Screen.
(** The globals read by the drawing functions. *)
Variable bb : bbox.
Variable elevation : list (list spec_float).
Variable min_elevation : spec_float.
Variable last_grid : list (list spec_float).
Variable is_ground : list (list Z).

(** [-1 + 2*(x)/float(num_cols)]. *)
Definition xtoscreen (x : spec_float) (num_cols : Z) : spec_float :=
  F32.add (F32.of_int (-1)) (F32.div (F32.mul (F32.of_int 2) x) (F32.of_int num_cols)).

(** [-1 + 2*(y)/float(num_rows)]. *)
Definition ytoscreen (y : spec_float) (num_rows : Z) : spec_float :=
  F32.add (F32.of_int (-1)) (F32.div (F32.mul (F32.of_int 2) y) (F32.of_int num_rows)).

(** [(-1 + 2*(z-minz)/(maxz-minz))/1.5]: the division by the [double]
    1.5 is made in [double], and its result converted to [GLfloat]. *)
Definition ztoscreen (z : spec_float) : spec_float :=
  F64.to_float
    (F64.div
       (F64.of_float
          (F32.add (F32.of_int (-1))
             (F32.div (F32.mul (F32.of_int 2) (F32.sub z (minz bb)))
                      (F32.sub (maxz bb) (minz bb)))))
       (F64.literal 15 10)).

(** [hill_shade]: the three components of [shade] are the dot product of
    the sun vector and the unit normal of the triangle. *)
Definition hill_shade (p1 p2 p3 : Point3) : spec_float * spec_float * spec_float :=
  let U := mkPoint3 (F32.sub (p3_x p2) (p3_x p1)) (F32.sub (p3_y p2) (p3_y p1))
                    (F32.sub (p3_z p2) (p3_z p1)) in
  let V := mkPoint3 (F32.sub (p3_x p3) (p3_x p1)) (F32.sub (p3_y p3) (p3_y p1))
                    (F32.sub (p3_z p3) (p3_z p1)) in
  let N := mkPoint3
             (F32.sub (F32.mul (p3_y U) (p3_z V)) (F32.mul (p3_z U) (p3_y V)))
             (F32.sub (F32.mul (p3_z U) (p3_x V)) (F32.mul (p3_x U) (p3_z V)))
             (F32.sub (F32.mul (p3_x U) (p3_y V)) (F32.mul (p3_y U) (p3_x V))) in
  let n_len :=
    F32.sqrt (F32.add (F32.add (F32.mul (p3_x N) (p3_x N)) (F32.mul (p3_y N) (p3_y N)))
                      (F32.mul (p3_z N) (p3_z N))) in
  let N := mkPoint3 (F32.div (p3_x N) n_len) (F32.div (p3_y N) n_len)
                    (F32.div (p3_z N) n_len) in
  let dot_product :=
    F32.add (F32.add (F32.mul (p3_x N) (p3_x sun_incidence))
                     (F32.mul (p3_y N) (p3_y sun_incidence)))
            (F32.mul (p3_z N) (p3_z sun_incidence)) in
  (dot_product, dot_product, dot_product).

(** The colour of the triangles with a corner without data. *)
Definition nodata_shade : spec_float * spec_float * spec_float := Eval vm_compute in
  colour (F64.literal 10 10) (F64.literal 0 10) (F64.literal 6 10).

(** The body of the loops of [draw_hill_shade] for the cell [(i, j)]: two
    triangles. *)
Definition shade_cell (num_rows num_cols : Z) (i : Z) (calls : list gl_call) (j : Z)
    : outcome (list gl_call) :=
  h ← at2 elevation i j;
  h_i ← at2 elevation (i + 1) j;
  h_j ← at2 elevation i (j + 1);
  h_2 ← at2 elevation (i + 1) (j + 1);
  let p1 := mkPoint3 (F32.of_int (i + 1)) (F32.of_int j) h_i in
  let p2 := mkPoint3 (F32.of_int i) (F32.of_int j) h in
  let p3 := mkPoint3 (F32.of_int i) (F32.of_int (j + 1)) h_j in
  let shade := hill_shade p1 p2 p3 in
  let nodata := F32.eqb h NODATA_f || F32.eqb h_i NODATA_f || F32.eqb h_j NODATA_f in
  let h := if nodata then min_elevation else h in
  let h_i := if nodata then min_elevation else h_i in
  let h_j := if nodata then min_elevation else h_j in
  let shade := if nodata then nodata_shade else shade in
  let triangle1 :=
    [glColor shade;
     glVertex3f (xtoscreen (F32.of_int i) num_cols) (ytoscreen (F32.of_int j) num_rows)
                (ztoscreen h);
     glVertex3f (xtoscreen (F32.of_int (i + 1)) num_cols) (ytoscreen (F32.of_int j) num_rows)
                (ztoscreen h_i);
     glVertex3f (xtoscreen (F32.of_int i) num_cols) (ytoscreen (F32.of_int (j + 1)) num_rows)
                (ztoscreen h_j)] in
  let pa := mkPoint3 (F32.of_int (i + 1)) (F32.of_int (j + 1)) h_2 in
  let pb := mkPoint3 (F32.of_int (i + 1)) (F32.of_int j) h_i in
  let pc := mkPoint3 (F32.of_int i) (F32.of_int (j + 1)) h_j in
  let shade := hill_shade pa pb pc in
  let nodata := F32.eqb h_2 NODATA_f || F32.eqb h_i NODATA_f || F32.eqb h_j NODATA_f in
  let h_i := if nodata then min_elevation else h_i in
  let h_j := if nodata then min_elevation else h_j in
  let h_2 := if nodata then min_elevation else h_2 in
  let shade := if nodata then nodata_shade else shade in
  let triangle2 :=
    [glColor shade;
     glVertex3f (xtoscreen (F32.of_int (i + 1)) num_cols) (ytoscreen (F32.of_int j) num_rows)
                (ztoscreen h_i);
     glVertex3f (xtoscreen (F32.of_int i) num_cols) (ytoscreen (F32.of_int (j + 1)) num_rows)
                (ztoscreen h_j);
     glVertex3f (xtoscreen (F32.of_int (i + 1)) num_cols)
                (ytoscreen (F32.of_int (j + 1)) num_rows) (ztoscreen h_2)] in
  Returns (calls ++ triangle1 ++ triangle2).

(** [v.size() - 1], a subtraction of [size_t]: it wraps around for an
    empty vector. *)
Definition size_minus_1 {A} (v : list A) : Z := (Z.of_nat (length v) - 1) mod 2 ^ 64.

(** [draw_hill_shade]; it reads [elevation[0]] before the loops. *)
Definition draw_hill_shade : outcome (list gl_call) :=
  match elevation with
  | [] => Undefined
  | row0 :: _ =>
      let num_rows := to_int32 (Z.of_nat (length elevation)) in
      let num_cols := to_int32 (Z.of_nat (length row0)) in
      calls ←
        for_each
          (fun calls i =>
             for_each (shade_cell num_rows num_cols i)
                      (seqZ 0 (size_minus_1 (default [] (elevation !! Z.to_nat i)))) calls)
          (seqZ 0 (size_minus_1 elevation)) [glBegin GL_TRIANGLES];
      Returns (calls ++ [glEnd])
  end.

(** The body of the loops of [draw_ground] for the cell [(i, j)]: the
    label of the cell is read only when the cell holds data. *)
Definition ground_cell (num_rows num_cols : Z) (i : Z) (calls : list gl_call) (j : Z)
    : outcome (list gl_call) :=
  h ← at2 last_grid i j;
  '(h, colours) ←
    (if F32.eqb h NODATA_f then Returns (min_elevation, [glColor magenta])
     else
       l ← at2 is_ground i j;
       Returns (h, if l =? 1 then [glColor brown]
                   else if l =? 0 then [glColor white]
                   else if l =? -1 then [glColor green]
                   else []));
  Returns (calls ++ colours
           ++ [glVertex3f (xtoscreen (F32.of_int i) num_cols)
                          (ytoscreen (F32.of_int j) num_rows) (ztoscreen h)]).

(** [draw_ground]; it reads [last_grid[0]] before the loops. *)
Definition draw_ground : outcome (list gl_call) :=
  match last_grid with
  | [] => Undefined
  | row0 :: _ =>
      let num_rows := to_int32 (Z.of_nat (length last_grid)) in
      let num_cols := to_int32 (Z.of_nat (length row0)) in
      calls ←
        for_each
          (fun calls i =>
             for_each (ground_cell num_rows num_cols i)
                      (seqZ 0 (Z.of_nat (length (default [] (last_grid !! Z.to_nat i))))) calls)
          (seqZ 0 (Z.of_nat (length last_grid))) [glBegin GL_POINTS];
      Returns (calls ++ [glEnd])
  end.
End Screen.

(** ** The event handlers *)

(** The globals of the program after the file is read: those of
    [gridify], and the state of the user interface. *)
Record globals := mkGlobals {
  g_bbox : bbox;
  g_grids : gridded;
  building_slope_threshold : spec_float;
  pos : spec_float * spec_float * spec_float;
  theta : spec_float * spec_float * spec_float;
  fillmode : Z;
  WHICH_RETURN : Z;
  GROUND : Z;
  VEG : Z;
  BUILDING : Z;
  OTHER : Z;
  HILL_SHADE : Z;
  COLORMAP : Z
}.

Definition NB_COLORMAP_CHOICES : Z := 3.
Definition NB_WHICH_RETURN_OPTIONS : Z := 4.

(** [!x] on an [int]. *)
Definition lnot (x : Z) : Z := if x =? 0 then 1 else 0.

(** [x += d] and [x -= d] for a [float] [x] and a [double] [d]. *)
Definition add_double (x d : spec_float) : spec_float :=
  F64.to_float (F64.add (F64.of_float x) d).
Definition sub_double (x d : spec_float) : spec_float :=
  F64.to_float (F64.sub (F64.of_float x) d).

(** [display]: the scene is drawn by [draw_ground] when [HILL_SHADE] is
    set, and by [draw_hill_shade] otherwise. *)
Definition display (s : globals) : outcome (list gl_call) :=
  scene ←
    (if HILL_SHADE s =? 0
     then draw_hill_shade (g_bbox s) (elevation (g_grids s)) (min_elevation (g_grids s))
     else draw_ground (g_bbox s) (min_elevation (g_grids s)) (g_last_grid (g_grids s))
                      (g_is_ground (g_grids s)));
  Returns ([glClear; glMatrixMode GL_MODELVIEW; glLoadIdentity;
            glTranslatef (pos s).1.1 (pos s).1.2 (pos s).2;
            glRotatef (theta s).1.1 1 0 0;
            glRotatef (theta s).1.2 0 1 0;
            glRotatef (theta s).2 0 0 1]
           ++ scene ++ [glFlush]).

Definition set_threshold (s : globals) (t : spec_float) (isg : list (list Z)) : globals :=
  mkGlobals (g_bbox s)
    (mkGridded (elevation (g_grids s)) (min_elevation (g_grids s))
               (g_last_grid (g_grids s)) isg)
    t (pos s) (theta s) (fillmode s) (WHICH_RETURN s) (GROUND s) (VEG s) (BUILDING s)
    (OTHER s) (HILL_SHADE s) (COLORMAP s).

Definition set_view (s : globals)
    (pos theta : spec_float * spec_float * spec_float) : globals :=
  mkGlobals (g_bbox s) (g_grids s) (building_slope_threshold s) pos theta (fillmode s)
    (WHICH_RETURN s) (GROUND s) (VEG s) (BUILDING s) (OTHER s) (HILL_SHADE s) (COLORMAP s).

Definition set_filters (s : globals)
    (fillmode WHICH_RETURN GROUND VEG BUILDING OTHER HILL_SHADE COLORMAP : Z) : globals :=
  mkGlobals (g_bbox s) (g_grids s) (building_slope_threshold s) (pos s) (theta s) fillmode
    WHICH_RETURN GROUND VEG BUILDING OTHER HILL_SHADE COLORMAP.

(** [building_slope_threshold += d] or [-= d], followed by
    [is_ground = find_ground()]; as in [gridify], [find_ground] is
    called on rectangular grids with a cell at least. *)
Definition reclassify (s : globals) (t : spec_float) : outcome (globals * list gl_call) :=
  if wf_gridb (g_last_grid (g_grids s)) then
    isg ← of_option (find_ground (g_last_grid (g_grids s)) t);
    Returns (set_threshold s t isg, [glutPostRedisplay])
  else Undefined.

(** [keypress]: the new globals and the calls made, or the end of the
    program. *)
Definition keypress (key : ascii) (s : globals) : outcome (globals * list gl_call) :=
  let redisplay s' := Returns (s', [glutPostRedisplay]) in
  let '(px, py, pz) := pos s in
  let '(tx, ty, tz) := theta s in
  let zero := F32.of_int 0 in
  match key with
  | "s"%char =>
      redisplay (set_filters s (fillmode s) (WHICH_RETURN s) (GROUND s) (VEG s)
                   (BUILDING s) (OTHER s) (lnot (HILL_SHADE s)) (COLORMAP s))
  | "+"%char => reclassify s (add_double (building_slope_threshold s) (F64.literal 5 100))
  | "-"%char => reclassify s (sub_double (building_slope_threshold s) (F64.literal 5 100))
  | "2"%char =>
      Returns (set_view s (zero, zero, F32.of_int (-7)) (zero, zero, zero),
               [glMatrixMode GL_PROJECTION; glOrtho (-1) 1 (-1) 1 0 (-20);
                glutPostRedisplay])
  | "3"%char =>
      Returns (set_view s (zero, zero, F32.of_int (-2)) (F32.of_int (-45), zero, zero),
               [glMatrixMode GL_PROJECTION; glLoadIdentity; gluPerspective 60 1 1 10;
                glutPostRedisplay])
  | "c"%char =>
      if COLORMAP s =? F32.INT_MAX then Undefined
      else
        let colormap := Z.rem (COLORMAP s + 1) NB_COLORMAP_CHOICES in
        if (colormap =? 0) || (colormap =? 1) || (colormap =? 2)
        then redisplay (set_filters s (fillmode s) (WHICH_RETURN s) (GROUND s) (VEG s)
                          (BUILDING s) (OTHER s) (HILL_SHADE s) colormap)
        else Exits 1
  | "t"%char =>
      if WHICH_RETURN s =? F32.INT_MAX then Undefined
      else
        redisplay (set_filters s (fillmode s)
                     (Z.rem (WHICH_RETURN s + 1) NB_WHICH_RETURN_OPTIONS)
                     (GROUND s) (VEG s) (BUILDING s) (OTHER s) (HILL_SHADE s) (COLORMAP s))
  | "g"%char =>
      redisplay (set_filters s (fillmode s) (WHICH_RETURN s) (lnot (GROUND s)) (VEG s)
                   (BUILDING s) (OTHER s) (HILL_SHADE s) (COLORMAP s))
  | "v"%char =>
      redisplay (set_filters s (fillmode s) (WHICH_RETURN s) (GROUND s) (lnot (VEG s))
                   (BUILDING s) (OTHER s) (HILL_SHADE s) (COLORMAP s))
  | "h"%char =>
      redisplay (set_filters s (fillmode s) (WHICH_RETURN s) (GROUND s) (VEG s)
                   (lnot (BUILDING s)) (OTHER s) (HILL_SHADE s) (COLORMAP s))
  | "o"%char =>
      redisplay (set_filters s (fillmode s) (WHICH_RETURN s) (GROUND s) (VEG s)
                   (BUILDING s) (lnot (OTHER s)) (HILL_SHADE s) (COLORMAP s))
  | "x"%char => redisplay (set_view s (pos s) (add_double tx (F64.of_int 5), ty, tz))
  | "y"%char => redisplay (set_view s (pos s) (tx, add_double ty (F64.of_int 5), tz))
  | "z"%char => redisplay (set_view s (pos s) (tx, ty, add_double tz (F64.of_int 5)))
  | "X"%char => redisplay (set_view s (pos s) (sub_double tx (F64.of_int 5), ty, tz))
  | "Y"%char => redisplay (set_view s (pos s) (tx, sub_double ty (F64.of_int 5), tz))
  | "Z"%char => redisplay (set_view s (pos s) (tx, ty, sub_double tz (F64.of_int 5)))
  | "b"%char => redisplay (set_view s (px, py, sub_double pz (F64.literal 1 10)) (theta s))
  | "f"%char => redisplay (set_view s (px, py, add_double pz (F64.literal 1 10)) (theta s))
  | "d"%char => redisplay (set_view s (px, sub_double py (F64.literal 1 10), pz) (theta s))
  | "u"%char => redisplay (set_view s (px, add_double py (F64.literal 1 10), pz) (theta s))
  | "l"%char => redisplay (set_view s (sub_double px (F64.literal 1 10), py, pz) (theta s))
  | "r"%char => redisplay (set_view s (add_double px (F64.literal 1 10), py, pz) (theta s))
  | "w"%char =>
      redisplay (set_filters s (lnot (fillmode s)) (WHICH_RETURN s) (GROUND s) (VEG s)
                   (BUILDING s) (OTHER s) (HILL_SHADE s) (COLORMAP s))
  | "q"%char => Exits 0
  | _ => Returns (s, [])
  end.

(** What the event loop of GLUT delivers: a key, or a request to draw the
    window. *)
Inductive event := Key (key : ascii) | Redraw.

Definition handle (s : globals) (e : event) : outcome (globals * list gl_call) :=
  match e with
  | Key key => keypress key s
  | Redraw => calls ← display s; Returns (s, calls)
  end.

(** The event loop on a sequence of events: the globals after the last
    event and the calls made, in order. *)
Fixpoint glutMainLoop (events : list event) (s : globals)
    : outcome (globals * list gl_call) :=
  match events with
  | [] => Returns (s, [])
  | e :: events' =>
      '(s', calls) ← handle s e;
      '(s'', calls') ← glutMainLoop events' s';
      Returns (s'', calls ++ calls')
  end.

Section Main.
(** The functions of the C library and the files of the system. *)
Variable atoi : string -> Z.
Variable atof : string -> spec_float.
Variable files : string -> option (list lidarPoint).

(** [main] up to the event loop: the globals with which the loop starts.
    The bounding box is the one that [readPointsFromFile] has left. *)
Definition main (argv : list string) : outcome globals :=
  match argv with
  | [_; fname; density; slope] =>
      let point_density := atoi density in
      let threshold := F64.to_float (atof slope) in
      grids ← readPointsFromFile (files fname) point_density threshold;
      let bb := match files fname with
                | Some records => (read_points records).2
                | None => bbox_zero
                end in
      let zero := F32.of_int 0 in
      Returns (mkGlobals bb grids threshold (zero, zero, zero) (zero, zero, zero)
                         0 0 1 1 1 1 1 0)
  | _ => Exits 1
  end.
End Main.

(** * Notions for the further properties *)

(** ** find_ground *)

(** No step between two neighbouring cells that hold data is steep under
    the threshold [t]. *)
Definition no_steep_step (lg : list (list spec_float)) (t : spec_float) : Prop :=
  forall p d, data_cell lg p -> d ∈ directions -> compass d.1 d.2 = true ->
    data_cell lg (p.1 + d.1, p.2 + d.2) ->
    steep t (F32.sub (height lg (p.1 + d.1) (p.2 + d.2)) (height lg p.1 p.2)) = false.

(** No cell is labelled Building, and every entry of the queue is a cell
    that holds data, with its height. *)
Definition all_ground (lg : list (list spec_float)) (st : fg_state) : Prop :=
  (forall i j, label (is_ground st) i j <> 0)
  /\ Forall (fun p => pt_z p = height lg (pt_x p) (pt_y p)
                      /\ data_cell lg (pt_x p, pt_y p)) (q st).

(** ** readPointsFromFile and gridify *)

(** A record as [readPointsFromFile] stores it. *)
Definition stored (p : lidarPoint) : lidarPoint :=
  mkLidarPoint (lp_x p) (lp_y p) (lp_z p) (nb_of_returns p) (return_number p) (code p) 0.

(** No coordinate of the point is NaN. *)
Definition numeric (p : lidarPoint) : Prop :=
  lp_x p <> S754_nan /\ lp_y p <> S754_nan /\ lp_z p <> S754_nan.

(** The bounding box holds the point. *)
Definition encloses (bb : bbox) (p : lidarPoint) : Prop :=
  F32.leb (minx bb) (lp_x p) = true /\ F32.leb (lp_x p) (maxx bb) = true
  /\ F32.leb (miny bb) (lp_y p) = true /\ F32.leb (lp_y p) (maxy bb) = true
  /\ F32.leb (minz bb) (lp_z p) = true /\ F32.leb (lp_z p) (maxz bb) = true.



(** The point [p] falls in the cell [(i, j)]. *)
Definition in_cell (bb : bbox) (delta : spec_float) (p : lidarPoint) (i j : Z) : bool :=
  match row_of bb delta p, col_of bb delta p with
  | Returns r, Returns c => (r =? i) && (c =? j)
  | _, _ => false
  end.

(** The heights of the points of the cell [(i, j)] that pass the test
    [sel], in the order of the input. *)
Definition samples_in (sel : lidarPoint -> bool) (bb : bbox) (delta : spec_float)
    (points : list lidarPoint) (i j : Z) : list spec_float :=
  omap (fun p => if sel p && in_cell bb delta p i j then Some (lp_z p) else None) points.

(** The mean of the samples of a cell, or [d] for a cell without samples. *)
Definition mean_or (d : spec_float) (samples : list spec_float) : spec_float :=
  if 0 <? Z.of_nat (length samples)
  then F32.div (sum_samples samples) (F32.of_int (Z.of_nat (length samples)))
  else d.

(** [a] is NaN, NODATA, or not below [m]. *)
Definition not_below (m a : spec_float) : Prop :=
  a = S754_nan \/ F32.eqb a NODATA_f = true \/ F32.leb m a = true.

(** The assignments of the averaging loops for one cell. *)
Definition avg_step (g : list (list spec_float)) (samples : list spec_float)
    (i j : Z) : list (list spec_float) :=
  if 0 <? Z.of_nat (length samples)
  then set_cell g i j
         (F32.div (sum_samples samples) (F32.of_int (Z.of_nat (length samples))))
  else g.

Definition min_step (m a : spec_float) : spec_float :=
  if negb (F32.eqb a NODATA_f) && F32.ltb a m then a else m.

(** ** Rendering and event handlers *)

Definition is_vertex (c : gl_call) : bool :=
  match c with glVertex3f _ _ _ => true | _ => false end.
Definition is_colour (c : gl_call) : bool :=
  match c with glColor3fv _ _ _ => true | _ => false end.

(** The calls that [draw_ground] makes for the cell [p]: a vertex, after
    the colour of the cell. *)
Definition drawn (lg : list (list spec_float)) (isg : list (list Z))
    (p : Z * Z) (k : list gl_call) : Prop :=
  exists x y z,
    k = (if F32.eqb (height lg p.1 p.2) NODATA_f then [glColor magenta]
         else if label isg p.1 p.2 =? 1 then [glColor brown]
         else if label isg p.1 p.2 =? 0 then [glColor white]
         else if label isg p.1 p.2 =? -1 then [glColor green]
         else [])
        ++ [glVertex3f x y z].

(** The calls that [draw_hill_shade] makes for a cell: two triangles, each
    with its colour. *)
Definition two_triangles (k : list gl_call) : Prop :=
  exists c1 a1 a2 a3 c2 b1 b2 b3,
    k = [glColor c1; a1; a2; a3; glColor c2; b1; b2; b3]
    /\ Forall (fun v => is_vertex v = true) [a1; a2; a3; b1; b2; b3].

(** The globals that the event handlers expect and keep: grids of the
    same dimensions, a classification that is the one of the current
    threshold, and switches within their ranges. *)
Definition consistent (s : globals) : Prop :=
  let lg := g_last_grid (g_grids s) in
  wf_grid lg
  /\ rect (num_rows lg) (num_cols lg) (elevation (g_grids s))
  /\ find_ground lg (building_slope_threshold s) = Some (g_is_ground (g_grids s))
  /\ 0 <= COLORMAP s < NB_COLORMAP_CHOICES
  /\ 0 <= WHICH_RETURN s < NB_WHICH_RETURN_OPTIONS.

(** The switches hold 0 or 1, and the two selectors are within their
    ranges. *)
Definition switches_set (s : globals) : Prop :=
  (fillmode s = 0 \/ fillmode s = 1) /\ (GROUND s = 0 \/ GROUND s = 1)
  /\ (VEG s = 0 \/ VEG s = 1) /\ (BUILDING s = 0 \/ BUILDING s = 1)
  /\ (OTHER s = 0 \/ OTHER s = 1) /\ (HILL_SHADE s = 0 \/ HILL_SHADE s = 1)
  /\ 0 <= COLORMAP s < NB_COLORMAP_CHOICES
  /\ 0 <= WHICH_RETURN s < NB_WHICH_RETURN_OPTIONS.

(** ** Tests on concrete grids *)

(** [f] holds of every cell of the grid. *)
Definition for_cells {A} (g : list (list A)) (f : Z * Z -> bool) : bool :=
  forallb f (positions (num_rows g) (num_cols g)).

Definition data_cellb (lg : list (list spec_float)) (p : Z * Z) : bool :=
  in_bounds lg p.1 p.2 && negb (F32.eqb (height lg p.1 p.2) NODATA_f).

Definition below_BIGINTb (lg : list (list spec_float)) : bool :=
  for_cells lg (fun p =>
    F32.eqb (height lg p.1 p.2) NODATA_f || F32.ltb (height lg p.1 p.2) BIGINT_f).

(** The cell [p] is strictly below every other cell that holds data. *)
Definition lowestb (lg : list (list spec_float)) (p : Z * Z) : bool :=
  for_cells lg (fun p' =>
    F32.eqb (height lg p'.1 p'.2) NODATA_f || bool_decide (p' = p)
    || F32.ltb (height lg p.1 p.2) (height lg p'.1 p'.2)).

Definition no_steep_stepb (lg : list (list spec_float)) (t : spec_float) : bool :=
  for_cells lg (fun p =>
    F32.eqb (height lg p.1 p.2) NODATA_f
    || forallb (fun d =>
         negb (compass d.1 d.2) || negb (data_cellb lg (p.1 + d.1, p.2 + d.2))
         || negb (steep t (F32.sub (height lg (p.1 + d.1) (p.2 + d.2)) (height lg p.1 p.2))))
       directions).

(** Records for the examples: a cloud of eight points over the square
    from (0, 0) to (5, 5). *)
Definition cloud : list lidarPoint :=
  [record_of 0 0 10 1 1; record_of 1 1 7 2 1; record_of 1 1 5 2 2; record_of 5 5 7 1 1;
   record_of 3 3 7 1 1; record_of 1 4 7 1 1; record_of 4 1 8 1 1; record_of 2 3 8 1 1].

(** Globals for the examples: the 3 by 3 grid of Scenario A and its
    classification under the threshold 5. *)
Definition scene_A : globals :=
  let lg := grid_of [[0; 0; 0]; [0; 10; 0]; [0; 0; 0]] in
  let zero := F32.of_int 0 in
  mkGlobals (mkBbox zero (F32.of_int 2) zero (F32.of_int 2) zero (F32.of_int 10))
    (mkGridded lg zero lg [[1; 1; 1]; [1; 0; 1]; [1; 1; 1]])
    (F32.of_int 5) (zero, zero, zero) (zero, zero, zero) 0 0 1 1 1 1 1 0.

(** * Properties *)

(** ** Grids *)

Section GridFacts.
Context {A : Type}.
Implicit Types (g : list (list A)) (d v : A) (i j : Z).

Lemma rect_set_cell r c g i j v : rect r c g -> rect r c (set_cell g i j v).
Proof.
  intros [Hlen Hrows]. unfold set_cell.
  destruct (_ && _); [|by split].
  split; [by rewrite length_alter|].
  apply Forall_alter; [done|]. intros row Hrow. by rewrite length_insert.
Qed.

Lemma cell_set_cell_eq r c g d i j v :
  rect r c g -> in_grid r c (i, j) -> cell d (set_cell g i j v) i j = v.
Proof.
  intros [Hlen Hrows] [[Hi0 Hi] [Hj0 Hj]]; simpl in *.
  unfold cell, set_cell.
  assert ((0 <=? i) && (0 <=? j) = true) as -> by lia.
  rewrite list_lookup_alter_eq.
  destruct (lookup_lt_is_Some_2 g (Z.to_nat i)) as [row Hrow]; [lia|].
  rewrite Hrow. simpl.
  rewrite list_lookup_insert_eq; [done|].
  rewrite (Forall_lookup_1 _ _ _ _ Hrows Hrow). lia.
Qed.

Lemma cell_set_cell_ne g d i j i' j' v :
  (i, j) <> (i', j') -> cell d (set_cell g i j v) i' j' = cell d g i' j'.
Proof.
  intros Hne. unfold cell, set_cell.
  destruct ((0 <=? i') && (0 <=? j')) eqn:Hb'; [|done].
  destruct ((0 <=? i) && (0 <=? j)) eqn:Hb; [|done].
  destruct (decide (Z.to_nat i = Z.to_nat i')) as [Hi|Hi].
  - assert (i = i') as <- by lia.
    rewrite list_lookup_alter_eq. destruct (g !! Z.to_nat i) as [row|]; [|done].
    simpl. rewrite list_lookup_insert_ne; [done|].
    intros Hj. apply Hne. f_equal. lia.
  - by rewrite list_lookup_alter_ne.
Qed.

Lemma rect_make_grid r c v : rect r c (make_grid r c v).
Proof.
  split; [apply length_replicate|].
  apply Forall_replicate, length_replicate.
Qed.

Lemma cell_make_grid r c d v i j :
  in_grid r c (i, j) -> cell d (make_grid r c v) i j = v.
Proof.
  intros [[Hi0 Hi] [Hj0 Hj]]; simpl in *. unfold cell, make_grid.
  assert ((0 <=? i) && (0 <=? j) = true) as -> by lia.
  rewrite lookup_replicate_2 by lia. simpl.
  by rewrite lookup_replicate_2 by lia.
Qed.

Lemma cell_outside r c g d i j :
  rect r c g -> ~ in_grid r c (i, j) -> cell d g i j = d.
Proof.
  intros [Hlen Hrows] Hout. unfold cell, in_grid in *; simpl in *.
  destruct ((0 <=? i) && (0 <=? j)) eqn:Hb; [|done].
  destruct (g !! Z.to_nat i) as [row|] eqn:Hrow; [|done]. simpl.
  pose proof (lookup_lt_Some _ _ _ Hrow) as Hlt.
  rewrite lookup_ge_None_2; [done|].
  rewrite (Forall_lookup_1 _ _ _ _ Hrows Hrow). lia.
Qed.

(** Two rectangular grids with the same cells are equal. *)
Lemma rect_ext r c g1 g2 d :
  rect r c g1 -> rect r c g2 ->
  (forall i j, in_grid r c (i, j) -> cell d g1 i j = cell d g2 i j) ->
  g1 = g2.
Proof.
  intros [Hl1 Hr1] [Hl2 Hr2] Hcells.
  apply list_eq_same_length with r; [done..|].
  intros i row1 row2 Hi H1 H2.
  apply list_eq_same_length with c;
    [by apply (Forall_lookup_1 _ _ _ _ Hr2 H2)
    |by apply (Forall_lookup_1 _ _ _ _ Hr1 H1)|].
  intros j x y Hj Hx Hy.
  specialize (Hcells (Z.of_nat i) (Z.of_nat j)).
  unfold cell, in_grid in Hcells; simpl in Hcells.
  assert ((0 <=? Z.of_nat i) && (0 <=? Z.of_nat j) = true) as Hb by lia.
  rewrite Hb, !Nat2Z.id, H1, H2 in Hcells. simpl in Hcells.
  rewrite Hx, Hy in Hcells. simpl in Hcells. apply Hcells. lia.
Qed.
End GridFacts.

Lemma elem_of_positions r c p : p ∈ positions r c <-> in_grid r c p.
Proof.
  unfold positions, in_grid. rewrite list_elem_of_bind. split.
  - intros (i & Hp & Hi). apply list_elem_of_fmap in Hp as (j & -> & Hj).
    apply elem_of_seqZ in Hi, Hj. simpl. lia.
  - destruct p as [i j]; simpl. intros [Hi Hj]. exists i. split.
    + apply list_elem_of_fmap. exists j. split; [done|]. apply elem_of_seqZ. lia.
    + apply elem_of_seqZ. lia.
Qed.

Lemma NoDup_positions r c : NoDup (positions r c).
Proof.
  unfold positions. apply NoDup_bind.
  - intros i1 i2 p _ _ H1 H2.
    apply list_elem_of_fmap in H1 as (j1 & -> & _).
    apply list_elem_of_fmap in H2 as (j2 & Heq & _). congruence.
  - intros i _. apply NoDup_fmap_2; [|apply NoDup_seqZ].
    intros j1 j2 Heq. congruence.
  - apply NoDup_seqZ.
Qed.

Lemma length_positions r c : length (positions r c) = (r * c)%nat.
Proof.
  unfold positions.
  rewrite <- (Nat2Z.id r) at 2. rewrite <- (length_seqZ 0 (Z.of_nat r)).
  induction (seqZ 0 (Z.of_nat r)) as [|i l IH]; [done|].
  change (length (((fun j => (i, j)) <$> seqZ 0 (Z.of_nat c))
                  ++ (l ≫= fun i => (fun j => (i, j)) <$> seqZ 0 (Z.of_nat c)))
          = (S (length l) * c)%nat).
  rewrite length_app, length_fmap, length_seqZ, IH. lia.
Qed.

Section CountFacts.
Context {A : Type}.
Implicit Types (f : A -> bool) (l : list A).

Lemma count_if_le_length f l : (count_if f l <= length l)%nat.
Proof. induction l as [|x l IH]; simpl; [lia|]. destruct (f x); lia. Qed.

Lemma count_if_ext f f' l :
  (forall x, x ∈ l -> f' x = f x) -> count_if f' l = count_if f l.
Proof.
  induction l as [|x l IH]; intros Hext; simpl; [done|].
  rewrite Hext by left. rewrite IH; [done|]. intros y Hy. apply Hext. by right.
Qed.

Lemma count_if_pos f l : (0 < count_if f l)%nat -> exists x, x ∈ l /\ f x = true.
Proof.
  induction l as [|x l IH]; simpl; [lia|].
  destruct (f x) eqn:Hx.
  - intros _. exists x. split; [left|done].
  - intros Hpos. destruct IH as (y & Hy & Hfy); [lia|]. exists y. split; [by right|done].
Qed.

Lemma count_if_zero f l x : count_if f l = 0%nat -> x ∈ l -> f x = false.
Proof.
  induction l as [|y l IH]; simpl; intros Hz Hx.
  - by apply elem_of_nil in Hx.
  - apply elem_of_cons in Hx as [->|Hx].
    + destruct (f y); [lia|done].
    + apply IH; [|done]. destruct (f y); lia.
Qed.

(** Switching the predicate off at one element of a duplicate-free list
    lowers the count by one. *)
Lemma count_if_switch_off f f' l x :
  NoDup l -> x ∈ l -> f x = true -> f' x = false ->
  (forall y, y <> x -> f' y = f y) ->
  (count_if f' l + 1 = count_if f l)%nat.
Proof.
  intros Hnd Hx Hfx Hf'x Hother.
  induction Hnd as [|y l Hy Hnd IH]; [by apply elem_of_nil in Hx|].
  simpl. apply elem_of_cons in Hx as [<-|Hx].
  - rewrite Hfx, Hf'x.
    rewrite (count_if_ext f f' l); [lia|].
    intros z Hz. apply Hother. intros ->. done.
  - rewrite (Hother y) by (intros ->; done).
    specialize (IH Hx). destruct (f y); lia.
Qed.
End CountFacts.

(** ** Loops over the cells *)

Lemma foldl_ext_in {A B} (f f' : A -> B -> A) (l : list B) (a : A) :
  (forall a x, x ∈ l -> f a x = f' a x) -> foldl f a l = foldl f' a l.
Proof.
  revert a. induction l as [|x l IH]; intros a Hext; simpl; [done|].
  rewrite Hext by left. apply IH. intros a' y Hy. apply Hext. by right.
Qed.

Lemma foldl_bind_list {A B C} (f : A -> C -> A) (k : B -> list C) (l : list B) (a : A) :
  foldl f a (l ≫= k) = foldl (fun a x => foldl f a (k x)) a l.
Proof.
  revert a. induction l as [|x l IH]; intros a; [done|].
  change ((x :: l) ≫= k) with (k x ++ (l ≫= k)).
  rewrite foldl_app. simpl. apply IH.
Qed.

Lemma foldl_fmap_list {A B C} (f : A -> C -> A) (h : B -> C) (l : list B) (a : A) :
  foldl f a (h <$> l) = foldl (fun a x => f a (h x)) a l.
Proof. revert a. induction l as [|x l IH]; intros a; simpl; [done|]. apply IH. Qed.

(** On a rectangular grid the nested loops visit [positions] in order. *)
Lemma for_each_cell_positions {A S} r c (g : list (list A)) (body : Z -> Z -> S -> S) s :
  rect r c g ->
  for_each_cell g body s = foldl (fun s p => body p.1 p.2 s) s (positions r c).
Proof.
  intros [Hlen Hrows]. unfold for_each_cell, positions, num_rows.
  rewrite foldl_bind_list, Hlen. apply foldl_ext_in.
  intros a i Hi. apply elem_of_seqZ in Hi.
  rewrite foldl_fmap_list. simpl.
  destruct (lookup_lt_is_Some_2 g (Z.to_nat i)) as [row Hrow]; [lia|].
  rewrite Hrow. simpl. by rewrite (Forall_lookup_1 _ _ _ _ Hrows Hrow).
Qed.

Lemma foldl_count_down {A} (f : A -> bool) (l : list A) (n : Z) :
  foldl (fun n x => if f x then n - 1 else n) n l = n - Z.of_nat (count_if f l).
Proof.
  revert n. induction l as [|x l IH]; intros n; simpl; [lia|].
  rewrite IH. destruct (f x); lia.
Qed.

Lemma count_if_negb {A} (f : A -> bool) (l : list A) :
  (count_if (fun x => negb (f x)) l + count_if f l = length l)%nat.
Proof. induction l as [|x l IH]; simpl; [done|]. destruct (f x); simpl; lia. Qed.

Lemma count_if_change_one `{EqDecision A} (f f' : A -> bool) (l : list A) (x : A) :
  NoDup l -> (forall y, y <> x -> f' y = f y) ->
  (count_if f l <= count_if f' l + 1)%nat.
Proof.
  intros Hnd Hother. induction Hnd as [|y l Hy Hnd IH]; simpl; [lia|].
  destruct (decide (y = x)) as [->|Hne].
  - rewrite (count_if_ext f f' l).
    + destruct (f x), (f' x); lia.
    + intros z Hz. apply Hother. intros ->. done.
  - rewrite (Hother y Hne). destruct (f y); lia.
Qed.

(** ** Comparisons of binary32 numbers *)

Lemma compare_cont_refl (m : positive) : Pos.compare_cont Eq m m = Eq.
Proof. apply Pos.compare_cont_refl. Qed.

Lemma ltb_irrefl x : F32.ltb x x = false.
Proof.
  unfold F32.ltb, SFltb. destruct x as [s|s| |s m e]; simpl; try done.
  - by destruct s.
  - destruct s; rewrite Z.compare_refl, compare_cont_refl; done.
Qed.

Lemma compare_antisym x y :
  SFcompare y x = option_map CompOpp (SFcompare x y).
Proof.
  destruct x as [sx|sx| |sx mx ex], y as [sy|sy| |sy my ey]; simpl; try done;
    try (by destruct sx); try (by destruct sy); try (by destruct sx, sy).
  destruct sx, sy; try done; rewrite (Z.compare_antisym ey ex);
    destruct (ey ?= ex) eqn:He; simpl; try done;
    rewrite (ZC4 mx my); by destruct (Pos.compare_cont Eq my mx).
Qed.

Lemma leb_not_ltb x y : F32.leb x y = true -> F32.ltb y x = false.
Proof.
  unfold F32.leb, F32.ltb, SFleb, SFltb. rewrite (compare_antisym x y).
  by destruct (SFcompare x y) as [[]|].
Qed.

Lemma ltb_not_leb x y : F32.ltb x y = true -> F32.leb y x = false.
Proof.
  unfold F32.leb, F32.ltb, SFleb, SFltb. rewrite (compare_antisym x y).
  by destruct (SFcompare x y) as [[]|].
Qed.

Lemma ltb_nan_r x : F32.ltb x S754_nan = false.
Proof. by destruct x. Qed.

(** [h - h] is [+0], or NaN when [h] is infinite or NaN. *)
Lemma sub_self h :
  F32.sub h h = S754_zero false \/ F32.sub h h = S754_nan.
Proof.
  destruct h as [s|s| |s m e]; simpl.
  - left. by destruct s.
  - right. by destruct s.
  - by right.
  - left. unfold F32.sub, SFsub. rewrite Z.min_id. unfold shl_align.
    rewrite Z.sub_diag. simpl. by rewrite ?Z.sub_diag.
Qed.

Lemma compare_key x y :
  SFcompare x y =
  match key x, key y with
  | Some a, Some b => Some (lex_compare a b)
  | _, _ => None
  end.
Proof.
  destruct x as [sx|sx| |sx mx ex], y as [sy|sy| |sy my ey]; simpl; try done;
    try (by destruct sx); try (by destruct sy); try (by destruct sx, sy).
  destruct sx, sy; unfold lex_compare; simpl; try done.
  all: rewrite ?Z.compare_opp, ?(Z.compare_antisym ex ey); by destruct (ex ?= ey).
Qed.

Lemma lex_compare_lt a b : lex_compare a b = Lt <-> lex_lt a b.
Proof.
  destruct a as [[a1 a2] a3], b as [[b1 b2] b3]. unfold lex_compare, lex_lt. simpl.
  destruct (Z.compare_spec a1 b1), (Z.compare_spec a2 b2), (Z.compare_spec a3 b3);
    split; intros; try done; try lia.
Qed.

Lemma lex_compare_eq a b : lex_compare a b = Eq <-> lex_eq a b.
Proof.
  destruct a as [[a1 a2] a3], b as [[b1 b2] b3]. unfold lex_compare, lex_eq. simpl.
  destruct (Z.compare_spec a1 b1), (Z.compare_spec a2 b2), (Z.compare_spec a3 b3);
    split; intros; try done; try lia.
Qed.

Lemma ltb_num x y : F32.ltb x y = true <-> num_lt x y.
Proof.
  unfold F32.ltb, SFltb, num_lt. rewrite compare_key.
  destruct (key x) as [a|], (key y) as [b|]; try done.
  rewrite <- lex_compare_lt. by destruct (lex_compare a b).
Qed.

Lemma leb_num x y : F32.leb x y = true <-> num_le x y.
Proof.
  unfold F32.leb, SFleb, num_le. rewrite compare_key.
  destruct (key x) as [a|], (key y) as [b|]; try done.
  rewrite <- lex_compare_lt, <- lex_compare_eq.
  destruct (lex_compare a b); split; intros Hor; try done; auto; by destruct Hor.
Qed.

Lemma ltb_false_num x y : F32.ltb x y = false <-> ~ num_lt x y.
Proof. rewrite <- ltb_num. by destruct (F32.ltb x y). Qed.

Lemma leb_false_num x y : F32.leb x y = false <-> ~ num_le x y.
Proof. rewrite <- leb_num. by destruct (F32.leb x y). Qed.

(** Comparisons of binary32 numbers, as linear arithmetic on their keys. *)
Ltac num_order :=
  rewrite ?ltb_num, ?leb_num, ?ltb_false_num, ?leb_false_num in *;
  unfold num_lt, num_le, lex_lt, lex_eq in *;
  repeat match goal with
  | |- context [key ?x] => destruct (key x) as [[[? ?] ?]|]
  | H : context [key ?x] |- _ => destruct (key x) as [[[? ?] ?]|]
  end;
  simpl in *; try tauto; try lia.

Lemma leb_trans a b c : F32.leb a b = true -> F32.leb b c = true -> F32.leb a c = true.
Proof. intros H1 H2. num_order. Qed.
Lemma leb_ltb_trans a b c : F32.leb a b = true -> F32.ltb b c = true -> F32.ltb a c = true.
Proof. intros H1 H2. num_order. Qed.
Lemma ltb_leb_trans a b c : F32.ltb a b = true -> F32.leb b c = true -> F32.ltb a c = true.
Proof. intros H1 H2. num_order. Qed.
Lemma ltb_trans a b c : F32.ltb a b = true -> F32.ltb b c = true -> F32.ltb a c = true.
Proof. intros H1 H2. num_order. Qed.
Lemma ltb_leb a b : F32.ltb a b = true -> F32.leb a b = true.
Proof. intros H1. num_order. Qed.
(** ** The scan for the lowest unclassified cell *)

Section Scan.
Variable lg : list (list spec_float).
Variable isg : list (list Z).

Let scan (l : list (Z * Z)) (m : spec_float * Z * Z) :=
  foldl (fun m p => scan_cell lg isg p.1 p.2 m) m l.

Lemma scan_cell_cases i j m :
  scan_cell lg isg i j m = m
  \/ (open_cell lg isg (i, j) = true
      /\ F32.ltb (height lg i j) m.1.1 = true
      /\ scan_cell lg isg i j m = (height lg i j, i, j)).
Proof.
  destruct m as [[h mi] mj]. unfold scan_cell, open_cell. simpl.
  destruct (negb (F32.eqb (height lg i j) NODATA_f) && (label isg i j =? -1)); simpl;
    [|by left].
  destruct (F32.ltb (height lg i j) h); [by right|by left].
Qed.

Lemma scan_cell_open i j m :
  open_cell lg isg (i, j) = true -> F32.ltb (height lg i j) m.1.1 = true ->
  scan_cell lg isg i j m = (height lg i j, i, j).
Proof.
  destruct m as [[h mi] mj]. unfold scan_cell, open_cell. simpl.
  by intros -> ->.
Qed.

Lemma scan_candidate l m :
  Forall (in_grid (num_rows lg) (num_cols lg)) l ->
  candidate lg isg m -> candidate lg isg (scan l m).
Proof.
  intros Hl. revert m. induction Hl as [|[i j] l Hp Hl IH]; intros m Hm; [done|].
  apply IH. simpl.
  destruct (scan_cell_cases i j m) as [Heq|(Hopen & _ & Heq)]; rewrite Heq; [done|].
  by split.
Qed.

Lemma scan_initial_or_candidate l m :
  Forall (in_grid (num_rows lg) (num_cols lg)) l ->
  scan l m = m \/ candidate lg isg (scan l m).
Proof.
  intros Hl. revert m. induction Hl as [|[i j] l Hp Hl IH]; intros m; [by left|].
  simpl. destruct (scan_cell_cases i j m) as [Heq|(Hopen & _ & Heq)].
  - unfold scan in *. simpl. rewrite Heq. apply IH.
  - right. unfold scan. simpl. rewrite Heq. by apply scan_candidate.
Qed.

Lemma scan_finds l m p :
  Forall (in_grid (num_rows lg) (num_cols lg)) l ->
  p ∈ l -> open_cell lg isg p = true -> F32.ltb (height lg p.1 p.2) m.1.1 = true ->
  candidate lg isg (scan l m).
Proof.
  intros Hl Hp Hopen Hlt. induction Hl as [|[i j] l Hij Hl IH]; [by apply elem_of_nil in Hp|].
  unfold scan. simpl.
  destruct (scan_cell_cases i j m) as [Heq|(Hopen' & _ & Heq)].
  - rewrite Heq. apply IH. apply elem_of_cons in Hp as [->|Hp]; [|done].
    rewrite scan_cell_open in Heq by done. simpl in *.
    destruct m as [[h mi] mj]. injection Heq as <- <- <-.
    by rewrite ltb_irrefl in Hlt.
  - rewrite Heq. by apply scan_candidate.
Qed.

Lemma scan_nothing_open l m :
  (forall p, p ∈ l -> open_cell lg isg p = false) -> scan l m = m.
Proof.
  revert m. induction l as [|[i j] l IH]; intros m Hno; [done|].
  unfold scan. simpl.
  destruct (scan_cell_cases i j m) as [->|(Hopen & _)].
  - apply IH. intros p Hp. apply Hno. by right.
  - rewrite Hno in Hopen by left. done.
Qed.
End Scan.

Section ScanMin.
Variable lg : list (list spec_float).
Variable isg : list (list Z).

Let scan (l : list (Z * Z)) (m : spec_float * Z * Z) :=
  foldl (fun m p => scan_cell lg isg p.1 p.2 m) m l.

Lemma scan_first_minimum l m0 :
  NoDup l -> Forall (in_grid (num_rows lg) (num_cols lg)) l ->
  F32.leb m0.1.1 m0.1.1 = true ->
  (forall Y, Y ∈ l -> open_cell lg isg Y = true ->
     F32.ltb (height lg Y.1 Y.2) (scan l m0).1.1 = false)
  /\ F32.leb (scan l m0).1.1 m0.1.1 = true
  /\ (scan l m0 = m0
      \/ (candidate lg isg (scan l m0)
          /\ ((scan l m0).1.2, (scan l m0).2) ∈ l
          /\ F32.ltb (scan l m0).1.1 m0.1.1 = true
          /\ forall l1 l2, l = l1 ++ ((scan l m0).1.2, (scan l m0).2) :: l2 ->
               forall Y, Y ∈ l1 -> open_cell lg isg Y = true ->
                 F32.ltb (height lg Y.1 Y.2) m0.1.1 = true ->
                 F32.ltb (scan l m0).1.1 (height lg Y.1 Y.2) = true)).
Proof.
  intros Hnd Hl. revert m0.
  induction Hl as [|[i j] l Hin Hl IH]; intros m0 Hnum.
  { split; [by intros Y ?%elem_of_nil|]. split; [done|by left]. }
  apply NoDup_cons in Hnd as [Hnotin Hnd].
  change (scan ((i, j) :: l) m0) with (scan l (scan_cell lg isg i j m0)).
  set (m1 := scan_cell lg isg i j m0).
  assert (F32.leb m1.1.1 m0.1.1 = true
          /\ (m1 = m0 \/ (open_cell lg isg (i, j) = true
                          /\ F32.ltb (height lg i j) m0.1.1 = true
                          /\ m1 = (height lg i j, i, j)))
          /\ (open_cell lg isg (i, j) = true -> F32.ltb (height lg i j) m0.1.1 = true ->
              m1 = (height lg i j, i, j))) as (Hm1 & Hcase & Hupd).
  { split; [|split].
    - destruct (scan_cell_cases lg isg i j m0) as [Heq|(_ & Hlt & Heq)];
        unfold m1; rewrite Heq; [done|]. simpl. by apply ltb_leb.
    - destruct (scan_cell_cases lg isg i j m0) as [Heq|(? & ? & Heq)]; [by left|by right].
    - intros. by apply scan_cell_open. }
  assert (F32.leb m1.1.1 m1.1.1 = true) as Hnum1.
  { destruct Hcase as [-> |(_ & Hlt & ->)]; [done|]. simpl. clear -Hlt. num_order. }
  destruct (IH Hnd m1 Hnum1) as (Hmin & Hle & Hres). clear IH.
  set (m := scan l m1) in *.
  split; [|split].
  - intros Y HY Hopen. apply elem_of_cons in HY as [-> | HY]; [|by apply Hmin].
    simpl. destruct (F32.ltb (height lg i j) m0.1.1) eqn:Hlt.
    + rewrite (Hupd Hopen eq_refl) in Hle. simpl in Hle. by apply leb_not_ltb.
    + destruct Hcase as [Heq|(_ & Hlt' & _)]; [|congruence].
      rewrite Heq in Hle. clear -Hle Hlt. num_order.
  - by apply leb_trans with m1.1.1.
  - destruct Hres as [Hres|(Hcand & Hpos & Hlt & Hbefore)].
    + rewrite Hres. destruct Hcase as [?|(Hopen & Hlt & Heq)]; [by left|right].
      rewrite Heq. simpl. split; [by split|]. split; [left|]. split; [done|].
      intros l1 l2 Hsplit Y HY. destruct l1 as [|p l1]; [by apply elem_of_nil in HY|].
      injection Hsplit as <- ->. exfalso. apply Hnotin.
      apply elem_of_app. right. left.
    + right. split; [done|]. split; [by right|].
      split; [by apply ltb_leb_trans with m1.1.1|].
      intros l1 l2 Hsplit Y HY Hopen HltY.
      destruct l1 as [|p l1].
      { by apply elem_of_nil in HY. }
      injection Hsplit as <- Hsplit.
      apply elem_of_cons in HY as [-> | HY].
      * simpl in *. rewrite (Hupd Hopen HltY) in Hlt. done.
      * destruct (F32.ltb (height lg Y.1 Y.2) m1.1.1) eqn:HltY1.
        { by apply (Hbefore l1 l2). }
        destruct Hcase as [Heq|(_ & _ & Heq)]; [congruence|].
        rewrite Heq in Hlt, HltY1. simpl in *. clear -Hlt HltY1 HltY. num_order.
Qed.
End ScanMin.

(** ** The invariant of find_ground *)

Section FindGroundFacts.
Variable lg : list (list spec_float).
Variable t : spec_float.
Hypothesis Hwf : wf_grid lg.

Local Abbreviation r := (num_rows lg).
Local Abbreviation c := (num_cols lg).

Lemma rect_lg : rect r c lg.
Proof. apply Hwf. Qed.

Lemma origin_in_grid : in_grid r c (0, 0).
Proof. destruct Hwf as (Hr & Hc & _). unfold in_grid. simpl. lia. Qed.

Lemma find_lowest_scan isg :
  find_lowest lg isg
  = foldl (fun m p => scan_cell lg isg p.1 p.2 m) (BIGINT_f, 0, 0) (positions r c).
Proof. unfold find_lowest. by rewrite (for_each_cell_positions r c) by apply rect_lg. Qed.

Lemma positions_in_grid : Forall (in_grid r c) (positions r c).
Proof. apply Forall_forall. intros p. apply elem_of_positions. Qed.

Lemma find_lowest_cases isg :
  find_lowest lg isg = (BIGINT_f, 0, 0) \/ candidate lg isg (find_lowest lg isg).
Proof. rewrite find_lowest_scan. apply scan_initial_or_candidate, positions_in_grid. Qed.

Lemma find_lowest_finds isg p :
  in_grid r c p -> open_cell lg isg p = true ->
  F32.ltb (height lg p.1 p.2) BIGINT_f = true ->
  candidate lg isg (find_lowest lg isg).
Proof.
  intros Hp Hopen Hlt. rewrite find_lowest_scan.
  apply scan_finds with p; [apply positions_in_grid|by apply elem_of_positions|done..].
Qed.

Lemma find_lowest_nothing_open isg :
  (forall p, in_grid r c p -> open_cell lg isg p = false) ->
  find_lowest lg isg = (BIGINT_f, 0, 0).
Proof.
  intros Hno. rewrite find_lowest_scan. apply scan_nothing_open.
  intros p Hp. by apply Hno, elem_of_positions.
Qed.

Lemma count_data_eq :
  count_data lg
  = Z.of_nat (count_if (fun p => negb (F32.eqb (height lg p.1 p.2) NODATA_f))
                       (positions r c)).
Proof.
  unfold count_data. rewrite (for_each_cell_positions r c) by apply rect_lg.
  rewrite (foldl_count_down (fun p => F32.eqb (height lg p.1 p.2) NODATA_f)).
  pose proof (count_if_negb (fun p => F32.eqb (height lg p.1 p.2) NODATA_f)
                (positions r c)) as Hsum.
  rewrite length_positions in Hsum. lia.
Qed.

Lemma count_data_le_cells : count_data lg <= Z.of_nat (cells lg).
Proof.
  rewrite count_data_eq. unfold cells. rewrite <- (length_positions r c).
  apply inj_le, count_if_le_length.
Qed.

Lemma label_make_grid i j : label (make_grid r c (-1)) i j = -1.
Proof.
  destruct (decide (in_grid r c (i, j))) as [Hin|Hout].
  - by apply cell_make_grid.
  - apply (cell_outside r c); [apply rect_make_grid|done].
Qed.

Lemma inv_init : inv lg (init_state lg).
Proof.
  split; simpl.
  - apply rect_make_grid.
  - constructor.
  - intros i j. left. apply label_make_grid.
  - lia.
  - rewrite count_data_eq. apply inj_le. apply Nat.eq_le_incl, count_if_ext.
    intros p _. unfold open_cell. rewrite label_make_grid. simpl. by rewrite andb_true_r.
  - intros p. rewrite label_make_grid. split; [by intros ?%elem_of_nil|done].
  - lia.
Qed.

Lemma label_set_eq isg i j l :
  rect r c isg -> in_grid r c (i, j) -> label (set_cell isg i j l) i j = l.
Proof. apply cell_set_cell_eq. Qed.

Lemma label_set_ne isg i j i' j' l :
  (i, j) <> (i', j') -> label (set_cell isg i j l) i' j' = label isg i' j'.
Proof. apply cell_set_cell_ne. Qed.

Lemma inv_push_label st i j h l :
  inv lg st -> in_grid r c (i, j) -> l = 0 \/ l = 1 ->
  h = height lg i j \/ (i = 0 /\ j = 0 /\ h = BIGINT_f) ->
  inv lg (push_label st i j h l).
Proof.
  intros [Hrect Hq Hlab Hcnt Hopen Hwr Hseed] Hin Hl Hh.
  assert (forall i' j', label (set_cell (is_ground st) i j l) i' j'
            = if decide ((i, j) = (i', j')) then l else label (is_ground st) i' j')
    as Hlabel.
  { intros i' j'. destruct (decide _) as [[= <- <-]|Hne].
    - by apply label_set_eq. - by apply label_set_ne. }
  split; simpl.
  - by apply rect_set_cell.
  - apply Forall_app. split.
    + eapply Forall_impl; [exact Hq|]. intros p (Hp & Hpl & Hpz).
      split; [done|]. split; [|done]. rewrite Hlabel. by destruct (decide _).
    + constructor; [|constructor]. split; [done|]. simpl. split; [|done].
      rewrite Hlabel. by rewrite decide_True.
  - intros i' j'. rewrite Hlabel. destruct (decide _); [lia|apply Hlab].
  - rewrite Hcnt. lia.
  - pose proof (count_if_change_one (open_cell lg (is_ground st))
        (open_cell lg (set_cell (is_ground st) i j l)) (positions r c) (i, j)
        (NoDup_positions r c)) as Hchange.
    assert (count_if (open_cell lg (is_ground st)) (positions r c)
            <= count_if (open_cell lg (set_cell (is_ground st) i j l)) (positions r c) + 1)%nat.
    { apply Hchange. intros [i' j'] Hne. unfold open_cell. simpl.
      by rewrite label_set_ne. }
    lia.
  - intros [i' j']. simpl. rewrite Hlabel, elem_of_cons, Hwr. simpl.
    destruct (decide _) as [Heq|Hne].
    + split; [lia|]. intros _. by left.
    + split; [intros [?|?]; congruence|by right].
  - lia.
Qed.

Lemma inv_seed st : inv lg st -> inv lg (seed lg st).
Proof.
  intros Hinv. unfold seed.
  destruct (find_lowest lg (is_ground st)) as [[h i] j] eqn:Hlow.
  assert (inv lg (push_label st i j h 1)) as [? ? ? ? ? ? ?].
  { destruct (find_lowest_cases (is_ground st)) as [Hnone|(Hin & _ & Hh)];
      rewrite Hlow in *; simpl in *.
    - injection Hnone as -> -> ->.
      apply inv_push_label; [done|apply origin_in_grid|by right|by right].
    - apply inv_push_label; [done|done|by right|by left]. }
  split; simpl in *; try done. pose proof (inv_seedings _ _ Hinv). lia.
Qed.

(** What a visit does: nothing, or a push of the neighbour with the label
    of the current cell (gentle slope) or with Building (steep slope). *)
Lemma visit_cases current ct st di dj :
  let new_i := pt_x current + di in
  let new_j := pt_y current + dj in
  let slope := F32.sub (height lg new_i new_j) (pt_z current) in
  (visit lg t current ct st (di, dj) = st
   /\ (compass di dj = false \/ in_bounds lg new_i new_j = false
       \/ label (is_ground st) new_i new_j <> -1
       \/ F32.eqb (height lg new_i new_j) NODATA_f = true
       \/ (gentle t slope = false /\ steep t slope = false)))
  \/ (compass di dj = true /\ in_grid r c (new_i, new_j)
      /\ label (is_ground st) new_i new_j = -1
      /\ F32.eqb (height lg new_i new_j) NODATA_f = false
      /\ ((gentle t slope = true
           /\ visit lg t current ct st (di, dj)
              = push_label st new_i new_j (height lg new_i new_j) (Z.b2z ct))
          \/ (gentle t slope = false /\ steep t slope = true
              /\ visit lg t current ct st (di, dj)
                 = push_label st new_i new_j (height lg new_i new_j) 0))).
Proof.
  intros new_i new_j slope. unfold visit. fold new_i new_j. fold slope.
  destruct (compass di dj) eqn:Hcompass; [|left; auto].
  destruct (in_bounds lg new_i new_j) eqn:Hbounds; [|left; auto].
  destruct (label (is_ground st) new_i new_j =? -1) eqn:Hlabel; simpl;
    [|left; split; [done|]; right; right; left; lia].
  destruct (F32.eqb (height lg new_i new_j) NODATA_f) eqn:Hnodata;
    [left; auto 6|].
  assert (in_grid r c (new_i, new_j)) as Hin.
  { unfold in_bounds in Hbounds. unfold in_grid. simpl. lia. }
  assert (label (is_ground st) new_i new_j = -1) as Hl by lia.
  destruct (gentle t slope) eqn:Hgentle; [right; auto 10|].
  destruct (steep t slope) eqn:Hsteep; [right; auto 10|left].
  split; [by destruct (F32.ltb slope _)|auto 10].
Qed.

Lemma inv_visit current ct st d :
  inv lg st -> inv lg (visit lg t current ct st d).
Proof.
  intros Hinv. destruct d as [di dj].
  destruct (visit_cases current ct st di dj)
    as [[-> _]|(_ & Hin & _ & _ & [[_ ->]|(_ & _ & ->)])]; [done|..].
  - apply inv_push_label; [done|done|destruct ct; simpl; lia|by left].
  - apply inv_push_label; [done|done|by left|by left].
Qed.

Lemma inv_expand current st : inv lg st -> inv lg (expand lg t current st).
Proof.
  intros Hinv. unfold expand.
  generalize (negb (label (is_ground st) (pt_x current) (pt_y current) =? 0)).
  intros ct. revert st Hinv. induction directions as [|d ds IH]; intros st Hinv; [done|].
  simpl. by apply IH, inv_visit.
Qed.

Lemma inv_pop st current st' :
  inv lg st -> pop st = Some (current, st') ->
  inv lg st' /\ entry_ok lg (is_ground st) current
  /\ is_ground st' = is_ground st /\ q st = current :: q st'.
Proof.
  intros [Hrect Hq Hlab Hcnt Hopen Hwr Hseed]. unfold pop.
  destruct (q st) as [|p rest] eqn:Hqst; [done|]. intros [= <- <-].
  apply Forall_cons in Hq as [Hp Hrest].
  split; [by split|]. done.
Qed.

Lemma measure_push_label st i j h l :
  inv lg st -> in_grid r c (i, j) -> label (is_ground st) i j = -1 -> l <> -1 ->
  measure lg (push_label st i j h l) = measure lg st.
Proof.
  intros Hinv Hin Hlab Hl. unfold measure. simpl. rewrite length_app. simpl.
  pose proof (count_if_switch_off (unlabelled (is_ground st))
      (unlabelled (set_cell (is_ground st) i j l)) (positions r c) (i, j)
      (NoDup_positions r c)) as Hoff.
  rewrite <- Hoff; [lia|by apply elem_of_positions|..].
  - unfold unlabelled. simpl. lia.
  - unfold unlabelled. simpl. rewrite label_set_eq; [lia|apply Hinv|done].
  - intros [i' j'] Hne. unfold unlabelled. simpl. by rewrite label_set_ne.
Qed.

Lemma measure_visit current ct st d :
  inv lg st -> measure lg (visit lg t current ct st d) = measure lg st.
Proof.
  intros Hinv. destruct d as [di dj].
  destruct (visit_cases current ct st di dj)
    as [[-> _]|(_ & Hin & Hlab & _ & [[_ ->]|(_ & _ & ->)])]; [done|..].
  - apply measure_push_label; [done..|]. destruct ct; simpl; lia.
  - apply measure_push_label; [done..|]. lia.
Qed.

Lemma seedings_visit current ct st d :
  seedings (visit lg t current ct st d) = seedings st.
Proof.
  destruct d as [di dj].
  by destruct (visit_cases current ct st di dj)
    as [[-> _]|(_ & _ & _ & _ & [[_ ->]|(_ & _ & ->)])].
Qed.

Lemma count_visit current ct st d :
  unclassified_count (visit lg t current ct st d) <= unclassified_count st.
Proof.
  destruct d as [di dj].
  destruct (visit_cases current ct st di dj)
    as [[-> _]|(_ & _ & _ & _ & [[_ ->]|(_ & _ & ->)])]; simpl; lia.
Qed.

(** A property kept by every visit is kept by an expansion. *)
Lemma expand_ind (P : fg_state -> Prop) current st :
  (forall st' d, d ∈ directions -> inv lg st' -> P st' ->
     P (visit lg t current
          (negb (label (is_ground st) (pt_x current) (pt_y current) =? 0)) st' d)) ->
  inv lg st -> P st -> P (expand lg t current st).
Proof.
  unfold expand.
  generalize (negb (label (is_ground st) (pt_x current) (pt_y current) =? 0)).
  intros ct Hvisit. revert st.
  induction directions as [|d ds IH]; intros st Hinv HP; [done|].
  simpl. apply IH.
  - intros st' d' Hd'. apply Hvisit. by right.
  - by apply inv_visit.
  - apply Hvisit; [left|done..].
Qed.

Lemma measure_expand current st :
  inv lg st -> measure lg (expand lg t current st) = measure lg st.
Proof.
  intros Hinv.
  apply (expand_ind (fun st' => measure lg st' = measure lg st)); [|done..].
  intros st' d _ Hinv' <-. by apply measure_visit.
Qed.

Lemma seedings_expand current st :
  inv lg st -> seedings (expand lg t current st) = seedings st.
Proof.
  intros Hinv.
  apply (expand_ind (fun st' => seedings st' = seedings st)); [|done..].
  intros st' d _ _ <-. apply seedings_visit.
Qed.

Lemma count_expand current st :
  inv lg st -> unclassified_count (expand lg t current st) <= unclassified_count st.
Proof.
  intros Hinv.
  apply (expand_ind (fun st' => unclassified_count st' <= unclassified_count st));
    [|done|lia].
  intros st' d _ _ Hle.
  pose proof (count_visit current
    (negb (label (is_ground st) (pt_x current) (pt_y current) =? 0)) st' d). lia.
Qed.

Lemma pop_fields st current st' :
  pop st = Some (current, st') ->
  q st = current :: q st' /\ is_ground st' = is_ground st
  /\ unclassified_count st' = unclassified_count st
  /\ writes st' = writes st /\ seedings st' = seedings st.
Proof.
  unfold pop. destruct (q st) as [|p rest]; [done|]. by intros [= <- <-].
Qed.

Lemma pop_none st : pop st = None -> q st = [].
Proof. unfold pop. by destruct (q st). Qed.

(** The inner loop ends within [measure] iterations, and keeps every
    property that an expansion keeps. *)
Lemma bfs_run (P : fg_state -> Prop) :
  (forall st current st',
     inv lg st -> P st -> pop st = Some (current, st') ->
     P (expand lg t current st')) ->
  forall fuel st,
    inv lg st -> P st -> (measure lg st <= fuel)%nat ->
    exists st', bfs lg t fuel st = Some st' /\ inv lg st' /\ P st' /\ q st' = [].
Proof.
  intros Hstep. induction fuel as [|fuel IH]; intros st Hinv HP Hfuel.
  - simpl. destruct (pop st) as [[current st']|] eqn:Hpop.
    + apply pop_fields in Hpop as (Hq & _). unfold measure in Hfuel.
      rewrite Hq in Hfuel. simpl in Hfuel. lia.
    + exists st. by apply pop_none in Hpop.
  - simpl. destruct (pop st) as [[current st']|] eqn:Hpop.
    + destruct (inv_pop _ _ _ Hinv Hpop) as (Hinv' & _).
      apply IH; [by apply inv_expand|by apply (Hstep st current st')|].
      rewrite measure_expand by done.
      apply pop_fields in Hpop as (Hq & Hisg & _). unfold measure in *.
      rewrite Hq, <- Hisg in Hfuel. simpl in Hfuel. lia.
    + exists st. by apply pop_none in Hpop.
Qed.

Lemma measure_seed st :
  q st = [] -> (measure lg (seed lg st) <= S (cells lg))%nat.
Proof.
  intros Hq. unfold seed, measure, cells.
  destruct (find_lowest lg (is_ground st)) as [[h i] j]. simpl.
  rewrite Hq. simpl. rewrite <- (length_positions r c).
  pose proof (count_if_le_length (unlabelled (set_cell (is_ground st) i j 1))
                (positions r c)). lia.
Qed.

Lemma seed_fields st :
  seedings (seed lg st) = S (seedings st)
  /\ unclassified_count (seed lg st) = unclassified_count st - 1.
Proof. unfold seed. by destruct (find_lowest lg (is_ground st)) as [[h i] j]. Qed.

Lemma cells_pos : (0 < cells lg)%nat.
Proof. destruct Hwf as (Hr & Hc & _). unfold cells. lia. Qed.

(** The outer loop ends within its fuel, and its final state satisfies
    every property that holds initially and is kept by seeding and by
    expansion. *)
Lemma classify_run (P : fg_state -> Prop) :
  P (init_state lg) ->
  (forall st, inv lg st -> P st -> q st = [] ->
     seedings st = 0%nat \/ 0 < unclassified_count st -> P (seed lg st)) ->
  (forall st current st',
     inv lg st -> P st -> pop st = Some (current, st') ->
     P (expand lg t current st')) ->
  exists st, run lg t = Some st /\ inv lg st /\ P st /\ q st = []
    /\ unclassified_count st <= 0 /\ (0 < seedings st <= cells lg)%nat.
Proof.
  intros Hinit Hseed Hexpand. unfold run.
  assert (forall fuel st,
    inv lg st -> P st -> q st = [] ->
    seedings st = 0%nat \/ 0 < unclassified_count st ->
    (0 < fuel)%nat -> unclassified_count st <= Z.of_nat fuel ->
    exists st', classify lg t (S (cells lg)) fuel st = Some st' /\ inv lg st' /\ P st'
      /\ q st' = [] /\ unclassified_count st' <= 0
      /\ (0 < seedings st' <= cells lg)%nat) as Hloop.
  { induction fuel as [|fuel IH]; intros st Hinv HP Hq Hfirst Hpos Hfuel; [lia|].
    cbn [classify].
    destruct (bfs_run (fun st' => P st' /\ seedings st' = S (seedings st)
                        /\ unclassified_count st' <= unclassified_count st - 1))
      with (fuel := S (cells lg)) (st := seed lg st)
      as (st' & -> & Hinv' & (HP' & Hseedings & Hcount) & Hq').
    - intros st1 current st1' Hinv1 (HP1 & Hs1 & Hc1) Hpop.
      destruct (inv_pop _ _ _ Hinv1 Hpop) as (Hinv1' & _).
      pose proof (pop_fields _ _ _ Hpop) as (_ & _ & Hc & _ & Hs).
      split; [by apply (Hexpand st1 current st1')|].
      rewrite seedings_expand by done.
      pose proof (count_expand current st1' Hinv1'). lia.
    - by apply inv_seed.
    - destruct (seed_fields st) as [-> ->]. split; [by apply Hseed|]. lia.
    - by apply measure_seed.
    - destruct (0 <? unclassified_count st') eqn:Hmore.
      + apply IH.
        * exact Hinv'.
        * exact HP'.
        * exact Hq'.
        * right. lia.
        * lia.
        * lia.
      + exists st'. split_and!; [done|done|done|done|lia|lia|].
        pose proof (inv_count _ _ Hinv) as Hc.
        pose proof (inv_seedings _ _ Hinv) as Hs.
        pose proof count_data_le_cells. pose proof cells_pos.
        destruct Hfirst as [Hfirst|Hfirst]; lia. }
  apply Hloop; [apply inv_init|done|done|by left|lia|].
  pose proof count_data_le_cells. simpl. lia.
Qed.

(** [find_ground] returns a classification of the dimensions of the grid. *)
Lemma find_ground_total :
  exists isg, find_ground lg t = Some isg /\ rect r c isg.
Proof.
  destruct (classify_run (fun _ => True)) as (st & Hrun & Hinv & _); [done..|].
  exists (is_ground st). unfold find_ground. rewrite Hrun. split; [done|apply Hinv].
Qed.

(** The run visits reachable states only. *)
Lemma run_reachable st : run lg t = Some st -> reachable lg t st.
Proof.
  intros Hrun.
  destruct (classify_run (reachable lg t)) as (st' & Hrun' & _ & Hreach & _).
  - constructor.
  - intros st0 _ Hr Hq Hfirst. by constructor.
  - intros st0 current st0' _ Hr Hpop. by apply (reach_expand lg t st0).
  - congruence.
Qed.

Lemma reachable_inv st : reachable lg t st -> inv lg st.
Proof.
  induction 1 as [|st _ IH _ _|st current st' _ IH Hpop].
  - apply inv_init.
  - by apply inv_seed.
  - apply inv_expand. by destruct (inv_pop _ _ _ IH Hpop).
Qed.

Lemma count_if_none {A} (f : A -> bool) (l : list A) :
  (forall x, x ∈ l -> f x = false) -> count_if f l = 0%nat.
Proof.
  induction l as [|x l IH]; intros Hno; simpl; [done|].
  rewrite Hno by left. rewrite IH; [done|]. intros y Hy. apply Hno. by right.
Qed.

(** The run on a grid without data: the scan selects nothing, the cell
    (0, 0) is seeded by default, no neighbour is pushed and the loop
    ends after this first pass. *)
Lemma run_all_nodata :
  (forall p, in_grid r c p -> F32.eqb (height lg p.1 p.2) NODATA_f = true) ->
  exists st, run lg t = Some st
    /\ seedings st = 1%nat
    /\ is_ground st = set_cell (make_grid r c (-1)) 0 0 1
    /\ writes st = [(0, 0)].
Proof.
  intros Hnodata.
  assert (forall isg p, in_grid r c p -> open_cell lg isg p = false) as Hclosed.
  { intros isg p Hp. unfold open_cell. by rewrite Hnodata. }
  assert (count_data lg = 0) as Hcount.
  { rewrite count_data_eq, count_if_none; [done|].
    intros p Hp%elem_of_positions. by rewrite Hnodata. }
  set (seeded st := is_ground st = set_cell (make_grid r c (-1)) 0 0 1
                    /\ seedings st = 1%nat /\ unclassified_count st = -1
                    /\ writes st = [(0, 0)]).
  destruct (classify_run (fun st => st = init_state lg \/ seeded st))
    as (st & Hrun & _ & [->|(Hisg & Hseed & _ & Hwrites)] & _ & _ & Hpos & _).
  - by left.
  - intros st _ [->|(_ & Hs & Hc & _)] _ Hfirst; [|lia].
    right. unfold seed. rewrite find_lowest_nothing_open by auto.
    unfold seeded. simpl. rewrite Hcount. done.
  - intros st current st' Hinv [->|Hseeded] Hpop; [done|]. right.
    destruct (inv_pop _ _ _ Hinv Hpop) as (Hinv' & _).
    apply pop_fields in Hpop as (_ & Hisg & Hcnt & Hwr & Hsd).
    assert (seeded st') as Hseeded'.
    { unfold seeded in *. rewrite Hisg, Hsd, Hcnt, Hwr. done. }
    apply (expand_ind seeded); [|done..].
    intros st1 [di dj] _ _ Hst1.
    destruct (visit_cases current
      (negb (label (is_ground st') (pt_x current) (pt_y current) =? 0)) st1 di dj)
      as [[-> _]|(_ & Hin & _ & Hdata & _)]; [done|].
    pose proof (Hnodata _ Hin) as Hnd. simpl in Hnd. congruence.
  - simpl in Hpos. lia.
  - exists st. done.
Qed.

(** C10: on a grid whose cells are all NODATA, [find_ground] makes
    exactly one seeding pass, and this pass labels the cell (0, 0), chosen
    by default, Ground (1). *)
Theorem C10_all_nodata_one_pass_seeds_origin :
  (forall p, in_grid r c p -> F32.eqb (height lg p.1 p.2) NODATA_f = true) ->
  exists st, run lg t = Some st
    /\ seedings st = 1%nat
    /\ label (is_ground st) 0 0 = 1
    /\ forall p, p <> (0, 0) -> label (is_ground st) p.1 p.2 = -1.
Proof.
  intros Hnodata.
  destruct (run_all_nodata Hnodata) as (st & Hrun & Hseed & Hisg & _).
  exists st. split_and!; [done|done|..].
  - rewrite Hisg. apply label_set_eq; [apply rect_make_grid|apply origin_in_grid].
  - intros [i j] Hne. rewrite Hisg. simpl.
    rewrite label_set_ne by done. apply label_make_grid.
Qed.

(** While [unclassified_count] is positive some unclassified cell holds
    data. *)
Lemma count_pos_open st :
  inv lg st -> 0 < unclassified_count st ->
  exists p, in_grid r c p /\ open_cell lg (is_ground st) p = true.
Proof.
  intros Hinv Hpos. pose proof (inv_open _ _ Hinv) as Hopen.
  destruct (count_if_pos (open_cell lg (is_ground st)) (positions r c)) as (p & Hp & Hop);
    [lia|].
  exists p. by apply elem_of_positions in Hp.
Qed.

Lemma open_cell_label isg p : open_cell lg isg p = true -> label isg p.1 p.2 = -1.
Proof. unfold open_cell. lia. Qed.

(** With data below [BIGINT], a seeding that is not the first finds a cell
    to label. *)
Lemma seed_candidate st :
  below_BIGINT lg -> inv lg st -> 0 < unclassified_count st ->
  candidate lg (is_ground st) (find_lowest lg (is_ground st)).
Proof.
  intros Hbelow Hinv Hpos.
  destruct (count_pos_open st Hinv Hpos) as (p & Hp & Hopen).
  apply find_lowest_finds with p; [done..|].
  apply Hbelow; [done|]. unfold open_cell in Hopen.
  destruct (F32.eqb _ _); [done|done].
Qed.

Lemma writes_visit_NoDup current ct st d :
  inv lg st -> NoDup (writes st) -> NoDup (writes (visit lg t current ct st d)).
Proof.
  intros Hinv Hnd. destruct d as [di dj].
  destruct (visit_cases current ct st di dj)
    as [[-> _]|(_ & Hin & Hlab & _ & [[_ ->]|(_ & _ & ->)])]; [done|..];
    simpl; apply NoDup_cons; (split; [|done]);
    rewrite (inv_writes _ _ Hinv); simpl; lia.
Qed.

(** X20: [find_ground] terminates on every DepthGrid, after at most as
    many iterations of the outer loop as the grid has cells; and when every
    height that is not NODATA is below [BIGINT] (2^28), no cell is assigned
    a label twice. *)
Theorem find_ground_terminates_and_labels_once :
  exists st, run lg t = Some st
    /\ (seedings st <= cells lg)%nat
    /\ (below_BIGINT lg -> NoDup (writes st)).
Proof.
  destruct (classify_run (fun st =>
      (seedings st = 0%nat -> st = init_state lg)
      /\ (below_BIGINT lg -> NoDup (writes st))))
    as (st & Hrun & _ & (_ & Hnd) & _ & _ & _ & Hseed).
  - split; [done|]. intros _. constructor.
  - intros st Hinv (Hfirst & Hnd) _ Hcase.
    split; [destruct (seed_fields st) as [-> _]; done|].
    intros Hbelow. specialize (Hnd Hbelow).
    destruct Hcase as [Hzero|Hpos].
    + rewrite (Hfirst Hzero). unfold seed.
      destruct (find_lowest lg _) as [[h i] j]. simpl.
      apply NoDup_singleton.
    + pose proof (seed_candidate st Hbelow Hinv Hpos) as (_ & Hopen & _).
      apply open_cell_label in Hopen. unfold seed.
      destruct (find_lowest lg _) as [[h i] j]. simpl in *.
      apply NoDup_cons. split; [|done].
      rewrite (inv_writes _ _ Hinv). simpl. lia.
  - intros st current st' Hinv (Hfirst & Hnd) Hpop.
    destruct (inv_pop _ _ _ Hinv Hpop) as (Hinv' & _).
    pose proof (pop_fields _ _ _ Hpop) as (Hq & _ & _ & Hwr & Hsd).
    split.
    + rewrite seedings_expand, Hsd by done. intros Hzero.
      rewrite (Hfirst Hzero) in Hq. done.
    + intros Hbelow.
      apply (expand_ind (fun s => NoDup (writes s))); [|done|].
      * intros s d _ Hs. by apply writes_visit_NoDup.
      * rewrite Hwr. by apply Hnd.
  - exists st. done.
Qed.

Lemma label_set_cell isg i j i' j' l :
  rect r c isg -> in_grid r c (i, j) ->
  label (set_cell isg i j l) i' j'
  = if decide ((i, j) = (i', j')) then l else label isg i' j'.
Proof.
  intros Hrect Hin. destruct (decide _) as [[= <- <-]|Hne].
  - by apply label_set_eq.
  - by apply label_set_ne.
Qed.

Lemma count_data_open_init :
  count_data lg
  = Z.of_nat (count_if (open_cell lg (make_grid r c (-1))) (positions r c)).
Proof.
  rewrite count_data_eq. f_equal. symmetry. apply count_if_ext.
  intros p _. unfold open_cell. rewrite label_make_grid. simpl. by rewrite andb_true_r.
Qed.

(** Labelling an unclassified cell that holds data lowers the number of
    such cells by one. *)
Lemma open_push isg i j l :
  rect r c isg -> in_grid r c (i, j) -> open_cell lg isg (i, j) = true -> l <> -1 ->
  (count_if (open_cell lg (set_cell isg i j l)) (positions r c) + 1
   = count_if (open_cell lg isg) (positions r c))%nat.
Proof.
  intros Hrect Hin Hopen Hl.
  apply count_if_switch_off with (i, j);
    [apply NoDup_positions|by apply elem_of_positions|done|..].
  - unfold open_cell. simpl. rewrite label_set_eq by done.
    apply andb_false_iff. right. lia.
  - intros [i' j'] Hne. unfold open_cell. simpl. by rewrite label_set_ne.
Qed.

Section Flat.
Variable h : spec_float.
Hypothesis Hflat : forall p, in_grid r c p -> height lg p.1 p.2 = h.
Hypothesis Hdata : F32.eqb h NODATA_f = false.
Hypothesis Hlow : F32.ltb h BIGINT_f = true.
Hypothesis Ht : F32.ltb t (S754_zero false) = false.

Lemma flat_below_BIGINT : below_BIGINT lg.
Proof. intros p Hp _. by rewrite Hflat. Qed.

Lemma flat_not_steep : steep t (F32.sub h h) = false.
Proof.
  unfold steep. destruct (sub_self h) as [-> | ->].
  - exact Ht.
  - apply ltb_nan_r.
Qed.

Lemma flat_open isg p :
  in_grid r c p -> open_cell lg isg p = (label isg p.1 p.2 =? -1).
Proof. intros Hp. unfold open_cell. by rewrite Hflat, Hdata. Qed.

(** What holds of every state of the run on a flat grid. *)
Let flat_inv (st : fg_state) : Prop :=
  (forall i j, label (is_ground st) i j <> 0)
  /\ Forall (fun p => pt_z p = h) (q st)
  /\ unclassified_count st
     = Z.of_nat (count_if (open_cell lg (is_ground st)) (positions r c)).

Lemma flat_inv_push st i j :
  inv lg st -> flat_inv st -> in_grid r c (i, j) ->
  label (is_ground st) i j = -1 ->
  flat_inv (push_label st i j (height lg i j) 1).
Proof.
  intros Hinv (Hlab & Hq & Hcnt) Hin Hl.
  pose proof (inv_rect _ _ Hinv) as Hrect.
  split_and!; simpl.
  - intros i' j'. rewrite label_set_cell by done. destruct (decide _); [lia|apply Hlab].
  - apply Forall_app. split; [done|]. constructor; [|constructor]. simpl.
    by apply (Hflat (i, j)).
  - rewrite Hcnt.
    rewrite <- (open_push (is_ground st) i j 1); [lia|done|done| |lia].
    rewrite flat_open by done. simpl. lia.
Qed.

Lemma flat_inv_visit current st0 st d :
  label (is_ground st0) (pt_x current) (pt_y current) <> 0 ->
  pt_z current = h ->
  inv lg st -> flat_inv st ->
  flat_inv (visit lg t current
              (negb (label (is_ground st0) (pt_x current) (pt_y current) =? 0)) st d).
Proof.
  intros Hcur Hz Hinv Hst. destruct d as [di dj].
  assert (negb (label (is_ground st0) (pt_x current) (pt_y current) =? 0) = true)
    as -> by lia.
  destruct (visit_cases current true st di dj)
    as [[-> _]|(_ & Hin & Hlab & _ & [[_ ->]|(_ & Hsteep & _)])]; [done|..].
  - by apply flat_inv_push.
  - pose proof (Hflat _ Hin) as Hnew. simpl in Hnew.
    rewrite Hnew, Hz, flat_not_steep in Hsteep. done.
Qed.

Lemma flat_run :
  exists st, run lg t = Some st /\ is_ground st = make_grid r c 1.
Proof.
  destruct (classify_run (fun st =>
      (seedings st = 0%nat -> st = init_state lg) /\ flat_inv st))
    as (st & Hrun & Hinv & (_ & Hlab & _ & Hcnt) & _ & Hdone & _).
  - split; [done|]. split_and!; simpl.
    + intros i j. rewrite label_make_grid. lia.
    + constructor.
    + apply count_data_open_init.
  - intros st Hinv (Hfirst & Hst) _ Hcase.
    split; [destruct (seed_fields st) as [-> _]; done|].
    assert (candidate lg (is_ground st) (find_lowest lg (is_ground st)))
      as (Hin & Hopen & Hh).
    { destruct Hcase as [Hzero|Hpos].
      - apply find_lowest_finds with (0, 0); [apply origin_in_grid| |].
        + rewrite flat_open by apply origin_in_grid.
          rewrite (Hfirst Hzero). simpl. by rewrite label_make_grid.
        + by rewrite (Hflat _ origin_in_grid).
      - by apply seed_candidate; [apply flat_below_BIGINT|..]. }
    unfold seed. destruct (find_lowest lg _) as [[h' i] j]. simpl in *. subst h'.
    apply open_cell_label in Hopen.
    by destruct (flat_inv_push st i j Hinv Hst Hin Hopen) as (? & ? & ?).
  - intros st current st' Hinv (Hfirst & Hst) Hpop.
    destruct (inv_pop _ _ _ Hinv Hpop) as (Hinv' & _).
    pose proof (pop_fields _ _ _ Hpop) as (Hq & Hisg & Hc & _ & Hsd).
    destruct Hst as (Hlab & Hqh & Hcnt). rewrite Hq in Hqh.
    apply Forall_cons in Hqh as [Hz Hqh].
    split.
    + rewrite seedings_expand, Hsd by done. intros Hzero.
      rewrite (Hfirst Hzero) in Hq. done.
    + apply (expand_ind flat_inv); [|done|].
      * intros s d _ Hs Hfs. apply flat_inv_visit; [|done..]. rewrite Hisg. apply Hlab.
      * split_and!; [by rewrite Hisg|done|by rewrite Hisg, Hc].
  - exists st. split; [done|].
    apply (rect_ext r c _ _ (-1)); [apply Hinv|apply rect_make_grid|].
    intros i j Hin. rewrite (cell_make_grid r c) by done.
    assert (open_cell lg (is_ground st) (i, j) = false) as Hclosed.
    { apply count_if_zero with (positions r c); [lia|by apply elem_of_positions]. }
    rewrite flat_open in Hclosed by done. simpl in Hclosed.
    fold (label (is_ground st) i j).
    destruct (inv_labels _ _ Hinv i j) as [?|[?|?]]; [lia| |done].
    by destruct (Hlab i j).
Qed.
End Flat.

(** C7 (as amended): on a flat DepthGrid, whose cells all hold the same
    height, a height that is not NODATA and is below [BIGINT], and for
    every threshold that is not negative (a threshold [t] for which
    [t < 0] is false: [t >= 0], or a NaN), [find_ground] labels every cell
    Ground. *)
Theorem C7_flat_grid_all_ground (h : spec_float) :
  (forall p, in_grid r c p -> height lg p.1 p.2 = h) ->
  F32.eqb h NODATA_f = false ->
  F32.ltb h BIGINT_f = true ->
  F32.ltb t (S754_zero false) = false ->
  find_ground lg t = Some (make_grid r c 1).
Proof.
  intros Hflat Hdata Hlow Ht.
  destruct (flat_run h Hflat Hdata Hlow Ht) as (st & Hrun & Hisg).
  unfold find_ground. rewrite Hrun. simpl. by rewrite Hisg.
Qed.

(** ** One expansion *)

Lemma NoDup_directions : NoDup directions.
Proof. by apply (bool_decide_unpack _). Qed.

Lemma in_grid_in_bounds i j : in_grid r c (i, j) -> in_bounds lg i j = true.
Proof. unfold in_grid, in_bounds. simpl. lia. Qed.

(** The visits in other directions leave a neighbour as it is: its label
    is kept and no entry for it enters the queue. *)
Lemma visits_frame current ct ni nj ds st :
  Forall (fun d => (pt_x current + d.1, pt_y current + d.2) <> (ni, nj)) ds ->
  inv lg st ->
  inv lg (foldl (visit lg t current ct) st ds)
  /\ label (is_ground (foldl (visit lg t current ct) st ds)) ni nj
     = label (is_ground st) ni nj
  /\ (forall p, p ∈ q st -> p ∈ q (foldl (visit lg t current ct) st ds))
  /\ (forall p, p ∈ q (foldl (visit lg t current ct) st ds) ->
       (pt_x p, pt_y p) = (ni, nj) -> p ∈ q st).
Proof.
  intros Hds. revert st.
  induction Hds as [|[di' dj'] ds Hpos Hds IH]; intros st Hinv; [done|].
  cbn [foldl]. simpl in Hpos.
  destruct (IH (visit lg t current ct st (di', dj')))
    as (Hinv' & Hlab & Hmono & Hnew); [by apply inv_visit|].
  split; [done|]. rewrite Hlab. clear Hlab IH.
  destruct (visit_cases current ct st di' dj')
    as [[Heq _]|(_ & Hin & _ & _ & [[_ Heq]|(_ & _ & Heq)])];
    rewrite Heq in *; [done|..]; simpl in *.
  - split_and!.
    + by apply label_set_ne.
    + intros p Hp. apply Hmono, elem_of_app. by left.
    + intros p Hp Hat. apply Hnew in Hp; [|done].
      apply elem_of_app in Hp as [Hp|Hp%list_elem_of_singleton]; [done|].
      subst p. simpl in Hat. done.
  - split_and!.
    + by apply label_set_ne.
    + intros p Hp. apply Hmono, elem_of_app. by left.
    + intros p Hp Hat. apply Hnew in Hp; [|done].
      apply elem_of_app in Hp as [Hp|Hp%list_elem_of_singleton]; [done|].
      subst p. simpl in Hat. done.
Qed.

Lemma other_directions current di dj ds :
  (di, dj) ∉ ds ->
  Forall (fun d => (pt_x current + d.1, pt_y current + d.2)
                   <> (pt_x current + di, pt_y current + dj)) ds.
Proof.
  intros Hnotin. apply Forall_forall. intros [di' dj'] Hd [= ? ?]. simpl in *.
  apply Hnotin. by replace di with di' by lia; replace dj with dj' by lia.
Qed.

(** C6 (as amended): when a cell that the queue holds with its own
    elevation is popped during the expansion of [find_ground], every
    4-connected neighbour that is in the grid, unclassified and not NODATA
    is treated according to the slope from the elevation of the popped cell
    to the elevation of the neighbour: with [0 <= slope <= threshold] the
    neighbour takes the label of the popped cell and is enqueued; with
    [slope > threshold] it is labelled Building and enqueued, also when the
    slope is negative; with [slope < 0] and not [slope > threshold] it is
    neither labelled nor enqueued. *)
Theorem C6_expansion_of_a_neighbour st current st' di dj :
  reachable lg t st -> pop st = Some (current, st') ->
  pt_z current = height lg (pt_x current) (pt_y current) ->
  (di, dj) ∈ directions -> compass di dj = true ->
  let new_i := pt_x current + di in
  let new_j := pt_y current + dj in
  let new_h := height lg new_i new_j in
  let slope := F32.sub new_h (height lg (pt_x current) (pt_y current)) in
  let st'' := expand lg t current st' in
  in_grid r c (new_i, new_j) ->
  label (is_ground st) new_i new_j = -1 ->
  F32.eqb new_h NODATA_f = false ->
  (F32.leb (S754_zero false) slope = true -> F32.leb slope t = true ->
      label (is_ground st'') new_i new_j
      = label (is_ground st) (pt_x current) (pt_y current)
      /\ mkPoint new_i new_j new_h ∈ q st'')
  /\ (F32.ltb t slope = true ->
      label (is_ground st'') new_i new_j = 0
      /\ mkPoint new_i new_j new_h ∈ q st'')
  /\ (F32.ltb slope (S754_zero false) = true -> F32.ltb t slope = false ->
      label (is_ground st'') new_i new_j = -1
      /\ forall p, p ∈ q st'' -> (pt_x p, pt_y p) <> (new_i, new_j)).
Proof.
  intros Hreach Hpop Hown Hdir Hcompass. cbv zeta. rewrite <- Hown.
  pose proof (reachable_inv st Hreach) as Hinv.
  destruct (inv_pop _ _ _ Hinv Hpop) as (Hinv' & (Hcur & Hcurl & _) & Hisg & Hq).
  unfold expand.
  set (ct := negb (label (is_ground st') (pt_x current) (pt_y current) =? 0)).
  pose proof (fun s => visit_cases current ct s di dj) as Hcases.
  pose proof (fun l => other_directions current di dj l) as Hother.
  cbv zeta in Hcases.
  remember (pt_x current + di) as new_i eqn:Hni.
  remember (pt_y current + dj) as new_j eqn:Hnj.
  remember (height lg new_i new_j) as new_h eqn:Hnh.
  remember (F32.sub new_h (pt_z current)) as slope eqn:Hslope.
  intros Hin Hlab Hdata.
  assert (Z.b2z ct = label (is_ground st) (pt_x current) (pt_y current)) as Hct.
  { unfold ct. rewrite Hisg. destruct Hcurl as [-> | ->]; done. }
  assert (forall p, p ∈ q st' -> (pt_x p, pt_y p) <> (new_i, new_j)) as Hfresh.
  { intros p Hp [= Hx Hy].
    pose proof (inv_queue _ _ Hinv) as Hqok. rewrite Hq in Hqok.
    apply Forall_cons in Hqok as [_ Hqok].
    rewrite Forall_forall in Hqok. destruct (Hqok p Hp) as (_ & Hpl & _).
    rewrite Hx, Hy in Hpl. lia. }
  apply list_elem_of_split in Hdir as (l1 & l2 & Hsplit).
  pose proof NoDup_directions as Hnd. rewrite Hsplit in Hnd.
  apply NoDup_app in Hnd as (_ & Hl1 & Hnd). apply NoDup_cons in Hnd as [Hl2 _].
  assert ((di, dj) ∉ l1) as Hnot1.
  { intros Hd. apply (Hl1 _ Hd). left. }
  rewrite Hsplit, foldl_app. cbn [foldl].
  destruct (visits_frame current ct new_i new_j l1 st' (Hother l1 Hnot1) Hinv')
    as (Hinv1 & Hlab1 & Hmono1 & Hnew1).
  set (st1 := foldl (visit lg t current ct) st' l1) in *.
  assert (inv lg (visit lg t current ct st1 (di, dj))) as Hinv2 by by apply inv_visit.
  destruct (visits_frame current ct new_i new_j l2 _ (Hother l2 Hl2) Hinv2)
    as (_ & Hlab2 & Hmono2 & Hnew2).
  rewrite Hlab2.
  pose proof (in_grid_in_bounds _ _ Hin) as Hbounds.
  destruct (Hcases st1)
    as [(Heq & [?|[?|[Hl|[?|[Hng Hns]]]]])
       |(_ & _ & _ & _ & [[Hg Heq]|(Hng & Hs & Heq)])];
    [congruence|congruence|by rewrite Hlab1, Hisg in Hl|congruence|..];
    rewrite Heq in *.
  - (* neither gentle nor steep *)
    split_and!.
    + intros H0 Ht. unfold gentle in Hng. by rewrite H0, Ht in Hng.
    + intros Hs. unfold steep in Hns. congruence.
    + intros _ _. split; [by rewrite Hlab1, Hisg|].
      intros p Hp Hat. apply (Hfresh p); [|done].
      apply Hnew1; [|done]. by apply Hnew2.
  - (* gentle *)
    assert (label (is_ground (push_label st1 new_i new_j new_h (Z.b2z ct))) new_i new_j
            = Z.b2z ct) as Hl.
    { simpl. apply label_set_eq; [apply Hinv1|done]. }
    assert (mkPoint new_i new_j new_h
            ∈ q (foldl (visit lg t current ct)
                   (push_label st1 new_i new_j new_h (Z.b2z ct)) l2)) as Hqueued.
    { apply Hmono2. simpl. apply elem_of_app. right. by apply list_elem_of_singleton. }
    unfold gentle in Hg. apply andb_true_iff in Hg as [Hle H0].
    split_and!.
    + intros _ _. split; [by rewrite Hl, Hct|done].
    + intros Hs. by rewrite (leb_not_ltb _ _ Hle) in Hs.
    + intros Hneg. by rewrite (ltb_not_leb _ _ Hneg) in H0.
  - (* steep *)
    assert (label (is_ground (push_label st1 new_i new_j new_h 0)) new_i new_j = 0) as Hl.
    { simpl. apply label_set_eq; [apply Hinv1|done]. }
    assert (mkPoint new_i new_j new_h
            ∈ q (foldl (visit lg t current ct)
                   (push_label st1 new_i new_j new_h 0) l2)) as Hqueued.
    { apply Hmono2. simpl. apply elem_of_app. right. by apply list_elem_of_singleton. }
    unfold steep in Hs. unfold gentle in Hng.
    split_and!.
    + intros H0 Ht. by rewrite H0, Ht in Hng.
    + intros _. split; [by rewrite Hl|done].
    + intros _ Hns. congruence.
Qed.
End FindGroundFacts.

(** ** Raising the threshold *)

Section Lockstep.
Variable lg : list (list spec_float).
Variables t1 t2 : spec_float.
Hypothesis Hwf : wf_grid lg.
Hypothesis Ht : F32.leb t1 t2 = true.
Hypothesis Ht1 : F32.leb (S754_zero false) t1 = true.

Local Abbreviation r := (num_rows lg).
Local Abbreviation c := (num_cols lg).

(** With [0 <= t1 <= t2] a slope is pushed under [t1] exactly when it is
    pushed under [t2], and a slope that is gentle under [t1] is gentle
    under [t2]. *)
Lemma gentle_mono s : gentle t1 s = true -> gentle t2 s = true.
Proof.
  unfold gentle. intros [H1 H2]%andb_true_iff. rewrite H2, andb_true_r.
  by apply leb_trans with t1.
Qed.

Lemma steep_pushes s :
  gentle t1 s = false -> steep t1 s = true ->
  gentle t2 s = true \/ (gentle t2 s = false /\ steep t2 s = true).
Proof.
  unfold gentle, steep. intros _ Hs.
  assert (F32.leb (S754_zero false) s = true) as -> by (clear -Hs Ht1; num_order).
  rewrite !andb_true_r.
  destruct (F32.leb s t2) eqn:Hle; [by left|right]. split; [done|].
  clear -Hs Ht Hle. num_order.
Qed.

Lemma no_push_mono s :
  gentle t1 s = false -> steep t1 s = false ->
  gentle t2 s = false /\ steep t2 s = false.
Proof.
  unfold gentle, steep. intros Hg Hs. split.
  - apply andb_false_iff in Hg as [Hg|Hg]; [|by rewrite Hg, andb_false_r].
    destruct (F32.leb (S754_zero false) s) eqn:H0; [|by rewrite andb_false_r].
    rewrite andb_true_r. clear -Hg Hs H0 Ht Ht1. num_order.
  - clear -Hs Ht. num_order.
Qed.

Lemma twin_push s1 s2 i j h l1 l2 :
  inv lg s1 -> inv lg s2 -> in_grid r c (i, j) ->
  l1 <> -1 -> l2 <> -1 -> (l1 <> 0 -> l2 <> 0) ->
  twin s1 s2 -> twin (push_label s1 i j h l1) (push_label s2 i j h l2).
Proof.
  intros Hinv1 Hinv2 Hin H1 H2 H12 (Hq & Hc & Hlab).
  split_and!; simpl; [by rewrite Hq|by rewrite Hc|].
  intros i' j'.
  rewrite !(label_set_cell lg) by (done || apply Hinv1 || apply Hinv2).
  destruct (decide _); [|apply Hlab]. split; [split; intros; lia|done].
Qed.

Lemma twin_visit current ct1 ct2 s1 s2 d :
  inv lg s1 -> inv lg s2 -> (ct1 = true -> ct2 = true) ->
  twin s1 s2 ->
  twin (visit lg t1 current ct1 s1 d) (visit lg t2 current ct2 s2 d).
Proof.
  intros Hinv1 Hinv2 Hct Htwin. destruct d as [di dj].
  pose proof Htwin as (Hq & Hc & Hlab).
  destruct (Hlab (pt_x current + di) (pt_y current + dj)) as [Hsame _].
  destruct (visit_cases lg t1 current ct1 s1 di dj)
    as [(-> & Hwhy1)|(Hcompass & Hin & Hl1 & Hdata & Hpush1)];
  destruct (visit_cases lg t2 current ct2 s2 di dj)
    as [(-> & Hwhy2)|(Hcompass' & Hin' & Hl2 & Hdata' & Hpush2)].
  - done.
  - exfalso. pose proof (in_grid_in_bounds lg _ _ Hin') as Hbounds.
    destruct Hwhy1 as [?|[?|[?|[?|[Hg Hs]]]]]; [congruence|congruence|tauto|congruence|].
    destruct (no_push_mono _ Hg Hs) as [Hg2 Hs2].
    destruct Hpush2 as [[? _]|(_ & ? & _)]; congruence.
  - exfalso. pose proof (in_grid_in_bounds lg _ _ Hin) as Hbounds.
    destruct Hwhy2 as [?|[?|[?|[?|[Hg Hs]]]]]; [congruence|congruence|tauto|congruence|].
    destruct Hpush1 as [[Hg1 _]|(Hg1 & Hs1 & _)].
    + apply gentle_mono in Hg1. congruence.
    + destruct (steep_pushes _ Hg1 Hs1) as [?|[_ ?]]; congruence.
  - destruct Hpush1 as [[Hg1 ->]|(Hg1 & Hs1 & ->)];
    destruct Hpush2 as [[Hg2 ->]|(Hg2 & Hs2 & ->)].
    + apply twin_push; try done; destruct ct1, ct2; simpl; try lia;
        by specialize (Hct eq_refl).
    + apply gentle_mono in Hg1. congruence.
    + apply twin_push; try done; destruct ct2; simpl; lia.
    + apply twin_push; try done; lia.
Qed.

Lemma twin_expand current s1 s2 :
  inv lg s1 -> inv lg s2 -> twin s1 s2 ->
  twin (expand lg t1 current s1) (expand lg t2 current s2).
Proof.
  intros Hinv1 Hinv2 Htwin. unfold expand.
  assert (negb (label (is_ground s1) (pt_x current) (pt_y current) =? 0) = true ->
          negb (label (is_ground s2) (pt_x current) (pt_y current) =? 0) = true) as Hct.
  { destruct Htwin as (_ & _ & Hlab).
    destruct (Hlab (pt_x current) (pt_y current)) as [_ Hne]. lia. }
  revert Hct.
  generalize (negb (label (is_ground s1) (pt_x current) (pt_y current) =? 0)).
  generalize (negb (label (is_ground s2) (pt_x current) (pt_y current) =? 0)).
  intros ct2 ct1 Hct. revert s1 s2 Hinv1 Hinv2 Htwin.
  induction directions as [|d ds IH]; intros s1 s2 Hinv1 Hinv2 Htwin; [done|].
  simpl. apply IH; [by apply inv_visit|by apply inv_visit|by apply twin_visit].
Qed.

Lemma find_lowest_twin isg1 isg2 :
  (forall i j, label isg1 i j = -1 <-> label isg2 i j = -1) ->
  find_lowest lg isg1 = find_lowest lg isg2.
Proof.
  intros Hlab. rewrite !(find_lowest_scan lg Hwf). apply foldl_ext_in.
  intros [[h mi] mj] [i j] _. unfold scan_cell. simpl.
  assert ((label isg1 i j =? -1) = (label isg2 i j =? -1)) as ->; [|done].
  specialize (Hlab i j). lia.
Qed.

Lemma twin_seed s1 s2 :
  inv lg s1 -> inv lg s2 -> twin s1 s2 -> twin (seed lg s1) (seed lg s2).
Proof.
  intros Hinv1 Hinv2 Htwin. pose proof Htwin as (Hq & Hc & Hlab).
  unfold seed. rewrite (find_lowest_twin (is_ground s1) (is_ground s2))
    by (intros i j; apply Hlab).
  destruct (find_lowest_cases lg Hwf (is_ground s2)) as [Hnone|(Hin & _)].
  - rewrite Hnone.
    apply (twin_push s1 s2 0 0 BIGINT_f 1 1) in Htwin;
      [|done|done|by apply origin_in_grid|lia..].
    destruct Htwin as (Hq' & Hc' & Hlab'). by split_and!.
  - destruct (find_lowest lg (is_ground s2)) as [[h i] j].
    apply (twin_push s1 s2 i j h 1 1) in Htwin; [|done|done|done|lia..].
    destruct Htwin as (Hq' & Hc' & Hlab'). by split_and!.
Qed.

Lemma bfs_twin fuel s1 s2 f1 f2 :
  inv lg s1 -> inv lg s2 -> twin s1 s2 ->
  bfs lg t1 fuel s1 = Some f1 -> bfs lg t2 fuel s2 = Some f2 ->
  inv lg f1 /\ inv lg f2 /\ twin f1 f2.
Proof.
  revert s1 s2. induction fuel as [|fuel IH]; intros s1 s2 Hinv1 Hinv2 Htwin; simpl.
  - destruct (pop s1) as [[? ?]|] eqn:Hpop1; [done|].
    destruct (pop s2) as [[? ?]|] eqn:Hpop2; [done|].
    by intros [= <-] [= <-].
  - pose proof Htwin as (Hq & _).
    destruct (pop s1) as [[cur1 s1']|] eqn:Hpop1;
      destruct (pop s2) as [[cur2 s2']|] eqn:Hpop2.
    + pose proof (pop_fields _ _ _ Hpop1) as (Hq1 & Hi1 & Hc1 & _).
      pose proof (pop_fields _ _ _ Hpop2) as (Hq2 & Hi2 & Hc2 & _).
      rewrite Hq1, Hq2 in Hq. injection Hq as <- Hq.
      destruct (inv_pop lg _ _ _ Hinv1 Hpop1) as (Hinv1' & _).
      destruct (inv_pop lg _ _ _ Hinv2 Hpop2) as (Hinv2' & _).
      apply IH; [by apply inv_expand|by apply inv_expand|].
      apply twin_expand; [done|done|].
      destruct Htwin as (_ & Hc & Hlab).
      split_and!; [done|congruence|]. by rewrite Hi1, Hi2.
    + apply pop_fields in Hpop1 as (Hq1 & _). apply pop_none in Hpop2. congruence.
    + apply pop_fields in Hpop2 as (Hq2 & _). apply pop_none in Hpop1. congruence.
    + by intros [= <-] [= <-].
Qed.

Lemma classify_twin n fuel s1 s2 f1 f2 :
  inv lg s1 -> inv lg s2 -> twin s1 s2 ->
  classify lg t1 n fuel s1 = Some f1 -> classify lg t2 n fuel s2 = Some f2 ->
  inv lg f1 /\ inv lg f2 /\ twin f1 f2.
Proof.
  revert s1 s2. induction fuel as [|fuel IH]; intros s1 s2 Hinv1 Hinv2 Htwin; [done|].
  cbn [classify].
  destruct (bfs lg t1 n (seed lg s1)) as [s1'|] eqn:Hbfs1; [|done].
  destruct (bfs lg t2 n (seed lg s2)) as [s2'|] eqn:Hbfs2; [|done].
  destruct (bfs_twin n (seed lg s1) (seed lg s2) s1' s2')
    as (Hinv1' & Hinv2' & Htwin'); [by apply inv_seed..|by apply twin_seed|done|done|].
  pose proof Htwin' as (_ & Hc & _). rewrite Hc.
  destruct (0 <? unclassified_count s2'); [by apply IH|].
  by intros [= <-] [= <-].
Qed.

(** Monotonicity for thresholds that are not negative. *)
Lemma ground_mono_nonneg st1 st2 i j :
  run lg t1 = Some st1 -> run lg t2 = Some st2 ->
  label (is_ground st1) i j = 1 -> label (is_ground st2) i j = 1.
Proof.
  unfold run. intros Hrun1 Hrun2 Hlab.
  destruct (classify_twin _ _ _ _ _ _ (inv_init lg Hwf) (inv_init lg Hwf)
              ltac:(by split_and!) Hrun1 Hrun2) as (_ & Hinv2 & _ & _ & Htwin).
  destruct (Htwin i j) as [Hsame Hne].
  destruct (inv_labels _ _ Hinv2 i j) as [?|[?|?]]; [lia|lia|done].
Qed.
End Lockstep.

Section Closure.
Variable lg : list (list spec_float).
Variable t : spec_float.
Hypothesis Hwf : wf_grid lg.
Local Abbreviation r := (num_rows lg).
Local Abbreviation c := (num_cols lg).

Lemma extends_refl st : extends lg st st.
Proof. split_and!; auto. Qed.

Lemma extends_push st0 st i j l :
  inv lg st -> in_grid r c (i, j) -> label (is_ground st) i j = -1 ->
  extends lg st0 st -> extends lg st0 (push_label st i j (height lg i j) l).
Proof.
  intros Hinv Hin Hlab (Hq & Hown & Hkeep & Hnew).
  pose proof (inv_rect _ _ Hinv) as Hrect.
  split_and!; simpl.
  - intros p Hp. apply elem_of_app. left. by apply Hq.
  - intros p [Hp|Hp%list_elem_of_singleton]%elem_of_app; [by apply Hown|].
    right. by subst p.
  - intros i' j' Hl. rewrite (label_set_cell lg) by done.
    destruct (decide _) as [[= <- <-]|_]; [|by apply Hkeep].
    rewrite (Hkeep i j Hl) in Hlab. done.
  - intros i' j'. rewrite (label_set_cell lg) by done.
    destruct (decide _) as [[= <- <-]|_].
    + intros _. right. exists (mkPoint i j (height lg i j)). split; [|done].
      apply elem_of_app. right. by apply list_elem_of_singleton.
    + intros Hl. destruct (Hnew i' j' Hl) as [?|(p & Hp & Hpos)]; [by left|].
      right. exists p. split; [|done]. apply elem_of_app. by left.
Qed.

Lemma extends_visit st0 current ct st d :
  inv lg st -> extends lg st0 st -> extends lg st0 (visit lg t current ct st d).
Proof.
  intros Hinv Hext. destruct d as [di dj].
  destruct (visit_cases lg t current ct st di dj)
    as [[-> _]|(_ & Hin & Hlab & _ & [[_ ->]|(_ & _ & ->)])]; [done|..];
    by apply extends_push.
Qed.

Lemma extends_expand current st : inv lg st -> extends lg st (expand lg t current st).
Proof.
  intros Hinv. apply (expand_ind lg t (extends lg st)); [|done|apply extends_refl].
  intros st' d _ Hinv' Hext. by apply extends_visit.
Qed.

(** After the expansion of a cell, with its own height, the neighbours
    that a steep slope leads to carry a label. *)
Lemma expand_closes current st :
  inv lg st -> pt_z current = height lg (pt_x current) (pt_y current) ->
  closed_cell lg t (is_ground (expand lg t current st)) (pt_x current, pt_y current).
Proof.
  intros Hinv Hz [di dj] Hdir Hcompass Hin Hdata Hsteep. simpl in *.
  unfold expand.
  set (ct := negb (label (is_ground st) (pt_x current) (pt_y current) =? 0)).
  apply list_elem_of_split in Hdir as (l1 & l2 & Hsplit).
  pose proof NoDup_directions as Hnd. rewrite Hsplit in Hnd.
  apply NoDup_app in Hnd as (_ & Hl1 & Hnd). apply NoDup_cons in Hnd as [Hl2 _].
  assert ((di, dj) ∉ l1) as Hnot1.
  { intros Hd. apply (Hl1 _ Hd). left. }
  rewrite Hsplit, foldl_app. cbn [foldl].
  destruct (visits_frame lg t current ct _ _ l1 st
              (other_directions current di dj l1 Hnot1) Hinv)
    as (Hinv1 & Hlab1 & _).
  set (st1 := foldl (visit lg t current ct) st l1) in *.
  assert (inv lg (visit lg t current ct st1 (di, dj))) as Hinv2 by by apply inv_visit.
  destruct (visits_frame lg t current ct _ _ l2 _
              (other_directions current di dj l2 Hl2) Hinv2)
    as (_ & Hlab2 & _).
  rewrite Hlab2.
  pose proof (in_grid_in_bounds lg _ _ Hin) as Hbounds.
  destruct (visit_cases lg t current ct st1 di dj)
    as [(Heq & [?|[?|[Hl|[?|[Hng Hns]]]]])
       |(_ & _ & _ & _ & [[_ Heq]|(_ & _ & Heq)])];
    [congruence|congruence|by rewrite Heq|congruence|..].
  - rewrite Hz in Hns. congruence.
  - rewrite Heq. simpl. rewrite (label_set_eq lg) by (apply Hinv1 || done).
    by destruct ct.
  - rewrite Heq. simpl. by rewrite (label_set_eq lg) by (apply Hinv1 || done).
Qed.

Lemma closed_cell_mono isg isg' p :
  (forall i j, label isg i j <> -1 -> label isg' i j <> -1) ->
  closed_cell lg t isg p -> closed_cell lg t isg' p.
Proof. intros Hmono Hclosed d Hd Hc Hin Hdata Hs. by apply Hmono, Hclosed. Qed.

Lemma closure_expand st current st' :
  inv lg st -> closure lg t st -> pop st = Some (current, st') ->
  closure lg t (expand lg t current st').
Proof.
  intros Hinv [Hown Hcells] Hpop.
  destruct (inv_pop lg _ _ _ Hinv Hpop) as (Hinv' & _ & Hisg & Hq).
  unfold own_heights in Hown. rewrite Hq in Hown.
  apply Forall_cons in Hown as [Hz Hown'].
  destruct (extends_expand current st' Hinv') as (Hmono & Hnewq & Hkeep & Hnew).
  assert (forall i j, label (is_ground st') i j <> -1 ->
            label (is_ground (expand lg t current st')) i j <> -1) as Hlabels.
  { intros i j Hl. by rewrite Hkeep. }
  split.
  - apply Forall_forall. intros p Hp.
    destruct (Hnewq p Hp) as [Hold|?]; [|done].
    rewrite Forall_forall in Hown'. by apply Hown'.
  - intros [i j] Hl. simpl in *.
    destruct (Hnew i j Hl) as [Hold|?]; [|by left].
    rewrite Hisg in Hold.
    destruct (Hcells (i, j) Hold) as [(p & Hp & Hpos)|Hclosed].
    + rewrite Hq in Hp. apply elem_of_cons in Hp as [-> |Hp].
      * right. injection Hpos as <- <-. by apply expand_closes.
      * left. exists p. split; [by apply Hmono|done].
    + right. apply closed_cell_mono with (is_ground st); [|done].
      rewrite <- Hisg. apply Hlabels.
Qed.
End Closure.

Section Seeds.
Variable lg : list (list spec_float).
Hypothesis Hwf : wf_grid lg.
Local Abbreviation r := (num_rows lg).
Local Abbreviation c := (num_cols lg).

(** The scan returns its initial value or the first of the lowest
    unclassified cells below [BIGINT]. *)
Lemma find_lowest_first_minimum isg :
  (forall Y, in_grid r c Y -> open_cell lg isg Y = true ->
     F32.ltb (height lg Y.1 Y.2) (find_lowest lg isg).1.1 = false)
  /\ (find_lowest lg isg = initial
      \/ (candidate lg isg (find_lowest lg isg)
          /\ F32.ltb (find_lowest lg isg).1.1 BIGINT_f = true
          /\ forall l1 l2,
               positions r c = l1 ++ seed_cell (find_lowest lg isg) :: l2 ->
               forall Y, Y ∈ l1 -> open_cell lg isg Y = true ->
                 F32.ltb (height lg Y.1 Y.2) BIGINT_f = true ->
                 F32.ltb (find_lowest lg isg).1.1 (height lg Y.1 Y.2) = true)).
Proof.
  rewrite (find_lowest_scan lg Hwf).
  destruct (scan_first_minimum lg isg (positions r c) initial)
    as (Hmin & _ & Hres);
    [apply NoDup_positions|apply (positions_in_grid lg)|reflexivity|].
  split.
  - intros Y HY. apply Hmin. by apply elem_of_positions.
  - destruct Hres as [?|(Hcand & _ & Hlt & Hfirst)]; [by left|right]. done.
Qed.

Lemma default_no_candidate isg :
  find_lowest lg isg = initial -> no_candidate lg isg.
Proof.
  intros Hdef p Hp Hopen.
  destruct (find_lowest_first_minimum isg) as [Hmin _].
  specialize (Hmin p Hp Hopen). by rewrite Hdef in Hmin.
Qed.

Lemma no_candidate_default isg :
  no_candidate lg isg -> find_lowest lg isg = initial.
Proof.
  intros Hno.
  destruct (find_lowest_first_minimum isg) as [_ [?|((Hin & Hopen & Hh) & Hlt & _)]];
    [done|].
  specialize (Hno _ Hin Hopen). simpl in Hno. rewrite <- Hh in Hno. congruence.
Qed.

Lemma real_seed_candidate isg :
  find_lowest lg isg <> initial ->
  candidate lg isg (find_lowest lg isg)
  /\ F32.ltb (height lg (find_lowest lg isg).1.2 (find_lowest lg isg).2) BIGINT_f = true.
Proof.
  intros Hreal.
  destruct (find_lowest_first_minimum isg) as [_ [?|(Hcand & Hlt & _)]]; [done|].
  split; [done|]. destruct Hcand as (_ & _ & <-). done.
Qed.

(** A cell below [BIGINT] that is unclassified and holds data makes the
    scan select a cell. *)
Lemma open_below_real isg p :
  in_grid r c p -> open_cell lg isg p = true ->
  F32.ltb (height lg p.1 p.2) BIGINT_f = true ->
  find_lowest lg isg <> initial.
Proof.
  intros Hp Hopen Hlt Hdef.
  pose proof (default_no_candidate isg Hdef p Hp Hopen). congruence.
Qed.

Lemma split_order {A} (l : list A) (x y : A) :
  NoDup l -> x ∈ l -> y ∈ l -> x <> y ->
  (exists l1 l2, l = l1 ++ x :: l2 /\ y ∈ l1)
  \/ (exists l1 l2, l = l1 ++ y :: l2 /\ x ∈ l1).
Proof.
  intros Hnd Hx Hy Hne.
  apply list_elem_of_split in Hx as (l1 & l2 & ->).
  apply elem_of_app in Hy as [Hy|Hy].
  - left. by exists l1, l2.
  - apply elem_of_cons in Hy as [->|Hy]; [done|].
    apply list_elem_of_split in Hy as (l3 & l4 & ->).
    right. exists (l1 ++ x :: l3), l4. split.
    + by rewrite <- app_assoc.
    + apply elem_of_app. right. left.
Qed.

(** Two scans, each of which sees the cell selected by the other as
    unclassified, select the same cell. *)
Lemma seeds_agree isgA isgB :
  find_lowest lg isgA <> initial -> find_lowest lg isgB <> initial ->
  open_cell lg isgB (seed_cell (find_lowest lg isgA)) = true ->
  open_cell lg isgA (seed_cell (find_lowest lg isgB)) = true ->
  seed_cell (find_lowest lg isgA) = seed_cell (find_lowest lg isgB).
Proof.
  intros HA HB HopenB HopenA.
  destruct (find_lowest_first_minimum isgA)
    as [HminA [?|((HinA & _ & HhA) & HltA & HfirstA)]]; [done|].
  destruct (find_lowest_first_minimum isgB)
    as [HminB [?|((HinB & _ & HhB) & HltB & HfirstB)]]; [done|].
  set (mA := find_lowest lg isgA) in *. set (mB := find_lowest lg isgB) in *.
  destruct (decide (seed_cell mA = seed_cell mB)) as [|Hne]; [done|exfalso].
  specialize (HminA (seed_cell mB) HinB HopenA).
  specialize (HminB (seed_cell mA) HinA HopenB).
  simpl in HminA, HminB. rewrite <- HhA in HminB. rewrite <- HhB in HminA.
  destruct (split_order (positions r c) (seed_cell mA) (seed_cell mB))
    as [(l1 & l2 & Hsplit & Hbefore)|(l1 & l2 & Hsplit & Hbefore)];
    [apply NoDup_positions|by apply elem_of_positions..|done| |].
  - specialize (HfirstA l1 l2 Hsplit _ Hbefore HopenA).
    simpl in HfirstA. rewrite <- HhB in HfirstA. specialize (HfirstA HltB). congruence.
  - specialize (HfirstB l1 l2 Hsplit _ Hbefore HopenB).
    simpl in HfirstB. rewrite <- HhA in HfirstB. specialize (HfirstB HltA). congruence.
Qed.

Lemma label_seed st i j :
  inv lg st ->
  label (is_ground (seed lg st)) i j
  = if decide (seed_cell (find_lowest lg (is_ground st)) = (i, j)) then 1
    else label (is_ground st) i j.
Proof.
  intros Hinv. unfold seed, seed_cell.
  destruct (find_lowest_cases lg Hwf (is_ground st)) as [Hnone|(Hin & _)].
  - rewrite Hnone. simpl. apply (label_set_cell lg); [apply Hinv|by apply origin_in_grid].
  - destruct (find_lowest lg (is_ground st)) as [[h mi] mj]. simpl in *.
    apply (label_set_cell lg); [apply Hinv|done].
Qed.

Lemma queue_seed st :
  q (seed lg st)
  = q st ++ [mkPoint (find_lowest lg (is_ground st)).1.2 (find_lowest lg (is_ground st)).2
               (find_lowest lg (is_ground st)).1.1].
Proof. unfold seed. by destruct (find_lowest lg (is_ground st)) as [[h mi] mj]. Qed.

Lemma closure_seed t st :
  inv lg st -> closure lg t st -> find_lowest lg (is_ground st) <> initial ->
  closure lg t (seed lg st).
Proof.
  intros Hinv [Hown Hcells] Hreal.
  destruct (real_seed_candidate _ Hreal) as ((Hin & Hopen & Hh) & _).
  split.
  - unfold own_heights. rewrite queue_seed. apply Forall_app. split; [done|].
    constructor; [|constructor]. done.
  - intros [i j]. simpl. rewrite label_seed by done. rewrite queue_seed.
    destruct (decide _) as [Heq|Hne].
    + intros _. left. eexists. split; [apply elem_of_app; right; left|done].
    + intros Hl. destruct (Hcells (i, j) Hl) as [(p & Hp & Hpos)|Hclosed].
      * left. exists p. split; [|done]. apply elem_of_app. by left.
      * right. apply closed_cell_mono with (is_ground st); [|done].
        intros i' j' Hl'. rewrite label_seed by done. by destruct (decide _).
Qed.
End Seeds.

Section Negative.
Variable lg : list (list spec_float).
Variables t1 t2 : spec_float.
Hypothesis Hwf : wf_grid lg.
Hypothesis Ht : F32.leb t1 t2 = true.
Hypothesis Hneg : F32.leb (S754_zero false) t1 = false.

Local Abbreviation r := (num_rows lg).
Local Abbreviation c := (num_cols lg).

Lemma never_gentle s : gentle t1 s = false.
Proof.
  unfold gentle. destruct (F32.leb s t1) eqn:H1; [|done].
  destruct (F32.leb (S754_zero false) s) eqn:H2; [|done].
  exfalso. clear -H1 H2 Hneg. num_order.
Qed.

Lemma push_steep s : gentle t2 s = true \/ steep t2 s = true -> steep t1 s = true.
Proof.
  unfold gentle, steep. intros [[H1 H2]%andb_true_iff|H].
  - clear -H1 H2 Ht Hneg. num_order.
  - clear -H Ht. num_order.
Qed.

Lemma find_lowest_real_or_default isg :
  find_lowest lg isg = initial \/ find_lowest lg isg <> initial.
Proof.
  destruct (find_lowest_first_minimum lg Hwf isg) as [_ [?|(_ & Hlt & _)]]; [by left|].
  right. intros Heq. rewrite Heq in Hlt. done.
Qed.

Lemma closed_all t s0 p :
  closure lg t s0 -> q s0 = [] -> label (is_ground s0) p.1 p.2 <> -1 ->
  closed_cell lg t (is_ground s0) p.
Proof.
  intros [_ Hcells] Hq Hl. destruct (Hcells p Hl) as [(e & He & _)|?]; [|done].
  rewrite Hq in He. by apply elem_of_nil in He.
Qed.

(** *** The run under [t1]: the Ground cells are seeds *)

Lemma open_cell_kept isg isg' p :
  (forall i j, label isg i j <> -1 -> label isg' i j <> -1) ->
  open_cell lg isg' p = true -> open_cell lg isg p = true.
Proof.
  intros Hkeep. unfold open_cell. intros [Hd Hl]%andb_true_iff.
  rewrite Hd. simpl. specialize (Hkeep p.1 p.2). lia.
Qed.

Lemma no_candidate_kept isg isg' :
  (forall i j, label isg i j <> -1 -> label isg' i j <> -1) ->
  no_candidate lg isg -> no_candidate lg isg'.
Proof.
  intros Hkeep Hno p Hp Hopen. apply Hno; [done|]. by apply open_cell_kept with isg'.
Qed.

Lemma ground_visit current ct st d i j :
  inv lg st ->
  label (is_ground (visit lg t1 current ct st d)) i j = 1 ->
  label (is_ground st) i j = 1.
Proof.
  intros Hinv. destruct d as [di dj].
  destruct (visit_cases lg t1 current ct st di dj)
    as [[-> _]|(_ & Hin & Hlab & _ & [[Hg _]|(_ & _ & ->)])]; [done|..].
  - by rewrite never_gentle in Hg.
  - simpl. rewrite (label_set_cell lg) by (apply Hinv || done).
    by destruct (decide _).
Qed.

Let seeds_only (st : fg_state) : Prop :=
  (forall X, label (is_ground st) X.1 X.2 = 1 -> seeded lg t1 X)
  /\ (closure lg t1 st
      \/ (no_candidate lg (is_ground st) /\ label (is_ground st) 0 0 = 1))
  /\ (seedings st = 0%nat -> st = init_state lg).

Lemma run_seeds_only st :
  run lg t1 = Some st ->
  forall X, label (is_ground st) X.1 X.2 = 1 -> seeded lg t1 X.
Proof.
  intros Hrun.
  destruct (classify_run lg t1 Hwf seeds_only) as (st' & Hrun' & _ & (Hs & _) & _).
  - split_and!.
    + intros X. simpl. by rewrite label_make_grid.
    + left. split; [constructor|]. intros p. simpl. by rewrite label_make_grid.
    + done.
  - intros s Hinv (Hground & Hphase & Hfirst) Hq Hcase.
    split_and!; [| |by destruct (seed_fields lg s) as [-> _]].
    + intros [i j]. simpl. rewrite (label_seed lg Hwf) by done.
      destruct (decide _) as [Heq|_]; [intros _|apply (Hground (i, j))].
      destruct (find_lowest_real_or_default (is_ground s)) as [Hdef|Hreal].
      * rewrite Hdef in Heq. injection Heq as <- <-.
        destruct Hphase as [Hclosure|[_ Hl]]; [|by apply (Hground (0, 0))].
        right. split; [done|]. exists s. split_and!; try done.
        -- by apply default_no_candidate.
        -- destruct Hcase as [?|?]; [left; auto|by right].
      * left. exists s. split_and!; try done.
        destruct Hphase as [?|[Hno _]]; [done|].
        by apply (no_candidate_default lg Hwf) in Hno.
    + destruct (find_lowest_real_or_default (is_ground s)) as [Hdef|Hreal].
      * right. split.
        -- apply no_candidate_kept with (is_ground s);
             [|by apply (default_no_candidate lg Hwf)].
           intros i j Hl. rewrite (label_seed lg Hwf) by done. by destruct (decide _).
        -- rewrite (label_seed lg Hwf), Hdef by done. by rewrite decide_True.
      * left. destruct Hphase as [?|[Hno _]]; [by apply closure_seed|].
        by apply (no_candidate_default lg Hwf) in Hno.
  - intros s current s' Hinv (Hground & Hphase & Hfirst) Hpop.
    destruct (inv_pop lg _ _ _ Hinv Hpop) as (Hinv' & _ & Hisg & Hq).
    pose proof (pop_fields _ _ _ Hpop) as (_ & _ & _ & _ & Hsd).
    destruct (extends_expand lg t1 current s' Hinv') as (_ & _ & Hkeep & _).
    split_and!.
    + intros X HX. apply Hground. rewrite <- Hisg.
      revert HX.
      apply (expand_ind lg t1 (fun s1 => label (is_ground s1) X.1 X.2 = 1 ->
                                 label (is_ground s') X.1 X.2 = 1)); [|done|done].
      intros s1 d _ Hinv1 IH Hl. apply IH. by eapply ground_visit.
    + destruct Hphase as [Hclosure|[Hno Hl]].
      * left. by apply closure_expand with s.
      * right. rewrite <- Hisg in Hno, Hl. split.
        -- apply no_candidate_kept with (is_ground s'); [|done].
           intros i j Hl'. by rewrite Hkeep.
        -- rewrite Hkeep by lia. done.
    + rewrite seedings_expand, Hsd by done. intros Hzero.
      rewrite (Hfirst Hzero) in Hq. done.
  - rewrite Hrun in Hrun'. by injection Hrun' as ->.
Qed.

(** *** The run under [t2], against a state of the run under [t1] *)

Lemma core_push s0 st i j l :
  inv lg st -> core lg s0 st -> in_grid r c (i, j) ->
  label (is_ground st) i j = -1 -> F32.eqb (height lg i j) NODATA_f = false ->
  l <> -1 -> label (is_ground s0) i j <> -1 ->
  core lg s0 (push_label st i j (height lg i j) l).
Proof.
  intros Hinv (Hown & Hsub & Hcnt) Hin Hl Hdata Hne Hs0.
  pose proof (inv_rect _ _ Hinv) as Hrect.
  split_and!; simpl.
  - apply Forall_app. split; [done|]. by constructor.
  - intros i' j'. rewrite (label_set_cell lg) by done.
    destruct (decide _) as [[= <- <-]|_]; [done|apply Hsub].
  - rewrite Hcnt. rewrite <- (open_push lg (is_ground st) i j l); [lia|done..| |done].
    unfold open_cell. simpl. rewrite Hdata. simpl. lia.
Qed.

Lemma core_seed s0 st :
  inv lg st -> core lg s0 st -> find_lowest lg (is_ground st) <> initial ->
  label (is_ground s0) (find_lowest lg (is_ground st)).1.2
        (find_lowest lg (is_ground st)).2 <> -1 ->
  core lg s0 (seed lg st).
Proof.
  intros Hinv Hcore Hreal Hs0.
  destruct (real_seed_candidate lg Hwf _ Hreal) as ((Hin & Hopen & Hh) & _).
  unfold seed. destruct (find_lowest lg (is_ground st)) as [[h i] j]. simpl in *.
  subst h.
  destruct (core_push s0 st i j 1 Hinv Hcore Hin) as (? & ? & ?); try done.
  - by apply (open_cell_label lg) in Hopen.
  - unfold open_cell in Hopen. simpl in Hopen. by destruct (F32.eqb _ _).
Qed.

Lemma core_expand s0 st current :
  closed_cell lg t1 (is_ground s0) (pt_x current, pt_y current) ->
  pt_z current = height lg (pt_x current) (pt_y current) ->
  inv lg st -> core lg s0 st ->
  core lg s0 (expand lg t2 current st).
Proof.
  intros Hclosed Hz Hinv Hcore.
  apply (expand_ind lg t2 (core lg s0)); [|done..].
  intros s1 [di dj] Hd Hinv1 Hcore1.
  destruct (visit_cases lg t2 current
              (negb (label (is_ground st) (pt_x current) (pt_y current) =? 0)) s1 di dj)
    as [[-> _]|(Hcompass & Hin & Hlab & Hdata & Hpush)]; [done|].
  assert (label (is_ground s0) (pt_x current + di) (pt_y current + dj) <> -1) as Hs0.
  { apply (Hclosed (di, dj)); try done. simpl. rewrite <- Hz. apply push_steep.
    destruct Hpush as [[? _]|(_ & ? & _)]; auto. }
  destruct Hpush as [[_ ->]|(_ & _ & ->)].
  - apply core_push; try done. by destruct (negb _).
  - by apply core_push.
Qed.

Lemma core_init s0 : core lg s0 (init_state lg).
Proof.
  split_and!; simpl.
  - constructor.
  - intros i j. by rewrite label_make_grid.
  - by apply count_data_open_init.
Qed.

(** A label 1 is never changed. *)
Lemma ground_kept_seed st i j :
  inv lg st -> label (is_ground st) i j = 1 -> label (is_ground (seed lg st)) i j = 1.
Proof. intros Hinv Hl. rewrite (label_seed lg Hwf) by done. by destruct (decide _). Qed.

Lemma ground_kept_expand t st current i j :
  inv lg st -> label (is_ground st) i j = 1 ->
  label (is_ground (expand lg t current st)) i j = 1.
Proof.
  intros Hinv Hl. destruct (extends_expand lg t current st Hinv) as (_ & _ & Hkeep & _).
  rewrite Hkeep; [done|lia].
Qed.

Lemma core_open_positive s0 st p :
  core lg s0 st -> in_grid r c p -> open_cell lg (is_ground st) p = true ->
  0 < unclassified_count st.
Proof.
  intros (_ & _ & ->) Hp Hopen.
  destruct (count_if (open_cell lg (is_ground st)) (positions r c)) eqn:Hcount; [|lia].
  rewrite (count_if_zero _ _ p Hcount) in Hopen; [done|by apply elem_of_positions].
Qed.

(** The expansions under [t2] pop cells that the run under [t1] had
    labelled: their neighbours reached by a push are labelled there too. *)
Lemma core_pop_expand s0 st current st' :
  closure lg t1 s0 -> q s0 = [] ->
  inv lg st -> core lg s0 st -> pop st = Some (current, st') ->
  core lg s0 (expand lg t2 current st').
Proof.
  intros Hclosure Hq0 Hinv (Hown & Hsub & Hcnt) Hpop.
  destruct (inv_pop lg _ _ _ Hinv Hpop) as (Hinv' & (_ & Hcurl & _) & Hisg & Hq).
  pose proof (pop_fields _ _ _ Hpop) as (_ & _ & Hc & _).
  unfold own_heights in Hown. rewrite Hq in Hown.
  apply Forall_cons in Hown as [Hz Hown'].
  apply core_expand; [|done|done|].
  - apply closed_all; [done|done|]. simpl. apply Hsub. lia.
  - split_and!; [done|by rewrite Hisg|by rewrite Hisg, Hc].
Qed.

(** A cell that the run under [t1] seeds after a scan is Ground under [t2]. *)
Lemma real_seed_ground s0 X st2 :
  real_ref lg t1 s0 X -> run lg t2 = Some st2 ->
  label (is_ground st2) X.1 X.2 = 1.
Proof.
  intros (Hinv0 & Hclosure & Hq0 & Hreal0 & ->) Hrun.
  destruct (real_seed_candidate lg Hwf _ Hreal0) as ((HinX & HopenX & _) & HltX).
  set (X := seed_cell (find_lowest lg (is_ground s0))) in *.
  assert (F32.eqb (height lg X.1 X.2) NODATA_f = false) as HdataX.
  { unfold open_cell in HopenX. by destruct (F32.eqb _ _). }
  pose proof (open_cell_label lg _ _ HopenX) as HlX.
  destruct (classify_run lg t2 Hwf (fun st =>
      label (is_ground st) X.1 X.2 = 1
      \/ (label (is_ground st) X.1 X.2 = -1 /\ core lg s0 st)))
    as (st & Hrun' & _ & [Hdone|[Hl Hcore]] & _ & Hcount & _).
  - right. split; [apply label_make_grid|apply core_init].
  - intros st Hinv [Hdone|[Hl Hcore]] _ _; [left; by apply ground_kept_seed|].
    assert (open_cell lg (is_ground st) X = true) as Hopen.
    { unfold open_cell. by rewrite HdataX, Hl. }
    pose proof (open_below_real lg Hwf _ X HinX Hopen HltX) as Hreal.
    destruct (decide (seed_cell (find_lowest lg (is_ground st)) = X)) as [Heq|Hne].
    { left. rewrite (label_seed lg Hwf) by done. fold X in Heq.
      destruct X. by rewrite decide_True. }
    right. split.
    + rewrite (label_seed lg Hwf) by done. destruct X. by rewrite decide_False.
    + apply core_seed; [done..|]. intros Hl0. apply Hne. symmetry.
      apply (seeds_agree lg Hwf); [done|done|done|].
      destruct (real_seed_candidate lg Hwf _ Hreal) as ((_ & Hopen' & _) & _).
      unfold open_cell in Hopen' |- *. simpl in *.
      apply andb_true_iff in Hopen' as [-> _]. by rewrite Hl0.
  - intros st current st' Hinv [Hdone|[Hl Hcore]] Hpop.
    + left. destruct (inv_pop lg _ _ _ Hinv Hpop) as (Hinv' & _ & Hisg & _).
      apply ground_kept_expand; [done|by rewrite Hisg].
    + right. pose proof (core_pop_expand s0 st current st' Hclosure Hq0 Hinv Hcore Hpop)
        as Hcore'.
      split; [|done]. destruct Hcore' as (_ & Hsub & _).
      destruct (decide (label (is_ground (expand lg t2 current st')) X.1 X.2 = -1))
        as [|Hne]; [done|]. by apply Hsub in Hne.
  - rewrite Hrun in Hrun'. by injection Hrun' as ->.
  - exfalso.
    assert (0 < unclassified_count st); [|lia].
    apply (core_open_positive s0 st X); [done..|].
    unfold open_cell. by rewrite HdataX, Hl.
Qed.

(** When the run under [t1] seeds the cell (0, 0) by default, so does the
    run under [t2]. *)
Lemma default_seed_ground s0 st2 :
  default_ref lg t1 s0 -> run lg t2 = Some st2 ->
  label (is_ground st2) 0 0 = 1.
Proof.
  intros (Hinv0 & Hclosure & Hq0 & Hno0 & Hcase0) Hrun.
  destruct (classify_run lg t2 Hwf (fun st =>
      label (is_ground st) 0 0 = 1
      \/ (core lg s0 st /\ (s0 = init_state lg -> st = init_state lg))))
    as (st & Hrun' & _ & [Hdone|[Hcore Hfirst]] & _ & Hcount & Hseed & _).
  - right. split; [apply core_init|done].
  - intros st Hinv [Hdone|[Hcore Hfirst]] _ _; [left; by apply ground_kept_seed|].
    destruct (find_lowest_real_or_default (is_ground st)) as [Hdef|Hreal].
    { left. rewrite (label_seed lg Hwf), Hdef by done. by rewrite decide_True. }
    right.
    destruct (real_seed_candidate lg Hwf _ Hreal) as ((Hin & Hopen & _) & Hlt).
    assert (label (is_ground s0) (find_lowest lg (is_ground st)).1.2
                  (find_lowest lg (is_ground st)).2 <> -1) as Hs0.
    { intros Hl0. specialize (Hno0 _ Hin). simpl in Hno0.
      rewrite Hno0 in Hlt; [done|].
      unfold open_cell in Hopen |- *. simpl in *.
      apply andb_true_iff in Hopen as [-> _]. by rewrite Hl0. }
    split; [by apply core_seed|].
    intros ->. simpl in Hs0. by rewrite label_make_grid in Hs0.
  - intros st current st' Hinv [Hdone|[Hcore Hfirst]] Hpop.
    + left. destruct (inv_pop lg _ _ _ Hinv Hpop) as (Hinv' & _ & Hisg & _).
      apply ground_kept_expand; [done|by rewrite Hisg].
    + right. split; [by apply core_pop_expand with st|].
      intros Heq. rewrite (Hfirst Heq) in Hpop. done.
  - rewrite Hrun in Hrun'. by injection Hrun' as ->.
  - exfalso. destruct Hcase0 as [Heq|Hpos].
    + rewrite (Hfirst Heq) in Hseed. simpl in Hseed. lia.
    + destruct (count_pos_open lg s0 Hinv0 Hpos) as (p & Hp & Hopen).
      assert (0 < unclassified_count st); [|lia].
      apply (core_open_positive s0 st p); [done..|].
      destruct Hcore as (_ & Hsub & _).
      unfold open_cell in Hopen |- *.
      apply andb_true_iff in Hopen as [-> Hlp]. simpl.
      specialize (Hsub p.1 p.2). lia.
Qed.

(** Monotonicity when the lower threshold is negative. *)
Lemma ground_mono_negative st1 st2 i j :
  run lg t1 = Some st1 -> run lg t2 = Some st2 ->
  label (is_ground st1) i j = 1 -> label (is_ground st2) i j = 1.
Proof.
  intros Hrun1 Hrun2 Hl.
  destruct (run_seeds_only st1 Hrun1 (i, j) Hl) as [[s0 Hreal]|[[= -> ->] [s0 Hdef]]].
  - by apply (real_seed_ground s0 (i, j)).
  - by apply (default_seed_ground s0).
Qed.
End Negative.

(** ** The labels of the other cells

    When every height that is not NODATA is below [BIGINT], the scan
    selects an unclassified cell whenever one holds data, so that the run
    labels exactly the cells that hold data. *)

Section DataLabels.
Variable lg : list (list spec_float).
Variable t : spec_float.
Hypothesis Hwf : wf_grid lg.
Hypothesis Hbelow : below_BIGINT lg.
Hypothesis Hsome : 0 < count_data lg.

Local Abbreviation r := (num_rows lg).
Local Abbreviation c := (num_cols lg).

Lemma open_data_cell isg p :
  in_grid r c p -> open_cell lg isg p = true -> data_cell lg p.
Proof.
  intros Hin Hopen. split; [done|]. unfold open_cell in Hopen.
  by destruct (F32.eqb _ _).
Qed.

Lemma data_labelled_push st i j h l :
  inv lg st -> data_labelled lg st -> in_grid r c (i, j) ->
  open_cell lg (is_ground st) (i, j) = true -> l <> -1 ->
  data_labelled lg (push_label st i j h l).
Proof.
  intros Hinv (Hlab & Hcnt) Hin Hopen Hl.
  pose proof (inv_rect _ _ Hinv) as Hrect.
  split; simpl.
  - intros i' j'. rewrite (label_set_cell lg) by done.
    destruct (decide _) as [[= <- <-]|_]; [|apply Hlab].
    intros _. by apply open_data_cell with (is_ground st).
  - rewrite Hcnt. rewrite <- (open_push lg (is_ground st) i j l) by done. lia.
Qed.

Lemma data_labelled_visit current ct st d :
  inv lg st -> data_labelled lg st -> data_labelled lg (visit lg t current ct st d).
Proof.
  intros Hinv Hst. destruct d as [di dj].
  assert (forall i j, in_grid r c (i, j) -> label (is_ground st) i j = -1 ->
            F32.eqb (height lg i j) NODATA_f = false ->
            open_cell lg (is_ground st) (i, j) = true) as Hopen.
  { intros i j _ Hl Hd. unfold open_cell. simpl. rewrite Hd. simpl. lia. }
  destruct (visit_cases lg t current ct st di dj)
    as [[-> _]|(_ & Hin & Hlab & Hdata & [[_ ->]|(_ & _ & ->)])]; [done|..].
  - apply data_labelled_push; [done|done|done|by apply Hopen|destruct ct; simpl; lia].
  - apply data_labelled_push; [done|done|done|by apply Hopen|lia].
Qed.

(** With data below [BIGINT], the run labels the cells that hold data and
    no other cell. *)
Lemma run_labels_data :
  exists st, run lg t = Some st
    /\ forall i j,
         (data_cell lg (i, j) ->
          label (is_ground st) i j = 0 \/ label (is_ground st) i j = 1)
         /\ (~ data_cell lg (i, j) -> label (is_ground st) i j = -1).
Proof.
  destruct (classify_run lg t Hwf (fun st =>
      (seedings st = 0%nat -> st = init_state lg) /\ data_labelled lg st))
    as (st & Hrun & Hinv & (_ & Hlab & Hcnt) & _ & Hdone & _).
  - split; [done|]. split; simpl.
    + intros i j. by rewrite (label_make_grid lg).
    + by apply count_data_open_init.
  - intros st Hinv (Hfirst & Hst) _ Hcase.
    split; [destruct (seed_fields lg st) as [-> _]; done|].
    assert (0 < unclassified_count st) as Hpos.
    { destruct Hcase as [Hzero|Hpos]; [|done]. by rewrite (Hfirst Hzero). }
    pose proof (seed_candidate lg Hwf st Hbelow Hinv Hpos) as (Hin & Hopen & _).
    unfold seed. destruct (find_lowest lg _) as [[h i] j]. simpl in Hin, Hopen.
    by destruct (data_labelled_push st i j h 1 Hinv Hst Hin Hopen) as (? & ?).
  - intros st current st' Hinv (Hfirst & Hst) Hpop.
    destruct (inv_pop _ _ _ _ Hinv Hpop) as (Hinv' & _).
    pose proof (pop_fields _ _ _ Hpop) as (Hq & Hisg & Hc & _ & Hsd).
    split.
    + rewrite seedings_expand, Hsd by done. intros Hzero.
      rewrite (Hfirst Hzero) in Hq. done.
    + apply (expand_ind lg t (data_labelled lg)); [|done|].
      * intros s d _ Hs Hes. by apply data_labelled_visit.
      * destruct Hst as (Hl & Hn). split; [by rewrite Hisg|by rewrite Hisg, Hc].
  - exists st. split; [done|]. intros i j. split.
    + intros (Hin & Hdata). simpl in Hdata.
      assert (open_cell lg (is_ground st) (i, j) = false) as Hclosed.
      { apply count_if_zero with (positions r c); [lia|by apply elem_of_positions]. }
      unfold open_cell in Hclosed. simpl in Hclosed. rewrite Hdata in Hclosed.
      destruct (inv_labels _ _ Hinv i j) as [?|[?|?]]; [|by left|by right].
      simpl in Hclosed. lia.
    + intros Hno. destruct (decide (label (is_ground st) i j = -1)) as [|Hne]; [done|].
      by destruct Hno; apply Hlab.
Qed.
End DataLabels.

(** With data below [BIGINT], the labels of two runs differ only on cells
    that are Building in one and Ground in the other. *)
Lemma labels_differ lg t1 t2 st1 st2 i j :
  wf_grid lg -> below_BIGINT lg ->
  run lg t1 = Some st1 -> run lg t2 = Some st2 ->
  label (is_ground st1) i j <> label (is_ground st2) i j ->
  (label (is_ground st1) i j = 0 /\ label (is_ground st2) i j = 1)
  \/ (label (is_ground st1) i j = 1 /\ label (is_ground st2) i j = 0).
Proof.
  intros Hwf Hbelow Hrun1 Hrun2 Hne.
  destruct (decide (0 < count_data lg)) as [Hsome|Hnone].
  - destruct (run_labels_data lg t1 Hwf Hbelow Hsome) as (s1 & Hs1 & Hl1).
    destruct (run_labels_data lg t2 Hwf Hbelow Hsome) as (s2 & Hs2 & Hl2).
    rewrite Hrun1 in Hs1. rewrite Hrun2 in Hs2.
    injection Hs1 as <-. injection Hs2 as <-.
    destruct (Hl1 i j) as [Hd1 Hn1]. destruct (Hl2 i j) as [Hd2 Hn2].
    destruct (decide (F32.eqb (height lg i j) NODATA_f = false)) as [Hdata|Hnodata].
    + destruct (decide (in_grid (num_rows lg) (num_cols lg) (i, j))) as [Hin|Hout].
      * assert (data_cell lg (i, j)) as Hd by done.
        specialize (Hd1 Hd). specialize (Hd2 Hd). lia.
      * rewrite Hn1, Hn2 in Hne; [done|by intros [? _]..].
    + rewrite Hn1, Hn2 in Hne; [done|by intros [_ ?]..].
  - assert (forall p, in_grid (num_rows lg) (num_cols lg) p ->
              F32.eqb (height lg p.1 p.2) NODATA_f = true) as Hall.
    { intros p Hp. pose proof (count_data_eq lg Hwf) as Heq.
      assert (negb (F32.eqb (height lg p.1 p.2) NODATA_f) = false) as Hf.
      { apply (count_if_zero
                 (fun p => negb (F32.eqb (height lg p.1 p.2) NODATA_f))
                 (positions (num_rows lg) (num_cols lg)));
          [lia|by apply elem_of_positions]. }
      by destruct (F32.eqb _ _). }
    destruct (run_all_nodata lg t1 Hwf Hall) as (s1 & Hs1 & _ & Hg1 & _).
    destruct (run_all_nodata lg t2 Hwf Hall) as (s2 & Hs2 & _ & Hg2 & _).
    rewrite Hrun1 in Hs1. rewrite Hrun2 in Hs2.
    injection Hs1 as <-. injection Hs2 as <-.
    rewrite Hg1, Hg2 in Hne. done.
Qed.

(** X21: for thresholds [t1 <= t2], [find_ground] returns a
    classification under each of them, and every cell that is Ground (1)
    under [t1] is Ground under [t2]; when every height that is not NODATA
    is below [BIGINT] (2^28), a cell whose label differs between the two
    runs is Building (0) under [t1] and Ground under [t2]. *)
Theorem find_ground_raising_threshold_keeps_ground lg t1 t2 :
  wf_grid lg -> F32.leb t1 t2 = true ->
  exists g1 g2,
    find_ground lg t1 = Some g1 /\ find_ground lg t2 = Some g2
    /\ (forall i j, label g1 i j = 1 -> label g2 i j = 1)
    /\ (below_BIGINT lg ->
        forall i j, label g1 i j <> label g2 i j ->
          label g1 i j = 0 /\ label g2 i j = 1).
Proof.
  intros Hwf Ht.
  destruct (find_ground_total lg t1 Hwf) as (g1 & Hg1 & _).
  destruct (find_ground_total lg t2 Hwf) as (g2 & Hg2 & _).
  exists g1, g2. split; [done|]. split; [done|].
  unfold find_ground in Hg1, Hg2.
  destruct (run lg t1) as [st1|] eqn:Hrun1; [|done].
  destruct (run lg t2) as [st2|] eqn:Hrun2; [|done].
  injection Hg1 as <-. injection Hg2 as <-.
  assert (forall i j, label (is_ground st1) i j = 1 -> label (is_ground st2) i j = 1)
    as Hmono.
  { intros i j. destruct (F32.leb (S754_zero false) t1) eqn:Ht1.
    - by apply (ground_mono_nonneg lg t1 t2 Hwf Ht Ht1).
    - by apply (ground_mono_negative lg t1 t2 Hwf Ht Ht1). }
  split; [done|]. intros Hbelow i j Hne.
  destruct (labels_differ lg t1 t2 st1 st2 i j Hwf Hbelow Hrun1 Hrun2 Hne)
    as [Hup|[Hg Hb]]; [done|].
  apply Hmono in Hg. lia.
Qed.

(** ** find_ground on concrete grids *)

(** Scenario A of the specification. *)
Example scenario_A :
  find_ground (grid_of [[0;0;0];[0;10;0];[0;0;0]]) (F32.of_int 5)
  = Some [[1;1;1];[1;0;1];[1;1;1]].
Proof. vm_compute. reflexivity. Qed.


Lemma wf_grid_intro (g : list (list spec_float)) :
  wf_gridb g = true -> wf_grid g.
Proof.
  unfold wf_gridb. intros H.
  apply andb_prop in H as [H Hrows]. apply andb_prop in H as [Hr Hc].
  apply Nat.ltb_lt in Hr, Hc.
  split; [done|]. split; [done|]. split; [done|].
  apply Forall_forall. intros row Hrow.
  rewrite forallb_forall in Hrows. apply Nat.eqb_eq, Hrows.
  by apply list_elem_of_In.
Defined.

Lemma in_bounds_in_grid (g : list (list spec_float)) i j :
  in_bounds g i j = true -> in_grid (num_rows g) (num_cols g) (i, j).
Proof. unfold in_grid, in_bounds. simpl. lia. Defined.

(** C3, the claim fails on the code: the height 300000000 is above
    [BIGINT].  Under the threshold -200000000 the cell (0, 2) is reached
    from its neighbour, with the slope -100000000, and labelled Building;
    under the threshold 0 this slope prunes it, the scan never selects it,
    the pass that seeds the cell (0, 0) by default ends the loop, and the
    cell stays unclassified although it holds data: raising the threshold
    has changed a Building cell into an unclassified one. *)
Lemma C3_building_cell_left_unclassified :
  F32.leb (F32.of_int (-200000000)) (F32.of_int 0) = true
  /\ F32.eqb (height (grid_of [[0; 400000000; 300000000]]) 0 2) NODATA_f = false
  /\ find_ground (grid_of [[0; 400000000; 300000000]]) (F32.of_int (-200000000))
     = Some [[1; 0; 0]]
  /\ find_ground (grid_of [[0; 400000000; 300000000]]) (F32.of_int 0)
     = Some [[1; 0; -1]].
Proof. split; [reflexivity|]. split; [reflexivity|]. split; vm_compute; reflexivity. Qed.

Lemma C10_witness :
  exists st, run (grid_of [[-9999; -9999]]) (F32.of_int 1) = Some st
    /\ seedings st = 1%nat
    /\ label (is_ground st) 0 0 = 1
    /\ forall p, p <> (0, 0) -> label (is_ground st) p.1 p.2 = -1.
Proof.
  apply (C10_all_nodata_one_pass_seeds_origin (grid_of [[-9999; -9999]]) (F32.of_int 1)).
  - apply wf_grid_intro. reflexivity.
  - intros [i j] [Hi Hj]. unfold num_rows, num_cols in *. simpl in *.
    assert (i = 0) as -> by lia.
    assert (j = 0 \/ j = 1) as [-> | ->] by lia; reflexivity.
Defined.

(** C8, the claim fails on the code: with a height at or above [BIGINT]
    left unclassified, the scan of the second pass selects no cell, and the
    pass seeds the cell (0, 0) by default: the cell, which holds data and
    which the first pass had labelled Building, is labelled again, as
    Ground, and enqueued again. *)
Lemma C8_default_seed_relabels_cell :
  exists st, run (grid_of [[1; 0; -9999; 300000000]]) (F32.of_int 0) = Some st
    /\ F32.eqb (height (grid_of [[1; 0; -9999; 300000000]]) 0 0) NODATA_f = false
    /\ writes st = [(0, 0); (0, 0); (0, 1)]
    /\ ~ NoDup (writes st)
    /\ is_ground st = [[1; 1; -1; -1]].
Proof.
  eexists. split; [vm_compute; reflexivity|]. split; [reflexivity|].
  split; [reflexivity|]. split; [|reflexivity]. simpl. intros Hnd.
  apply NoDup_cons in Hnd as [Hnotin _]. apply Hnotin. left.
Qed.

Lemma C7_witness :
  find_ground (grid_of [[3; 3]; [3; 3]]) (F32.of_int 0) = Some [[1; 1]; [1; 1]].
Proof.
  apply (C7_flat_grid_all_ground (grid_of [[3; 3]; [3; 3]]) (F32.of_int 0))
    with (h := F32.of_int 3).
  - apply wf_grid_intro. reflexivity.
  - intros [i j] [Hi Hj]. unfold num_rows, num_cols in *. simpl in *.
    assert (i = 0 \/ i = 1) as [-> | ->] by lia;
      (assert (j = 0 \/ j = 1) as [-> | ->] by lia); reflexivity.
  - reflexivity.
  - reflexivity.
  - reflexivity.
Defined.

(** C7, the claim as stated fails.  With a negative threshold the slope 0
    between two equal cells is above the threshold, and the neighbour of
    the seed is labelled Building.  With cells at or above [BIGINT] the
    scan selects nothing, the cell (0, 0) is seeded with the height
    [BIGINT], and its neighbour, much higher than that, is labelled
    Building. *)
Lemma C7_counterexample :
  find_ground (grid_of [[0; 0]]) (F32.of_int (-1)) = Some [[1; 0]]
  /\ find_ground (grid_of [[300000000; 300000000]]) (F32.of_int 0) = Some [[1; 0]].
Proof. split; reflexivity. Qed.

(** C5, the claim fails on the code: on a grid whose only cell is NODATA
    the first pass of the outer loop seeds the cell (0, 0) by default and
    labels it Ground. *)
Lemma C5_nodata_cell_labelled_ground :
  F32.eqb (height (grid_of [[-9999]]) 0 0) NODATA_f = true
  /\ forall t, find_ground (grid_of [[-9999]]) t = Some [[1]].
Proof. split; [reflexivity|]. intros t. reflexivity. Qed.

Lemma C6_witness :
  let lg := grid_of [[0; 1]] in
  let t := F32.of_int 5 in
  let current := mkPoint 0 0 (F32.of_int 0) in
  let st' := mkState [[1; -1]] [] 1 [(0, 0)] 1 in
  let slope := F32.sub (height lg 0 1) (height lg 0 0) in
  let st'' := expand lg t current st' in
  (F32.leb (S754_zero false) slope = true -> F32.leb slope t = true ->
      label (is_ground st'') 0 1 = label (is_ground (seed lg (init_state lg))) 0 0
      /\ mkPoint 0 1 (height lg 0 1) ∈ q st'')
  /\ (F32.ltb t slope = true ->
      label (is_ground st'') 0 1 = 0 /\ mkPoint 0 1 (height lg 0 1) ∈ q st'')
  /\ (F32.ltb slope (S754_zero false) = true -> F32.ltb t slope = false ->
      label (is_ground st'') 0 1 = -1
      /\ forall p, p ∈ q st'' -> (pt_x p, pt_y p) <> (0, 1)).
Proof.
  intros lg t current st' slope st''.
  apply (C6_expansion_of_a_neighbour lg t (wf_grid_intro lg eq_refl)
           (seed lg (init_state lg)) current st' 0 1).
  - apply reach_seed; [apply reach_init|reflexivity|left; reflexivity].
  - reflexivity.
  - reflexivity.
  - apply (bool_decide_unpack _). reflexivity.
  - reflexivity.
  - apply in_bounds_in_grid. reflexivity.
  - reflexivity.
  - reflexivity.
Defined.

(** C6, the claim as stated fails in its third case: with the negative
    threshold -5, the cell (0, 1) of height 10 is popped, with this height,
    next to the unclassified cell (0, 2) of height 9; the slope is -1 < 0,
    and it is above the threshold, so the neighbour is labelled Building
    and enqueued. *)
Lemma C6_counterexample :
  let lg := grid_of [[0; 10; 9]] in
  let t := F32.of_int (-5) in
  let current := mkPoint 0 1 (F32.of_int 10) in
  let st' := mkState [[1; 0; -1]] [] 1 [(0, 1); (0, 0)] 1 in
  let st := mkState [[1; 0; -1]] [current] 1 [(0, 1); (0, 0)] 1 in
  reachable lg t st
  /\ pop st = Some (current, st')
  /\ pt_z current = height lg 0 1
  /\ label (is_ground st) 0 2 = -1
  /\ F32.eqb (height lg 0 2) NODATA_f = false
  /\ F32.ltb (F32.sub (height lg 0 2) (height lg 0 1)) (S754_zero false) = true
  /\ label (is_ground (expand lg t current st')) 0 2 = 0
  /\ q (expand lg t current st') = [mkPoint 0 2 (F32.of_int 9)].
Proof.
  intros lg t current st' st. split_and!; try reflexivity.
  change st with (expand lg t (mkPoint 0 0 (F32.of_int 0))
                    (mkState [[1; -1; -1]] [] 2 [(0, 0)] 1)).
  apply reach_expand with (seed lg (init_state lg)); [|reflexivity].
  apply reach_seed; [apply reach_init|reflexivity|left; reflexivity].
Qed.

(** ** gridify on a degenerate bounding box *)

Lemma mul_zero_l x y : is_zero x -> zero_or_nan (F32.mul x y).
Proof. by destruct x, y. Qed.

Lemma mul_zero_r x y : is_zero y -> zero_or_nan (F32.mul x y).
Proof. by destruct x, y. Qed.

Lemma div_zero_or_nan x d : zero_or_nan x -> zero_or_nan (F32.div x d).
Proof. by destruct x, d. Qed.

Lemma sqrt_zero_or_nan x : zero_or_nan x -> zero_or_nan (F32.sqrt x).
Proof. by destruct x. Qed.

Lemma div_by_zero_or_nan x d : zero_or_nan d -> inf_or_nan (F32.div x d).
Proof. by destruct x, d. Qed.

Lemma ceil_inf_or_nan x : inf_or_nan x -> F32.to_int (F32.ceil x) = None.
Proof. by destruct x. Qed.

(** With a bounding box of zero height or zero width the cell size is
    zero or NaN, and the number of rows is the conversion to [int] of an
    infinity or of NaN. *)
Lemma gridify_degenerate points bb density t :
  is_zero (bb_h bb) \/ is_zero (bb_w bb) ->
  gridify points bb density t = Undefined.
Proof.
  intros Hdeg. unfold gridify, num_cells.
  destruct (density mod 2 ^ 64 =? 0); [done|]. simpl.
  set (n := to_int32 _).
  assert (zero_or_nan (cell_size bb n)) as Hdelta.
  { unfold cell_size. apply sqrt_zero_or_nan, div_zero_or_nan.
    destruct Hdeg; [by apply mul_zero_l|by apply mul_zero_r]. }
  unfold grid_rows.
  by rewrite (ceil_inf_or_nan _ (div_by_zero_or_nan (bb_h bb) _ Hdelta)).
Qed.

(** C4 (as amended): [gridify] makes no check of its input.  When the
    point set is empty, or the bounding box has zero width or zero height,
    no error is reported: the cell size is computed all the same, it is
    zero or NaN, and the number of rows is the conversion to [int] of an
    infinity or of NaN, which is undefined behaviour. *)
Theorem C4_degenerate_input_is_not_rejected records density t :
  records = [] \/ is_zero (bb_w (read_points records).2)
  \/ is_zero (bb_h (read_points records).2) ->
  readPointsFromFile (Some records) density t = Undefined.
Proof.
  intros Hdeg. unfold readPointsFromFile.
  destruct (read_points records) as [points bb] eqn:Hread. simpl in Hdeg.
  apply gridify_degenerate.
  destruct Hdeg as [-> |[Hw|Hh]]; [|by right|by left].
  injection Hread as <- <-. by left.
Qed.

Lemma C4_witness :
  readPointsFromFile (Some [record_of 5 0 1 1 1; record_of 5 3 2 1 1]) 1 (F32.of_int 1)
  = Undefined.
Proof.
  apply (C4_degenerate_input_is_not_rejected
           [record_of 5 0 1 1 1; record_of 5 3 2 1 1] 1 (F32.of_int 1)).
  right. left. vm_compute. exact I.
Defined.

(** C4, the claim as stated fails: on the empty point set no error exit is
    taken; the cell size is the square root of 0/0, NaN, and the call
    ends in the conversion of NaN to [int]. *)
Lemma C4_counterexample :
  readPointsFromFile (Some []) 5 (F32.of_int 1) = Undefined
  /\ readPointsFromFile (Some []) 5 (F32.of_int 1) <> Exits 1
  /\ num_cells [] 5 = Returns 0
  /\ F32.div (F32.mul (bb_h bbox_zero) (bb_w bbox_zero)) (F32.of_int 0) = S754_nan
  /\ cell_size bbox_zero 0 = S754_nan.
Proof. split_and!; try reflexivity. discriminate. Qed.

(** ** gridify on concrete point sets *)

(** C1, the claim fails on the code: the point (0, 0, 10) is return 1 of a
    pulse with [n] returns; whatever [n] is, also 2, its height enters the
    last-return samples of its cell, and DepthGrid holds 10 there. *)
Lemma C1_every_return_enters_depth_grid :
  forall n,
    let records := [record_of 0 0 10 n 1; record_of 3 1 0 1 1] in
    let '(points, bb) := read_points records in
    for_each (bin_point bb (cell_size bb 2)) points (make_grid 1 3 [], make_grid 1 3 [])
    = Returns ([[[F32.of_int 10]; []; [F32.of_int 0]]],
               [[[F32.of_int 10]; []; [F32.of_int 0]]])
    /\ exists g, readPointsFromFile (Some records) 1 (F32.of_int 1) = Returns g
         /\ height (g_last_grid g) 0 0 = F32.of_int 10.
Proof.
  intros n. split; [reflexivity|]. eexists. split; [reflexivity|reflexivity].
Qed.

(** C2, the claim fails on the code: with 1 row and 3 columns the
    averaging loops stop at column 1; the cell (0, 2) holds the sample 7 in
    both grids of samples and is left NODATA in ElevationGrid and in
    DepthGrid. *)
Lemma C2_column_beyond_rows_left_NODATA :
  let records := [record_of 0 0 10 1 1; record_of 3 1 7 1 1] in
  let '(points, bb) := read_points records in
  grid_rows bb (cell_size bb 2) = Returns 1
  /\ grid_cols bb (cell_size bb 2) = Returns 3
  /\ for_each (bin_point bb (cell_size bb 2)) points (make_grid 1 3 [], make_grid 1 3 [])
     = Returns ([[[F32.of_int 10]; []; [F32.of_int 7]]],
                [[[F32.of_int 10]; []; [F32.of_int 7]]])
  /\ exists g, readPointsFromFile (Some records) 1 (F32.of_int 1) = Returns g
       /\ elevation g = [[F32.of_int 10; NODATA_f; NODATA_f]]
       /\ g_last_grid g = [[F32.of_int 10; NODATA_f; NODATA_f]].
Proof.
  split_and!; try reflexivity. eexists. split_and!; reflexivity.
Qed.

(** C9, the claim fails on the code: four points in the square from (0, 0)
    to (2, 2), one point per cell; the cell size is 1 and the grid has 2
    rows, and the point (2, 2), on the maximum of the bounding box, gets
    the row 2 and the column 2, out of range. *)
Lemma C9_point_on_maximum_out_of_range :
  let records :=
    [record_of 0 0 10 1 1; record_of 2 2 0 1 1; record_of 1 1 0 1 1; record_of 1 0 0 1 1] in
  let '(points, bb) := read_points records in
  num_cells points 1 = Returns 4
  /\ cell_size bb 4 = F32.of_int 1
  /\ grid_rows bb (cell_size bb 4) = Returns 2
  /\ grid_cols bb (cell_size bb 4) = Returns 2
  /\ row_of bb (cell_size bb 4) (record_of 2 2 0 1 1) = Returns 2
  /\ col_of bb (cell_size bb 4) (record_of 2 2 0 1 1) = Returns 2
  /\ readPointsFromFile (Some records) 1 (F32.of_int 1) = Undefined.
Proof. split_and!; reflexivity. Qed.

(** * Further properties *)

(** ** More on the order of binary32 numbers *)

Lemma key_nan x : key x = None <-> x = S754_nan.
Proof. destruct x as [s|s| |s m e]; simpl; split; try done; by destruct s. Qed.

Lemma leb_refl a : a <> S754_nan -> F32.leb a a = true.
Proof.
  intros Ha. rewrite <- key_nan in Ha. apply leb_num. unfold num_le, lex_eq.
  destruct (key a) as [[[? ?] ?]|]; [by right|done].
Qed.

Lemma leb_total a b :
  a <> S754_nan -> b <> S754_nan -> F32.ltb a b = false -> F32.leb b a = true.
Proof.
  intros Ha Hb Hlt. rewrite <- key_nan in Ha, Hb.
  apply leb_num. apply ltb_false_num in Hlt.
  unfold num_le, num_lt, lex_lt, lex_eq in *.
  destruct (key a) as [[[? ?] ?]|]; [|done].
  destruct (key b) as [[[? ?] ?]|]; [|done]. simpl in *. lia.
Qed.

Lemma leb_not_nan a b : F32.leb a b = true -> a <> S754_nan /\ b <> S754_nan.
Proof. intros Hle. split; intros ->; [done|by destruct a]. Qed.

Lemma ltb_not_nan a b : F32.ltb a b = true -> a <> S754_nan /\ b <> S754_nan.
Proof. intros Hlt. split; intros ->; [done|by rewrite ltb_nan_r in Hlt]. Qed.

(** ** readPointsFromFile *)

Lemma read_points_snoc records p :
  read_points (records ++ [p])
  = ((read_points records).1 ++ [stored p],
     update_bbox (S (length (read_points records).1)) (read_points records).2 (stored p)).
Proof.
  unfold read_points. rewrite foldl_app. simpl.
  by destruct (foldl _ _ records) as [points bb].
Qed.

(** Every record is stored, in the order of the file, with [mycode = 0]. *)
Lemma read_points_stored records : (read_points records).1 = stored <$> records.
Proof.
  induction records as [|p records IH] using rev_ind; [done|].
  rewrite read_points_snoc, fmap_app. simpl. by rewrite IH.
Qed.

(** The update of a lower and of an upper bound. *)
Lemma lower_bound_step m x y :
  x <> S754_nan -> F32.leb m y = true ->
  F32.leb (if F32.ltb x m then x else m) y = true
  /\ F32.leb (if F32.ltb x m then x else m) x = true.
Proof.
  intros Hx Hy. destruct (leb_not_nan _ _ Hy) as [Hm _].
  destruct (F32.ltb x m) eqn:Hlt.
  - split; [|by apply leb_refl]. apply ltb_leb. by apply ltb_leb_trans with m.
  - split; [done|]. by apply leb_total.
Qed.

Lemma upper_bound_step m x y :
  x <> S754_nan -> F32.leb y m = true ->
  F32.leb y (if F32.ltb m x then x else m) = true
  /\ F32.leb x (if F32.ltb m x then x else m) = true.
Proof.
  intros Hx Hy. destruct (leb_not_nan _ _ Hy) as [_ Hm].
  destruct (F32.ltb m x) eqn:Hlt.
  - split; [|by apply leb_refl]. apply ltb_leb. by apply leb_ltb_trans with m.
  - split; [done|]. by apply leb_total.
Qed.

Lemma encloses_update n bb p q :
  numeric p -> encloses bb q ->
  encloses (update_bbox (S (S n)) bb p) q /\ encloses (update_bbox (S (S n)) bb p) p.
Proof.
  intros (Hx & Hy & Hz) (Hx1 & Hx2 & Hy1 & Hy2 & Hz1 & Hz2).
  unfold update_bbox, encloses. simpl.
  destruct (lower_bound_step _ _ _ Hx Hx1), (upper_bound_step _ _ _ Hx Hx2),
    (lower_bound_step _ _ _ Hy Hy1), (upper_bound_step _ _ _ Hy Hy2),
    (lower_bound_step _ _ _ Hz Hz1), (upper_bound_step _ _ _ Hz Hz2).
  done.
Qed.

(** X6: when no coordinate read from the file is NaN, the bounding box
    that [readPointsFromFile] computes holds every point stored: each
    coordinate lies between the minimum and the maximum kept for it. *)
Theorem read_points_bbox_encloses records :
  Forall numeric records ->
  forall p, p ∈ (read_points records).1 -> encloses (read_points records).2 p.
Proof.
  induction records as [|r records IH] using rev_ind; intros Hnum p Hp.
  - by apply elem_of_nil in Hp.
  - apply Forall_app in Hnum as [Hnum Hr]. rewrite Forall_singleton in Hr.
    specialize (IH Hnum). rewrite read_points_snoc in Hp |- *. simpl in *.
    assert (numeric (stored r)) as Hr' by apply Hr.
    destruct (read_points records).1 as [|q points] eqn:Hpoints.
    + apply list_elem_of_singleton in Hp as ->. destruct Hr as (Hx & Hy & Hz).
      unfold update_bbox, encloses. simpl. by rewrite !leb_refl.
    + simpl. assert (encloses (read_points records).2 q) as Hq by (apply IH; left).
      apply elem_of_app in Hp as [Hp|Hp].
      * by apply encloses_update, IH.
      * apply list_elem_of_singleton in Hp as ->. by apply (encloses_update _ _ _ q).
Qed.

(** X7: each of the six bounds of the bounding box is a coordinate of a
    record of the file (whatever the coordinates, NaN included). *)
Theorem read_points_bbox_attained records :
  records <> [] ->
  (exists p, p ∈ records /\ minx (read_points records).2 = lp_x p)
  /\ (exists p, p ∈ records /\ maxx (read_points records).2 = lp_x p)
  /\ (exists p, p ∈ records /\ miny (read_points records).2 = lp_y p)
  /\ (exists p, p ∈ records /\ maxy (read_points records).2 = lp_y p)
  /\ (exists p, p ∈ records /\ minz (read_points records).2 = lp_z p)
  /\ (exists p, p ∈ records /\ maxz (read_points records).2 = lp_z p).
Proof.
  induction records as [|r records IH] using rev_ind; intros Hne; [done|].
  rewrite read_points_snoc. simpl. rewrite read_points_stored, length_fmap.
  destruct records as [|r0 records]; simpl.
  { split_and!; exists r; (split; [left|done]). }
  destruct IH as ((p1 & Hp1 & H1) & (p2 & Hp2 & H2) & (p3 & Hp3 & H3)
                  & (p4 & Hp4 & H4) & (p5 & Hp5 & H5) & (p6 & Hp6 & H6)); [done|].
  assert (forall p, p ∈ r0 :: records -> p ∈ (r0 :: records) ++ [r]) as Hold.
  { intros p Hp. apply elem_of_app. by left. }
  assert (r ∈ (r0 :: records) ++ [r]) as Hnew.
  { apply elem_of_app. right. by apply list_elem_of_singleton. }
  split_and!.
  - destruct (F32.ltb _ _); [by exists r|exists p1; auto].
  - destruct (F32.ltb _ _); [by exists r|exists p2; auto].
  - destruct (F32.ltb _ _); [by exists r|exists p3; auto].
  - destruct (F32.ltb _ _); [by exists r|exists p4; auto].
  - destruct (F32.ltb _ _); [by exists r|exists p5; auto].
  - destruct (F32.ltb _ _); [by exists r|exists p6; auto].
Qed.

(** ** Loops that may fail *)

Lemma for_each_app {A B} (body : A -> B -> outcome A) l1 l2 a :
  for_each body (l1 ++ l2) a = (a' ← for_each body l1 a; for_each body l2 a').
Proof.
  revert a. induction l1 as [|x l1 IH]; intros a; simpl; [done|].
  destruct (body a x); simpl; auto.
Qed.

(** A loop whose body fails at some element, whatever the state, and
    never exits, does not return. *)
Lemma for_each_undefined {A B} (body : A -> B -> outcome A) l x a :
  (forall a y, body a y = Undefined \/ exists a', body a y = Returns a') ->
  x ∈ l -> (forall a, body a x = Undefined) ->
  for_each body l a = Undefined.
Proof.
  intros Hbody Hx Hfail. revert a.
  induction l as [|y l IH]; intros a; [by apply elem_of_nil in Hx|].
  simpl. apply elem_of_cons in Hx as [<-|Hx]; [by rewrite Hfail|].
  destruct (Hbody a y) as [->|[a' ->]]; [done|]. simpl. by apply IH.
Qed.

(** Two nested loops are one loop over the pairs of indices. *)
Lemma for_each_nested {A} (body : Z -> A -> Z -> outcome A) (l1 l2 : list Z) a :
  for_each (fun a i => for_each (body i) l2 a) l1 a
  = for_each (fun a p => body p.1 a p.2) (i ← l1; (fun j => (i, j)) <$> l2) a.
Proof.
  revert a. induction l1 as [|i l1 IH]; intros a; [done|].
  change ((i :: l1) ≫= _) with (((fun j => (i, j)) <$> l2) ++ (l1 ≫= fun i => (fun j => (i, j)) <$> l2)).
  rewrite for_each_app. simpl.
  assert (forall a, for_each (body i) l2 a
            = for_each (fun a p => body p.1 a p.2) ((fun j => (i, j)) <$> l2) a) as ->.
  { clear. induction l2 as [|j l2 IH]; intros a; simpl; [done|].
    destruct (body i a j); simpl; auto. }
  destruct (for_each _ (_ <$> l2) a); simpl; auto.
Qed.

(** ** Accesses to the grids of samples *)

Section Samples.
Variables R C : nat.
Variable g : list (list (list spec_float)).
Hypothesis Hrect : rect R C g.

Lemma lookup_rect i j :
  in_grid R C (i, j) ->
  g !! Z.to_nat i ≫= (fun row => row !! Z.to_nat j) = Some (cell [] g i j).
Proof.
  intros [[Hi0 Hi] [Hj0 Hj]]; simpl in *. destruct Hrect as [Hlen Hrows].
  unfold cell. assert ((0 <=? i) && (0 <=? j) = true) as -> by lia.
  destruct (lookup_lt_is_Some_2 g (Z.to_nat i)) as [row Hrow]; [lia|].
  rewrite Hrow. simpl.
  destruct (lookup_lt_is_Some_2 row (Z.to_nat j)) as [x Hx];
    [rewrite (Forall_lookup_1 _ _ _ _ Hrows Hrow); lia|].
  by rewrite Hx.
Qed.

Lemma samples_at_in i j :
  in_grid R C (i, j) -> samples_at g i j = Returns (cell [] g i j).
Proof.
  intros Hin. pose proof Hin as [[Hi0 _] [Hj0 _]]; simpl in *.
  unfold samples_at. assert ((0 <=? i) && (0 <=? j) = true) as -> by lia.
  by rewrite lookup_rect.
Qed.

Lemma samples_at_out i j :
  ~ in_grid R C (i, j) -> samples_at g i j = Undefined.
Proof.
  intros Hout. destruct Hrect as [Hlen Hrows].
  unfold samples_at, in_grid in *; simpl in *.
  destruct ((0 <=? i) && (0 <=? j)) eqn:Hb; [|done].
  destruct (g !! Z.to_nat i) as [row|] eqn:Hrow; [|done]. simpl.
  pose proof (lookup_lt_Some _ _ _ Hrow) as Hlt.
  rewrite lookup_ge_None_2; [done|].
  rewrite (Forall_lookup_1 _ _ _ _ Hrows Hrow). lia.
Qed.

Lemma push_sample_in r c z :
  in_grid R C (r, c) ->
  push_sample g r c z = Returns (set_cell g r c (cell [] g r c ++ [z])).
Proof.
  intros [[Hi0 Hi] [Hj0 Hj]]; simpl in *. destruct Hrect as [Hlen Hrows].
  unfold push_sample.
  destruct (lookup_lt_is_Some_2 g (Z.to_nat r)) as [row Hrow]; [lia|].
  rewrite Hrow. simpl. rewrite (Forall_lookup_1 _ _ _ _ Hrows Hrow).
  assert ((0 <=? r) && (r <? Z.of_nat (length g)) && (0 <=? c) && (c <? Z.of_nat C) = true)
    as -> by lia.
  done.
Qed.

Lemma push_sample_out r c z :
  ~ in_grid R C (r, c) -> push_sample g r c z = Undefined.
Proof.
  intros Hout. destruct Hrect as [Hlen Hrows].
  unfold push_sample, in_grid in *; simpl in *.
  destruct ((0 <=? r) && (r <? Z.of_nat (length g))) eqn:Hr; [|done]. simpl.
  destruct (lookup_lt_is_Some_2 g (Z.to_nat r)) as [row Hrow]; [lia|].
  rewrite Hrow. simpl. rewrite (Forall_lookup_1 _ _ _ _ Hrows Hrow).
  assert ((0 <=? c) && (c <? Z.of_nat C) = false) as Hc by lia.
  destruct (0 <=? c); simpl in *; [by rewrite Hc|done].
Qed.
End Samples.

(** ** The binning loop of gridify *)

Section Binning.
Variable bb : bbox.
Variable delta : spec_float.
Variables R C : nat.

Local Abbreviation is_first := (fun p : lidarPoint => return_number p =? 1).
Local Abbreviation any_return := (fun _ : lidarPoint => true).

Lemma bin_point_cases fr lr p :
  rect R C fr -> rect R C lr ->
  bin_point bb delta (fr, lr) p = Undefined
  \/ exists r c,
       row_of bb delta p = Returns r /\ col_of bb delta p = Returns c
       /\ in_grid R C (r, c)
       /\ bin_point bb delta (fr, lr) p
          = Returns (if return_number p =? 1
                     then set_cell fr r c (cell [] fr r c ++ [lp_z p]) else fr,
                     set_cell lr r c (cell [] lr r c ++ [lp_z p])).
Proof.
  intros Hfr Hlr. unfold bin_point.
  destruct (row_of bb delta p) as [r| | |] eqn:Hr; simpl; try by left.
  - destruct (col_of bb delta p) as [c| | |] eqn:Hc; simpl; try by left.
    + rewrite Z.eqb_refl.
      destruct (decide (in_grid R C (r, c))) as [Hin|Hout].
      * right. exists r, c. split_and!; [done..|].
        rewrite (push_sample_in R C lr Hlr) by done.
        destruct (return_number p =? 1); [|done].
        by rewrite (push_sample_in R C fr Hfr).
      * left. rewrite (push_sample_out R C lr Hlr) by done.
        destruct (return_number p =? 1); [|done].
        by rewrite (push_sample_out R C fr Hfr).
    + unfold col_of, of_option in Hc. by destruct (F32.to_int _).
    + unfold col_of, of_option in Hc. by destruct (F32.to_int _).
  - unfold row_of, of_option in Hr. by destruct (F32.to_int _).
  - unfold row_of, of_option in Hr. by destruct (F32.to_int _).
Qed.

Lemma samples_in_cons sel p points i j :
  samples_in sel bb delta (p :: points) i j
  = (if sel p && in_cell bb delta p i j then [lp_z p] else [])
    ++ samples_in sel bb delta points i j.
Proof. unfold samples_in. simpl. by destruct (sel p && in_cell bb delta p i j). Qed.

(** The binning loop fails, or it returns grids in which every cell holds
    what it held before, followed by the heights of the points that fall
    in it: in [first_returns] those of the points with [return_number]
    1, in [last_returns] those of all the points. *)
Lemma binning points : forall fr lr,
  rect R C fr -> rect R C lr ->
  for_each (bin_point bb delta) points (fr, lr) = Undefined
  \/ exists fr' lr',
       for_each (bin_point bb delta) points (fr, lr) = Returns (fr', lr')
       /\ rect R C fr' /\ rect R C lr'
       /\ forall i j, in_grid R C (i, j) ->
            cell [] fr' i j = cell [] fr i j ++ samples_in is_first bb delta points i j
            /\ cell [] lr' i j = cell [] lr i j ++ samples_in any_return bb delta points i j.
Proof.
  induction points as [|p points IH]; intros fr lr Hfr Hlr.
  - right. exists fr, lr. split_and!; [done..|].
    intros i j _. unfold samples_in. simpl. by rewrite !app_nil_r.
  - cbn [for_each].
    destruct (bin_point_cases fr lr p Hfr Hlr) as [->|(r & c & Hr & Hc & Hin & ->)];
      [by left|]. cbn [mbind outcome_bind].
    set (fr1 := if return_number p =? 1 then _ else fr).
    set (lr1 := set_cell lr r c _).
    assert (rect R C fr1) as Hfr1.
    { unfold fr1. destruct (return_number p =? 1); [by apply rect_set_cell|done]. }
    assert (rect R C lr1) as Hlr1 by by apply rect_set_cell.
    destruct (IH fr1 lr1 Hfr1 Hlr1) as [->|(fr' & lr' & -> & Hfr' & Hlr' & Hcells)];
      [by left|].
    right. exists fr', lr'. split_and!; [done..|].
    intros i j Hij. destruct (Hcells i j Hij) as [-> ->].
    rewrite !samples_in_cons. unfold in_cell. rewrite Hr, Hc. simpl.
    rewrite !app_assoc. split; f_equal.
    + unfold fr1. destruct (return_number p =? 1); simpl; [|by rewrite app_nil_r].
      destruct (decide ((r, c) = (i, j))) as [[= <- <-]|Hne].
      * rewrite (cell_set_cell_eq R C) by done.
        by rewrite !Z.eqb_refl.
      * rewrite cell_set_cell_ne by done.
        assert ((r =? i) && (c =? j) = false) as ->; [|by rewrite app_nil_r].
        apply andb_false_iff. destruct (Z.eqb_spec r i), (Z.eqb_spec c j); auto.
        by subst.
    + unfold lr1.
      destruct (decide ((r, c) = (i, j))) as [[= <- <-]|Hne].
      * rewrite (cell_set_cell_eq R C) by done.
        by rewrite !Z.eqb_refl.
      * rewrite cell_set_cell_ne by done.
        assert ((r =? i) && (c =? j) = false) as ->; [|by rewrite app_nil_r].
        apply andb_false_iff. destruct (Z.eqb_spec r i), (Z.eqb_spec c j); auto.
        by subst.
Qed.
End Binning.

(** ** The averaging loops of gridify *)

Section Averaging.
Variables R C : nat.
Variables first_returns last_returns : list (list (list spec_float)).
Hypothesis Hfr : rect R C first_returns.
Hypothesis Hlr : rect R C last_returns.

Local Abbreviation grids := (list (list spec_float) * list (list spec_float) * spec_float)%type.

Let body (s : grids) (p : Z * Z) : outcome grids :=
  average_cell first_returns last_returns p.1 s p.2.

Lemma cell_avg_step g samples i j i' j' :
  rect R C g -> in_grid R C (i, j) ->
  cell S754_nan (avg_step g samples i j) i' j'
  = if decide ((i, j) = (i', j')) then mean_or (cell S754_nan g i j) samples
    else cell S754_nan g i' j'.
Proof.
  intros Hg Hin. unfold avg_step, mean_or.
  destruct (decide _) as [[= <- <-]|Hne].
  - destruct (0 <? _); [by rewrite (cell_set_cell_eq R C)|done].
  - destruct (0 <? _); [by rewrite cell_set_cell_ne|done].
Qed.

Lemma rect_avg_step g samples i j : rect R C g -> rect R C (avg_step g samples i j).
Proof. intros Hg. unfold avg_step. destruct (0 <? _); [by apply rect_set_cell|done]. Qed.

Lemma average_cell_in ah ad m i j :
  in_grid R C (i, j) ->
  body (ah, ad, m) (i, j)
  = Returns (avg_step ah (cell [] first_returns i j) i j,
             avg_step ad (cell [] last_returns i j) i j,
             min_step m (cell S754_nan (avg_step ah (cell [] first_returns i j) i j) i j)).
Proof.
  intros Hin. unfold body, average_cell. simpl.
  rewrite (samples_at_in R C first_returns Hfr), (samples_at_in R C last_returns Hlr) by done.
  done.
Qed.

Lemma average_cell_out s p : ~ in_grid R C p -> body s p = Undefined.
Proof.
  intros Hout. destruct s as [[ah ad] m], p as [i j]. unfold body, average_cell. simpl.
  by rewrite (samples_at_out R C first_returns Hfr).
Qed.

Lemma body_cases s p : body s p = Undefined \/ exists s', body s p = Returns s'.
Proof.
  destruct (decide (in_grid R C p)) as [Hin|Hout].
  - right. destruct s as [[ah ad] m], p as [i j]. rewrite average_cell_in by done. eauto.
  - left. by apply average_cell_out.
Qed.

Lemma average_flat s :
  average first_returns last_returns s = for_each body (positions R R) s.
Proof.
  unfold average. destruct Hfr as [-> _]. apply for_each_nested.
Qed.

(** What the loops leave in the two grids of averages. *)
Lemma average_loop_cells l : forall ah ad m ah' ad' m',
  NoDup l -> rect R C ah -> rect R C ad ->
  for_each body l (ah, ad, m) = Returns (ah', ad', m') ->
  Forall (in_grid R C) l /\ rect R C ah' /\ rect R C ad'
  /\ forall i j,
       cell S754_nan ah' i j
       = (if decide ((i, j) ∈ l)
          then mean_or (cell S754_nan ah i j) (cell [] first_returns i j)
          else cell S754_nan ah i j)
       /\ cell S754_nan ad' i j
          = (if decide ((i, j) ∈ l)
             then mean_or (cell S754_nan ad i j) (cell [] last_returns i j)
             else cell S754_nan ad i j).
Proof.
  induction l as [|[i0 j0] l IH]; intros ah ad m ah' ad' m' Hnd Hah Had Hrun.
  - injection Hrun as <- <- <-. split_and!; [constructor|done|done|].
    intros i j. by rewrite !decide_False by apply not_elem_of_nil.
  - cbn [for_each] in Hrun. apply NoDup_cons in Hnd as [Hnotin Hnd].
    destruct (decide (in_grid R C (i0, j0))) as [Hin|Hout];
      [|by rewrite average_cell_out in Hrun].
    rewrite average_cell_in in Hrun by done. cbn [mbind outcome_bind] in Hrun.
    apply IH in Hrun as (Hl & Hah' & Had' & Hcells);
      [|done|by apply rect_avg_step..].
    split_and!; [by constructor|done|done|].
    intros i j. destruct (Hcells i j) as [-> ->].
    rewrite !cell_avg_step by done.
    destruct (decide ((i0, j0) = (i, j))) as [[= <- <-]|Hne].
    + rewrite !(decide_False (P := (i0, j0) ∈ l)) by done.
      by rewrite !(decide_True (P := (i0, j0) ∈ (i0, j0) :: l)) by left.
    + destruct (decide ((i, j) ∈ l)) as [Hl'|Hl'].
      * rewrite !(decide_True (P := (i, j) ∈ (i0, j0) :: l)) by by right. done.
      * rewrite !(decide_False (P := (i, j) ∈ (i0, j0) :: l)); [done|..];
          intros [?|?]%elem_of_cons; congruence.
Qed.

Lemma min_step_facts m a :
  m <> S754_nan ->
  min_step m a <> S754_nan /\ F32.leb (min_step m a) m = true
  /\ not_below (min_step m a) a.
Proof.
  intros Hm. unfold min_step, not_below.
  destruct (F32.eqb a NODATA_f) eqn:Hnd; simpl.
  { split_and!; [done|by apply leb_refl|auto]. }
  destruct (F32.ltb a m) eqn:Hlt.
  - destruct (ltb_not_nan _ _ Hlt) as [Ha _].
    split_and!; [done|by apply ltb_leb|]. right. right. by apply leb_refl.
  - split_and!; [done|by apply leb_refl|].
    destruct (key a) as [k|] eqn:Hk; [|left; by apply key_nan].
    right. right. apply leb_total; [|done..]. by intros ->.
Qed.

Lemma not_below_trans m m' a :
  F32.leb m' m = true -> not_below m a -> not_below m' a.
Proof.
  intros Hle [?|[?|?]]; [by left|by right; left|].
  right. right. by apply leb_trans with m.
Qed.

(** [min_elevation] after the loops: it is not above its initial value,
    nor above the average of a cell that the loops have visited. *)
Lemma average_loop_min l : forall ah ad m ah' ad' m',
  NoDup l -> rect R C ah -> rect R C ad ->
  for_each body l (ah, ad, m) = Returns (ah', ad', m') ->
  m <> S754_nan ->
  m' <> S754_nan /\ F32.leb m' m = true
  /\ forall p, p ∈ l -> not_below m' (cell S754_nan ah' p.1 p.2).
Proof.
  induction l as [|[i0 j0] l IH]; intros ah ad m ah' ad' m' Hnd Hah Had Hrun Hm.
  - injection Hrun as <- <- <-. split_and!; [done|by apply leb_refl|].
    intros p Hp. by apply elem_of_nil in Hp.
  - cbn [for_each] in Hrun. apply NoDup_cons in Hnd as [Hnotin Hnd].
    destruct (decide (in_grid R C (i0, j0))) as [Hin|Hout];
      [|by rewrite average_cell_out in Hrun].
    rewrite average_cell_in in Hrun by done. cbn [mbind outcome_bind] in Hrun.
    set (ah1 := avg_step ah _ i0 j0) in Hrun.
    destruct (min_step_facts m (cell S754_nan ah1 i0 j0) Hm) as (Hm1 & Hle1 & Hnb1).
    pose proof (average_loop_cells l _ _ _ _ _ _ Hnd
                  (rect_avg_step ah _ i0 j0 Hah) (rect_avg_step ad _ i0 j0 Had) Hrun)
      as (_ & _ & _ & Hcells).
    apply IH in Hrun as (Hm' & Hle & Hl); [|done|by apply rect_avg_step..|done].
    split_and!; [done|by apply leb_trans with (min_step m (cell S754_nan ah1 i0 j0))|].
    intros p [->|Hp]%elem_of_cons; [|by apply Hl].
    simpl. destruct (Hcells i0 j0) as [-> _]. rewrite decide_False by done.
    by apply not_below_trans with (min_step m (cell S754_nan ah1 i0 j0)).
Qed.
End Averaging.

(** ** gridify *)

Lemma for_each_cases {A B} (body : A -> B -> outcome A) l a :
  (forall a y, body a y = Undefined \/ exists a', body a y = Returns a') ->
  for_each body l a = Undefined \/ exists a', for_each body l a = Returns a'.
Proof.
  intros Hbody. revert a. induction l as [|y l IH]; intros a; simpl; [eauto|].
  destruct (Hbody a y) as [->|[a' ->]]; [by left|]. simpl. apply IH.
Qed.

Lemma find_ground_rect lg t isg :
  wf_grid lg -> find_ground lg t = Some isg -> rect (num_rows lg) (num_cols lg) isg.
Proof.
  intros Hwf Hfg. destruct (find_ground_total lg t Hwf) as (isg' & Hfg' & Hrect).
  congruence.
Qed.

Lemma rect_dimensions {A} r c (g : list (list A)) :
  rect r c g -> (0 < r)%nat -> num_rows g = r /\ num_cols g = c.
Proof.
  intros [Hlen Hrows] Hr. split; [done|]. unfold num_cols.
  destruct g as [|row g]; simpl in *; [lia|]. by apply Forall_cons in Hrows as [? _].
Qed.

(** What [gridify] has computed when it returns. *)
Lemma gridify_returns points bb density t g :
  gridify points bb density t = Returns g ->
  exists n rows cols,
    num_cells points density = Returns n
    /\ grid_rows bb (cell_size bb n) = Returns rows
    /\ grid_cols bb (cell_size bb n) = Returns cols
    /\ 1 <= rows <= cols
    /\ rect (Z.to_nat rows) (Z.to_nat cols) (elevation g)
    /\ rect (Z.to_nat rows) (Z.to_nat cols) (g_last_grid g)
    /\ wf_grid (g_last_grid g)
    /\ find_ground (g_last_grid g) t = Some (g_is_ground g)
    /\ (forall i j, 0 <= i < rows -> 0 <= j < cols ->
          cell S754_nan (elevation g) i j
          = (if j <? rows
             then mean_or NODATA_f
                    (samples_in (fun p => return_number p =? 1) bb (cell_size bb n) points i j)
             else NODATA_f)
          /\ cell S754_nan (g_last_grid g) i j
             = (if j <? rows
                then mean_or NODATA_f
                       (samples_in (fun _ => true) bb (cell_size bb n) points i j)
                else NODATA_f))
    /\ (maxz bb <> S754_nan ->
        F32.leb (min_elevation g) (maxz bb) = true
        /\ forall i j, 0 <= i < rows -> 0 <= j < cols ->
             not_below (min_elevation g) (cell S754_nan (elevation g) i j)).
Proof.
  unfold gridify. intros Hrun.
  destruct (num_cells points density) as [n| | |] eqn:Hn; try done.
  cbn [mbind outcome_bind] in Hrun.
  destruct (grid_rows bb (cell_size bb n)) as [rows| | |] eqn:Hrows; try done.
  cbn [mbind outcome_bind] in Hrun.
  destruct (grid_cols bb (cell_size bb n)) as [cols| | |] eqn:Hcols; try done.
  cbn [mbind outcome_bind] in Hrun.
  destruct ((rows <? 0) || (cols <? 0)) eqn:Hneg; [done|].
  set (R := Z.to_nat rows) in *. set (C := Z.to_nat cols) in *.
  destruct (binning bb (cell_size bb n) R C points (make_grid R C []) (make_grid R C [])
              (rect_make_grid R C []) (rect_make_grid R C []))
    as [Hbin|(fr & lr & Hbin & Hfr & Hlr & Hsamples)];
    rewrite Hbin in Hrun; [done|].
  cbn [mbind outcome_bind] in Hrun.
  destruct (average fr lr _) as [[[ah ad] m]| | |] eqn:Havg; try done.
  cbn [mbind outcome_bind] in Hrun.
  destruct (wf_gridb ad) eqn:Hwfb; [|done].
  destruct (find_ground ad t) as [isg|] eqn:Hfg; [|done].
  injection Hrun as <-. simpl.
  rewrite (average_flat R C fr lr Hfr) in Havg.
  pose proof (average_loop_cells R C fr lr Hfr Hlr _ _ _ _ _ _ _ (NoDup_positions R R)
                (rect_make_grid R C NODATA_f) (rect_make_grid R C NODATA_f) Havg)
    as (Hpos & Hah & Had & Hcells).
  pose proof (wf_grid_intro ad Hwfb) as Hwf.
  assert (0 < R)%nat as HR.
  { destruct Hwf as (Hr & _). destruct Had as [Hlen _]. unfold num_rows in Hr. lia. }
  destruct (rect_dimensions R C ad Had HR) as [HnR HnC].
  assert (0 < C)%nat as HC.
  { destruct Hwf as (_ & Hc & _). lia. }
  assert (R <= C)%nat as HRC.
  { rewrite Forall_forall in Hpos.
    destruct (Hpos (0, Z.of_nat R - 1)) as [_ Hj]; [|simpl in Hj; lia].
    apply elem_of_positions. unfold in_grid. simpl. lia. }
  assert (forall i j, 0 <= i < rows -> 0 <= j < cols -> in_grid R C (i, j)) as Hin.
  { intros i j Hi Hj. unfold in_grid, R, C. simpl. lia. }
  exists n, rows, cols. split_and!; [done|done|done|lia|lia|done|done|done|done|..].
  - intros i j Hi Hj. specialize (Hin i j Hi Hj).
    destruct (Hcells i j) as [-> ->]. destruct (Hsamples i j Hin) as [-> ->].
    rewrite !(cell_make_grid R C) by done. simpl.
    destruct (decide ((i, j) ∈ positions R R)) as [Hp|Hp];
      rewrite elem_of_positions in Hp; unfold in_grid in Hp; simpl in Hp.
    + assert ((j <? rows) = true) as -> by lia. done.
    + assert ((j <? rows) = false) as -> by lia. done.
  - intros Hmax.
    destruct (average_loop_min R C fr lr Hfr Hlr _ _ _ _ _ _ _ (NoDup_positions R R)
                (rect_make_grid R C NODATA_f) (rect_make_grid R C NODATA_f) Havg Hmax)
      as (_ & Hle & Hlow).
    split; [done|]. intros i j Hi Hj. specialize (Hin i j Hi Hj).
    destruct (decide ((i, j) ∈ positions R R)) as [Hp|Hp]; [by apply (Hlow (i, j))|].
    destruct (Hcells i j) as [-> _]. rewrite decide_False by done.
    rewrite (cell_make_grid R C) by done. right. by left.
Qed.

(** [gridify] never calls [exit], and it ends with an exception only when
    the number of rows or of columns is negative. *)
Lemma gridify_outcomes points bb density t :
  (exists g, gridify points bb density t = Returns g)
  \/ gridify points bb density t = Undefined
  \/ (gridify points bb density t = Throws
      /\ exists n rows cols,
           num_cells points density = Returns n
           /\ grid_rows bb (cell_size bb n) = Returns rows
           /\ grid_cols bb (cell_size bb n) = Returns cols
           /\ (rows < 0 \/ cols < 0)).
Proof.
  unfold gridify.
  destruct (num_cells points density) as [n| | |] eqn:Hn; try (by right; left);
    try (unfold num_cells in Hn; by destruct (_ =? 0)).
  cbn [mbind outcome_bind].
  destruct (grid_rows bb (cell_size bb n)) as [rows| | |] eqn:Hrows; try (by right; left);
    try (unfold grid_rows, of_option in Hrows; by destruct (F32.to_int _)).
  cbn [mbind outcome_bind].
  destruct (grid_cols bb (cell_size bb n)) as [cols| | |] eqn:Hcols; try (by right; left);
    try (unfold grid_cols, of_option in Hcols; by destruct (F32.to_int _)).
  cbn [mbind outcome_bind].
  destruct ((rows <? 0) || (cols <? 0)) eqn:Hneg.
  { right. right. split; [done|]. exists n, rows, cols. split_and!; [done..|lia]. }
  set (R := Z.to_nat rows). set (C := Z.to_nat cols).
  destruct (binning bb (cell_size bb n) R C points (make_grid R C []) (make_grid R C [])
              (rect_make_grid R C []) (rect_make_grid R C []))
    as [->|(fr & lr & -> & Hfr & Hlr & _)]; [by right; left|].
  cbn [mbind outcome_bind].
  rewrite (average_flat R C fr lr Hfr).
  destruct (for_each_cases (fun s p => average_cell fr lr p.1 s p.2) (positions R R)
              (make_grid R C NODATA_f, make_grid R C NODATA_f, maxz bb))
    as [->|[[[ah ad] m] ->]]; [apply (body_cases R C fr lr Hfr Hlr)|by right; left|].
  cbn [mbind outcome_bind].
  destruct (wf_gridb ad); [|by right; left].
  destruct (find_ground ad t); simpl; [left; eauto|by right; left].
Qed.

(** With no cell to make the cell size is infinite or NaN, and the number
    of rows is zero if it is defined at all. *)
Lemma rows_without_cells h x :
  F32.to_int (F32.ceil (F32.div h (F32.sqrt (F32.div x (S754_zero false))))) = Some 0
  \/ F32.to_int (F32.ceil (F32.div h (F32.sqrt (F32.div x (S754_zero false))))) = None.
Proof.
  destruct x as [[]|[]| |[] mx ex], h as [[]|[]| |[] mh eh]; simpl; auto.
Qed.

(** X8: when [points.size()/point_density] is zero (fewer points than
    [point_density], which is converted to [size_t], so also for a
    negative [point_density]), or [point_density] is zero, [gridify] has
    undefined behaviour, whatever the points and the bounding box. *)
Theorem gridify_without_cells points bb point_density t :
  point_density mod 2 ^ 64 = 0
  \/ Z.of_nat (length points) < point_density mod 2 ^ 64 ->
  gridify points bb point_density t = Undefined.
Proof.
  intros Hd.
  assert (num_cells points point_density = Undefined
          \/ num_cells points point_density = Returns 0) as Hn.
  { unfold num_cells. destruct (Z.eqb_spec (point_density mod 2 ^ 64) 0) as [|Hne]; [by left|].
    right. destruct Hd as [|Hlt]; [done|]. by rewrite Z.div_small by lia. }
  assert (forall n rows, num_cells points point_density = Returns n ->
            grid_rows bb (cell_size bb n) = Returns rows -> rows = 0) as Hrows.
  { intros n rows Hn' Hr. destruct Hn as [Hn|Hn]; rewrite Hn in Hn'; [done|].
    injection Hn' as <-. unfold grid_rows, cell_size in Hr.
    change (F32.of_int 0) with (S754_zero false) in Hr.
    destruct (rows_without_cells (bb_h bb) (F32.mul (bb_h bb) (bb_w bb))) as [Hz|Hz];
      rewrite Hz in Hr; simpl in Hr; congruence. }
  assert (forall n cols, num_cells points point_density = Returns n ->
            grid_cols bb (cell_size bb n) = Returns cols -> cols = 0) as Hcols.
  { intros n cols Hn' Hc. destruct Hn as [Hn|Hn]; rewrite Hn in Hn'; [done|].
    injection Hn' as <-. unfold grid_cols, cell_size in Hc.
    change (F32.of_int 0) with (S754_zero false) in Hc.
    destruct (rows_without_cells (bb_w bb) (F32.mul (bb_h bb) (bb_w bb))) as [Hz|Hz];
      rewrite Hz in Hc; simpl in Hc; congruence. }
  destruct (gridify_outcomes points bb point_density t)
    as [[g Hg]|[Hu|(_ & n & rows & cols & Hn' & Hr & Hc & Hneg)]]; [|done|].
  - apply gridify_returns in Hg as (n & rows & cols & Hn' & Hr & _ & Hpos & _).
    specialize (Hrows n rows Hn' Hr). lia.
  - specialize (Hrows n rows Hn' Hr). specialize (Hcols n cols Hn' Hc). lia.
Qed.

(** X9: with more rows than columns [gridify] has undefined behaviour:
    the inner averaging loop runs up to the number of rows and reads
    [first_returns[0][cols]]. *)
Theorem gridify_more_rows_than_columns points bb point_density t n rows cols :
  num_cells points point_density = Returns n ->
  grid_rows bb (cell_size bb n) = Returns rows ->
  grid_cols bb (cell_size bb n) = Returns cols ->
  0 <= cols < rows ->
  gridify points bb point_density t = Undefined.
Proof.
  intros Hn Hr Hc Hlt.
  destruct (gridify_outcomes points bb point_density t)
    as [[g Hg]|[Hu|(_ & n' & rows' & cols' & Hn' & Hr' & Hc' & Hneg)]]; [|done|].
  - apply gridify_returns in Hg as (n' & rows' & cols' & Hn' & Hr' & Hc' & Hpos & _).
    rewrite Hn in Hn'. injection Hn' as <-.
    rewrite Hr in Hr'. injection Hr' as <-.
    rewrite Hc in Hc'. injection Hc' as <-. lia.
  - rewrite Hn in Hn'. injection Hn' as <-.
    rewrite Hr in Hr'. injection Hr' as <-.
    rewrite Hc in Hc'. injection Hc' as <-. lia.
Qed.

(** X10: when [gridify] returns, the number of rows is positive and not
    above the number of columns, [elevation], [last_grid] and
    [is_ground] have these same dimensions, and [is_ground] is the
    classification of [last_grid] under the threshold. *)
Theorem gridify_grids_share_dimensions points bb point_density t g :
  gridify points bb point_density t = Returns g ->
  (0 < num_rows (g_last_grid g) <= num_cols (g_last_grid g))%nat
  /\ rect (num_rows (g_last_grid g)) (num_cols (g_last_grid g)) (elevation g)
  /\ rect (num_rows (g_last_grid g)) (num_cols (g_last_grid g)) (g_last_grid g)
  /\ rect (num_rows (g_last_grid g)) (num_cols (g_last_grid g)) (g_is_ground g)
  /\ find_ground (g_last_grid g) t = Some (g_is_ground g).
Proof.
  intros Hg.
  destruct (gridify_returns _ _ _ _ _ Hg)
    as (n & rows & cols & _ & _ & _ & Hpos & Helev & Hlg & Hwf & Hfg & _).
  destruct (rect_dimensions _ _ _ Hlg) as [-> ->]; [lia|].
  split_and!; [lia|lia|done|done| |done].
  pose proof (find_ground_rect _ _ _ Hwf Hfg) as Hisg.
  by destruct (rect_dimensions _ _ _ Hlg) as [<- <-]; [lia|].
Qed.

(** X11: when [gridify] returns, a cell whose column index is below the
    number of rows holds, in [elevation], the mean of the heights of
    the points of the cell with [return_number] 1 and, in [last_grid],
    the mean of the heights of all the points of the cell, whatever
    their [return_number]; it holds NODATA when there is no such point.
    A cell whose column index is not below the number of rows holds
    NODATA in both grids. *)
Theorem gridify_cells_hold_averages points bb point_density t g :
  gridify points bb point_density t = Returns g ->
  exists n,
    num_cells points point_density = Returns n
    /\ forall i j,
         in_grid (num_rows (g_last_grid g)) (num_cols (g_last_grid g)) (i, j) ->
         cell S754_nan (elevation g) i j
         = (if j <? Z.of_nat (num_rows (g_last_grid g))
            then mean_or NODATA_f
                   (samples_in (fun p => return_number p =? 1) bb (cell_size bb n) points i j)
            else NODATA_f)
         /\ cell S754_nan (g_last_grid g) i j
            = (if j <? Z.of_nat (num_rows (g_last_grid g))
               then mean_or NODATA_f
                      (samples_in (fun _ => true) bb (cell_size bb n) points i j)
               else NODATA_f).
Proof.
  intros Hg.
  destruct (gridify_returns _ _ _ _ _ Hg)
    as (n & rows & cols & Hn & _ & _ & Hpos & _ & Hlg & _ & _ & Hcells & _).
  destruct (rect_dimensions _ _ _ Hlg) as [-> ->]; [lia|].
  exists n. split; [done|]. intros i j [Hi Hj]. simpl in Hi, Hj.
  rewrite Z2Nat.id by lia. apply Hcells; lia.
Qed.

(** X12: when [gridify] returns and [maxz] is not NaN, [min_elevation] is
    not above [maxz], nor above the height of a cell of [elevation]
    that holds data. *)
Theorem gridify_min_elevation_is_lower_bound points bb point_density t g :
  gridify points bb point_density t = Returns g ->
  maxz bb <> S754_nan ->
  F32.leb (min_elevation g) (maxz bb) = true
  /\ forall i j,
       cell S754_nan (elevation g) i j <> S754_nan ->
       F32.eqb (cell S754_nan (elevation g) i j) NODATA_f = false ->
       F32.leb (min_elevation g) (cell S754_nan (elevation g) i j) = true.
Proof.
  intros Hg Hmax.
  destruct (gridify_returns _ _ _ _ _ Hg)
    as (n & rows & cols & _ & _ & _ & Hpos & Helev & _ & _ & _ & _ & Hmin).
  destruct (Hmin Hmax) as [Hle Hlow]. split; [done|].
  intros i j Hnan Hdata.
  destruct (decide (in_grid (Z.to_nat rows) (Z.to_nat cols) (i, j))) as [[Hi Hj]|Hout].
  - simpl in Hi, Hj. destruct (Hlow i j) as [?|[Hnd|?]]; [lia|lia|done| |done].
    by rewrite Hnd in Hdata.
  - by rewrite (cell_outside _ _ _ _ _ _ Helev Hout) in Hnan.
Qed.

(** ** The labels that find_ground gives *)

Section Labelling.
Variable lg : list (list spec_float).
Variable t : spec_float.
Hypothesis Hwf : wf_grid lg.

Local Abbreviation r := (num_rows lg).
Local Abbreviation c := (num_cols lg).

(** The result of [find_ground] is the grid of labels of a state that
    satisfies the invariant of the loops. *)
Lemma find_ground_inv isg :
  find_ground lg t = Some isg -> exists st, run lg t = Some st /\ inv lg st /\ isg = is_ground st.
Proof.
  intros Hfg. destruct (classify_run lg t Hwf (fun _ => True)) as (st & Hrun & Hinv & _); [done..|].
  exists st. unfold find_ground in Hfg. rewrite Hrun in Hfg. by injection Hfg as <-.
Qed.

Lemma data_cell_open i j :
  data_cell lg (i, j) -> open_cell lg (make_grid r c (-1)) (i, j) = true.
Proof.
  intros [_ Hd]. simpl in Hd. unfold open_cell. simpl.
  by rewrite Hd, (label_make_grid lg).
Qed.

Lemma count_data_pos p : data_cell lg p -> 0 < count_data lg.
Proof.
  intros [Hin Hd]. rewrite (count_data_eq lg Hwf).
  destruct (count_if (fun p => negb (F32.eqb (height lg p.1 p.2) NODATA_f))
              (positions r c)) as [|n] eqn:Hn; [|lia].
  pose proof (count_if_zero _ _ p Hn) as Hz. simpl in Hz.
  rewrite Hd in Hz. discriminate Hz. by apply elem_of_positions.
Qed.

(** X1: [find_ground] returns a grid with the dimensions of the DepthGrid,
    and every entry of it is -1, 0 or 1. *)
Theorem find_ground_dimensions_and_labels :
  exists isg, find_ground lg t = Some isg
    /\ length isg = length lg
    /\ Forall (fun row => length row = c) isg
    /\ forall i j, label isg i j = -1 \/ label isg i j = 0 \/ label isg i j = 1.
Proof.
  destruct (find_ground_total lg t Hwf) as (isg & Hfg & _).
  destruct (find_ground_inv isg Hfg) as (st & _ & Hinv & ->).
  exists (is_ground st). destruct (inv_rect _ _ Hinv) as [Hlen Hrows].
  split_and!; [done|done|done|]. apply (inv_labels _ _ Hinv).
Qed.

(** X2: whatever the heights and the threshold, a cell without data other
    than (0, 0) is left unclassified (-1), and so is every index outside
    the grid. *)
Theorem find_ground_leaves_nodata_unlabelled :
  exists isg, find_ground lg t = Some isg
    /\ forall i j, (i, j) <> (0, 0) -> ~ data_cell lg (i, j) -> label isg i j = -1.
Proof.
  destruct (classify_run lg t Hwf (fun st =>
      forall i j, label (is_ground st) i j <> -1 ->
        (i, j) = (0, 0) \/ data_cell lg (i, j)))
    as (st & Hrun & Hinv & Hlab & _).
  - intros i j. simpl. by rewrite (label_make_grid lg).
  - intros st Hinv Hlab _ _ i j. rewrite (label_seed lg Hwf) by done.
    destruct (decide _) as [Heq|_]; [|apply Hlab]. intros _.
    destruct (find_lowest_cases lg Hwf (is_ground st)) as [Hdef|(Hin & Hopen & _)].
    + rewrite Hdef in Heq. left. by rewrite <- Heq.
    + right. rewrite <- Heq. by apply open_data_cell with (is_ground st).
  - intros st current st' Hinv Hlab Hpop.
    destruct (inv_pop _ _ _ _ Hinv Hpop) as (Hinv' & _).
    pose proof (pop_fields _ _ _ Hpop) as (_ & Hisg & _).
    apply (expand_ind lg t (fun st => forall i j, label (is_ground st) i j <> -1 ->
             (i, j) = (0, 0) \/ data_cell lg (i, j))); [|done|by rewrite Hisg].
    intros s [di dj] _ Hs Hls.
    destruct (visit_cases lg t current
      (negb (label (is_ground st') (pt_x current) (pt_y current) =? 0)) s di dj)
      as [[-> _]|(_ & Hin & _ & Hdata & [[_ ->]|(_ & _ & ->)])]; [done|..];
      intros i j; simpl; rewrite (label_set_cell lg) by (done || apply Hs);
      (destruct (decide _) as [[= <- <-]|_]; [by right|apply Hls]).
  - exists (is_ground st). unfold find_ground. rewrite Hrun. split; [done|].
    intros i j Hne Hno. destruct (decide (label (is_ground st) i j = -1)) as [|Hl]; [done|].
    by destruct (Hlab i j Hl).
Qed.

(** X3: when every height that is not NODATA is below [BIGINT] and some
    cell holds data, [find_ground] classifies exactly the cells that
    hold data: each of them is Ground (1) or Building (0), and every other
    cell is left unclassified. *)
Theorem find_ground_labels_every_data_cell :
  below_BIGINT lg -> (exists p, data_cell lg p) ->
  exists isg, find_ground lg t = Some isg
    /\ forall i j,
         (data_cell lg (i, j) -> label isg i j = 0 \/ label isg i j = 1)
         /\ (~ data_cell lg (i, j) -> label isg i j = -1).
Proof.
  intros Hbelow [p Hp].
  destruct (run_labels_data lg t Hwf Hbelow (count_data_pos p Hp)) as (st & Hrun & Hl).
  exists (is_ground st). unfold find_ground. by rewrite Hrun.
Qed.

(** The first scan selects a cell that is strictly lower than the
    others. *)
Lemma find_lowest_strict_minimum p :
  data_cell lg p -> F32.ltb (height lg p.1 p.2) BIGINT_f = true ->
  (forall p', data_cell lg p' -> p' <> p ->
     F32.ltb (height lg p.1 p.2) (height lg p'.1 p'.2) = true) ->
  seed_cell (find_lowest lg (make_grid r c (-1))) = p.
Proof.
  intros Hp Hlow Hmin. destruct p as [i j].
  pose proof (data_cell_open i j Hp) as Hopen. destruct Hp as [Hin Hd].
  destruct (find_lowest_first_minimum lg Hwf (make_grid r c (-1))) as [Hnone Hcase].
  destruct Hcase as [Hinit|((Hin' & Hopen' & Hh) & _)].
  - by destruct (open_below_real lg Hwf _ (i, j) Hin Hopen Hlow).
  - destruct (decide (seed_cell (find_lowest lg (make_grid r c (-1))) = (i, j)))
      as [|Hne]; [done|].
    specialize (Hnone (i, j) Hin Hopen). rewrite Hh in Hnone.
    assert (data_cell lg (seed_cell (find_lowest lg (make_grid r c (-1))))) as Hd'.
    { by apply open_data_cell with (make_grid r c (-1)). }
    pose proof (Hmin _ Hd' Hne) as Hlt.
    unfold seed_cell in Hlt. cbn [fst snd] in Hlt, Hnone. congruence.
Qed.

(** X4: a cell that holds data, below [BIGINT] and strictly below every
    other cell that holds data, is Ground (1) under every threshold: the
    first scan selects it, and a Ground label is never replaced. *)
Theorem find_ground_lowest_cell_is_ground p :
  data_cell lg p -> F32.ltb (height lg p.1 p.2) BIGINT_f = true ->
  (forall p', data_cell lg p' -> p' <> p ->
     F32.ltb (height lg p.1 p.2) (height lg p'.1 p'.2) = true) ->
  exists isg, find_ground lg t = Some isg /\ label isg p.1 p.2 = 1.
Proof.
  intros Hp Hlow Hmin.
  pose proof (find_lowest_strict_minimum p Hp Hlow Hmin) as Hseed.
  destruct (classify_run lg t Hwf (fun st =>
      st = init_state lg \/ label (is_ground st) p.1 p.2 = 1))
    as (st & Hrun & Hinv & [->|Hl] & _ & _ & Hs).
  - by left.
  - intros st Hinv [->|Hl] _ _; right.
    + rewrite (label_seed lg Hwf) by done. simpl. rewrite Hseed.
      destruct p. by rewrite decide_True.
    + by apply ground_kept_seed.
  - intros st current st' Hinv [->|Hl] Hpop; [done|]. right.
    destruct (inv_pop _ _ _ _ Hinv Hpop) as (Hinv' & _).
    pose proof (pop_fields _ _ _ Hpop) as (_ & Hisg & _).
    apply ground_kept_expand; [done|by rewrite Hisg].
  - simpl in Hs. lia.
  - exists (is_ground st). unfold find_ground. by rewrite Hrun.
Qed.

Lemma all_ground_visit current st0 st d :
  no_steep_step lg t -> d ∈ directions ->
  label (is_ground st0) (pt_x current) (pt_y current) <> 0 ->
  pt_z current = height lg (pt_x current) (pt_y current) ->
  data_cell lg (pt_x current, pt_y current) ->
  inv lg st -> all_ground lg st ->
  all_ground lg (visit lg t current
                   (negb (label (is_ground st0) (pt_x current) (pt_y current) =? 0)) st d).
Proof.
  intros Hlevel Hd Hcur Hz Hdc Hinv (Hlab & Hq). destruct d as [di dj].
  assert (negb (label (is_ground st0) (pt_x current) (pt_y current) =? 0) = true)
    as -> by lia.
  destruct (visit_cases lg t current true st di dj)
    as [[-> _]|(Hcompass & Hin & _ & Hdata & [[_ ->]|(_ & Hsteep & _)])]; [done|..].
  - split; simpl.
    + intros i j. rewrite (label_set_cell lg) by (done || apply Hinv).
      destruct (decide _); [done|apply Hlab].
    + apply Forall_app. split; [done|]. constructor; [|constructor]. by split.
  - rewrite Hz in Hsteep.
    pose proof (Hlevel (pt_x current, pt_y current) (di, dj) Hdc Hd Hcompass) as Hns.
    simpl in Hns. rewrite Hns in Hsteep; done.
Qed.

(** X5: when no step between two neighbouring cells that hold data is
    steep under the threshold (and the heights are below [BIGINT]),
    [find_ground] labels no cell Building: every cell that holds data is
    Ground, every other cell unclassified. *)
Theorem find_ground_without_steep_step_all_ground :
  below_BIGINT lg -> (exists p, data_cell lg p) -> no_steep_step lg t ->
  exists isg, find_ground lg t = Some isg
    /\ forall i j, label isg i j = if decide (data_cell lg (i, j)) then 1 else -1.
Proof.
  intros Hbelow [p Hp] Hlevel.
  pose proof (count_data_pos p Hp) as Hsome.
  destruct (run_labels_data lg t Hwf Hbelow Hsome) as (st & Hrun & Hl).
  destruct (classify_run lg t Hwf (fun st =>
      (seedings st = 0%nat -> st = init_state lg) /\ all_ground lg st))
    as (st' & Hrun' & _ & (_ & Hlab & _) & _).
  - split; [done|]. split; simpl; [|constructor].
    intros i j. by rewrite (label_make_grid lg).
  - intros s Hinv (Hfirst & Hlab & Hq) _ Hcase.
    split; [destruct (seed_fields lg s) as [-> _]; done|].
    assert (0 < unclassified_count s) as Hpos.
    { destruct Hcase as [Hzero|Hpos]; [|done]. by rewrite (Hfirst Hzero). }
    pose proof (seed_candidate lg Hwf s Hbelow Hinv Hpos) as (Hin & Hopen & Hh).
    split.
    + intros i j. rewrite (label_seed lg Hwf) by done. destruct (decide _); [done|apply Hlab].
    + rewrite queue_seed. apply Forall_app. split; [done|].
      constructor; [|constructor]. simpl. split; [done|].
      by apply open_data_cell with (is_ground s).
  - intros s current s' Hinv (Hfirst & Hlab & Hq) Hpop.
    destruct (inv_pop _ _ _ _ Hinv Hpop) as (Hinv' & _).
    pose proof (pop_fields _ _ _ Hpop) as (Hqs & Hisg & _ & _ & Hsd).
    rewrite Hqs in Hq. apply Forall_cons in Hq as [[Hz Hdc] Hq].
    split.
    + rewrite seedings_expand, Hsd by done. intros Hzero.
      rewrite (Hfirst Hzero) in Hqs. done.
    + apply (expand_ind lg t (all_ground lg)); [|done|].
      * intros s1 d Hd Hs1 Ha1. apply all_ground_visit; [done|done| |done..].
        rewrite Hisg. apply Hlab.
      * split; [by rewrite Hisg|done].
  - rewrite Hrun in Hrun'. injection Hrun' as <-.
    exists (is_ground st). unfold find_ground. rewrite Hrun. split; [done|].
    intros i j. destruct (Hl i j) as [Hd Hn]. destruct (decide _) as [Hdata|Hno].
    + destruct (Hd Hdata) as [H0|H1]; [by destruct (Hlab i j)|done].
    + by apply Hn.
Qed.
End Labelling.

(** ** Reading a grid *)

Section Access.
Context {A : Type}.
Variables R C : nat.
Variable g : list (list A).
Hypothesis Hrect : rect R C g.

Lemma at2_in d i j : in_grid R C (i, j) -> at2 g i j = Returns (cell d g i j).
Proof.
  intros [[Hi0 Hi] [Hj0 Hj]]; simpl in *. destruct Hrect as [Hlen Hrows].
  unfold at2, cell. assert ((0 <=? i) && (0 <=? j) = true) as -> by lia.
  destruct (lookup_lt_is_Some_2 g (Z.to_nat i)) as [row Hrow]; [lia|].
  rewrite Hrow. simpl.
  destruct (lookup_lt_is_Some_2 row (Z.to_nat j)) as [x Hx];
    [rewrite (Forall_lookup_1 _ _ _ _ Hrows Hrow); lia|].
  by rewrite Hx.
Qed.

Lemma row_length i :
  0 <= i < Z.of_nat R -> length (default [] (g !! Z.to_nat i)) = C.
Proof.
  intros Hi. destruct Hrect as [Hlen Hrows].
  destruct (lookup_lt_is_Some_2 g (Z.to_nat i)) as [row Hrow]; [lia|].
  rewrite Hrow. simpl. by apply (Forall_lookup_1 _ _ _ _ Hrows Hrow).
Qed.
End Access.

(** ** Loops that append to a list of calls *)

Lemma for_each_ext_in {A B} (body body' : A -> B -> outcome A) l a :
  (forall a x, x ∈ l -> body a x = body' a x) ->
  for_each body l a = for_each body' l a.
Proof.
  revert a. induction l as [|x l IH]; intros a Hext; simpl; [done|].
  rewrite Hext by left. destruct (body' a x); simpl; try done.
  apply IH. intros a' y Hy. apply Hext. by right.
Qed.

Lemma count_if_app {A} (f : A -> bool) l1 l2 :
  count_if f (l1 ++ l2) = (count_if f l1 + count_if f l2)%nat.
Proof. induction l1 as [|x l1 IH]; simpl; [done|]. rewrite IH. lia. Qed.

(** A loop whose body appends calls: the calls of each iteration. *)
Lemma for_each_appends {A B} (body : list A -> B -> outcome (list A))
    (P : B -> list A -> Prop) l a :
  (forall a x, x ∈ l -> exists k, body a x = Returns (a ++ k) /\ P x k) ->
  exists ks, for_each body l a = Returns (a ++ concat ks) /\ Forall2 P l ks.
Proof.
  revert a. induction l as [|x l IH]; intros a Hbody; simpl.
  - exists []. simpl. by rewrite app_nil_r.
  - destruct (Hbody a x) as (k & -> & Hk); [left|]. simpl.
    destruct (IH (a ++ k)) as (ks & -> & Hks).
    { intros a' y Hy. apply Hbody. by right. }
    exists (k :: ks). simpl. rewrite <- app_assoc. split; [done|]. by constructor.
Qed.

Lemma count_if_concat {A B} (f : A -> bool) (l : list B) (ks : list (list A)) n :
  Forall2 (fun _ k => count_if f k = n) l ks ->
  count_if f (concat ks) = (length l * n)%nat.
Proof.
  induction 1 as [|x k l ks Hk _ IH]; simpl; [done|].
  rewrite count_if_app, Hk, IH. done.
Qed.

Lemma elem_of_concat_Forall2 {A B} (P : B -> list A -> Prop) l ks c :
  Forall2 P l ks -> c ∈ concat ks -> exists x k, x ∈ l /\ P x k /\ c ∈ k.
Proof.
  induction 1 as [|x k l ks Hk _ IH]; simpl; intros Hc.
  - by apply elem_of_nil in Hc.
  - apply elem_of_app in Hc as [Hc|Hc].
    + exists x, k. split_and!; [left|done|done].
    + destruct (IH Hc) as (y & k' & Hy & HP & Hc'). exists y, k'. split_and!; [by right|done..].
Qed.

(** Two nested loops whose inner bound is the same for every row. *)
Lemma for_each_rows {A} (body : Z -> A -> Z -> outcome A) (bound : Z -> Z) n m a :
  (forall i, 0 <= i < n -> bound i = m) ->
  for_each (fun a i => for_each (body i) (seqZ 0 (bound i)) a) (seqZ 0 n) a
  = for_each (fun a p => body p.1 a p.2)
             (i ← seqZ 0 n; (fun j => (i, j)) <$> seqZ 0 m) a.
Proof.
  intros Hbound. rewrite <- for_each_nested. apply for_each_ext_in.
  intros a' i Hi. apply elem_of_seqZ in Hi. by rewrite Hbound by lia.
Qed.


(** ** draw_ground *)

Lemma draw_ground_loops bb min_elevation (lg : list (list spec_float)) isg :
  (0 < num_rows lg)%nat ->
  draw_ground bb min_elevation lg isg
  = (calls ←
       for_each
         (fun calls i =>
            for_each (ground_cell bb min_elevation lg isg
                        (to_int32 (Z.of_nat (num_rows lg))) (to_int32 (Z.of_nat (num_cols lg))) i)
                     (seqZ 0 (Z.of_nat (length (default [] (lg !! Z.to_nat i))))) calls)
         (seqZ 0 (Z.of_nat (num_rows lg))) [glBegin GL_POINTS];
     Returns (calls ++ [glEnd])).
Proof. intros Hr. destruct lg as [|row0 lg]; [simpl in Hr; lia|done]. Qed.

Section DrawGround.
Variable bb : bbox.
Variable min_elevation : spec_float.
Variable lg : list (list spec_float).
Variable isg : list (list Z).
Hypothesis Hwf : wf_grid lg.
Hypothesis Hisg : rect (num_rows lg) (num_cols lg) isg.

Local Abbreviation r := (num_rows lg).
Local Abbreviation c := (num_cols lg).

Lemma ground_cell_in nr nc i j calls :
  in_grid r c (i, j) ->
  exists k, ground_cell bb min_elevation lg isg nr nc i calls j = Returns (calls ++ k)
            /\ drawn lg isg (i, j) k.
Proof.
  intros Hin. destruct Hwf as (_ & _ & Hlg). unfold ground_cell, drawn. simpl.
  rewrite (at2_in r c lg Hlg S754_nan) by done. cbn [mbind outcome_bind].
  fold (height lg i j).
  destruct (F32.eqb (height lg i j) NODATA_f); cbn [mbind outcome_bind].
  - eexists. split; [done|]. by eexists _, _, _.
  - rewrite (at2_in r c isg Hisg (-1)) by done. cbn [mbind outcome_bind].
    fold (label isg i j). eexists. split; [done|]. by eexists _, _, _.
Qed.

Lemma draw_ground_calls :
  exists ks,
    draw_ground bb min_elevation lg isg
    = Returns ([glBegin GL_POINTS] ++ concat ks ++ [glEnd])
    /\ Forall2 (drawn lg isg) (positions r c) ks.
Proof.
  pose proof Hwf as (Hr & Hc & Hlg). rewrite draw_ground_loops by done.
  rewrite (for_each_rows _ _ _ (Z.of_nat c)).
  - destruct (for_each_appends
                (fun calls p =>
                   ground_cell bb min_elevation lg isg
                     (to_int32 (Z.of_nat r)) (to_int32 (Z.of_nat c)) p.1 calls p.2)
                (drawn lg isg) (positions r c) [glBegin GL_POINTS]) as (ks & Hrun & Hks).
    + intros calls [i j] Hp. apply elem_of_positions in Hp. by apply ground_cell_in.
    + exists ks. unfold positions in Hrun.
      rewrite Hrun. simpl. by split.
  - intros i Hi. f_equal. by apply (row_length r c).
Qed.
End DrawGround.

(** X13: on the classification that [find_ground] returns, [draw_ground]
    reads no label out of range and draws, between [glBegin(GL_POINTS)]
    and [glEnd], one vertex for every cell of the grid, each after a
    call that sets its colour; when the heights are below [BIGINT] no
    vertex is drawn in green, the colour of unclassified cells. *)
Theorem draw_ground_after_find_ground bb min_elevation lg t isg :
  wf_grid lg -> find_ground lg t = Some isg ->
  exists calls,
    draw_ground bb min_elevation lg isg = Returns ([glBegin GL_POINTS] ++ calls ++ [glEnd])
    /\ count_if is_vertex calls = (num_rows lg * num_cols lg)%nat
    /\ count_if is_colour calls = (num_rows lg * num_cols lg)%nat
    /\ (forall c, c ∈ calls -> is_vertex c = true \/ is_colour c = true)
    /\ (below_BIGINT lg -> glColor green ∉ calls).
Proof.
  intros Hwf Hfg.
  pose proof (find_ground_rect lg t isg Hwf Hfg) as Hrect.
  destruct (find_ground_inv lg t Hwf isg Hfg) as (st & Hst & Hinv & Hisg).
  pose proof (inv_labels _ _ Hinv) as Hlab. rewrite <- Hisg in Hlab.
  destruct (draw_ground_calls bb min_elevation lg isg Hwf Hrect) as (ks & Hrun & Hks).
  assert (forall p k, drawn lg isg p k ->
            count_if is_vertex k = 1%nat /\ count_if is_colour k = 1%nat
            /\ forall c, c ∈ k -> is_vertex c = true \/ is_colour c = true) as Hone.
  { intros [i j] k (x & y & z & ->). simpl.
    assert (forall u c, c ∈ [glColor u; glVertex3f x y z] ->
              is_vertex c = true \/ is_colour c = true) as Hin.
    { intros u c [->|[->|Hc]%elem_of_cons]%elem_of_cons; [by right|by left|].
      by apply elem_of_nil in Hc. }
    destruct (F32.eqb _ _); [split_and!; [done|done|apply Hin]|].
    destruct (Hlab i j) as [Hl|[Hl|Hl]]; rewrite Hl; simpl;
      (split_and!; [done|done|apply Hin]). }
  exists (concat ks). split_and!; [done|..].
  - rewrite <- (length_positions (num_rows lg) (num_cols lg)), <- (Nat.mul_1_r (length _)).
    apply count_if_concat. eapply Forall2_impl; [exact Hks|]. intros p k Hd.
    by destruct (Hone p k Hd).
  - rewrite <- (length_positions (num_rows lg) (num_cols lg)), <- (Nat.mul_1_r (length _)).
    apply count_if_concat. eapply Forall2_impl; [exact Hks|]. intros p k Hd.
    by destruct (Hone p k Hd) as (_ & ? & _).
  - intros c Hc.
    destruct (elem_of_concat_Forall2 _ _ _ _ Hks Hc) as (p & k & _ & Hd & Hck).
    destruct (Hone p k Hd) as (_ & _ & Hk). by apply Hk.
  - intros Hbelow Hgreen.
    destruct (elem_of_concat_Forall2 _ _ _ _ Hks Hgreen)
      as ([i j] & k & Hp & (x & y & z & ->) & Hck).
    apply elem_of_positions in Hp. simpl in Hck.
    destruct (F32.eqb (height lg i j) NODATA_f) eqn:Hdata.
    { apply elem_of_cons in Hck as [Heq|Hck]; [done|].
      apply elem_of_cons in Hck as [Heq|Hck]; [done|]. by apply elem_of_nil in Hck. }
    assert (data_cell lg (i, j)) as Hd by done.
    destruct (run_labels_data lg t Hwf Hbelow (count_data_pos lg Hwf _ Hd))
      as (st' & Hst' & Hall).
    rewrite Hst in Hst'. injection Hst' as <-. rewrite <- Hisg in Hall.
    destruct (Hall i j) as [Hcase _].
    destruct (Hcase Hd) as [Hl|Hl]; rewrite Hl in Hck; simpl in Hck;
      (apply elem_of_cons in Hck as [Heq|Hck]; [done|];
       apply elem_of_cons in Hck as [Heq|Hck]; [done|]; by apply elem_of_nil in Hck).
Qed.

(** ** draw_hill_shade *)

Lemma size_minus_1_le {A} (v : list A) :
  (0 < length v)%nat -> 0 <= size_minus_1 v <= Z.of_nat (length v) - 1.
Proof.
  intros Hpos. unfold size_minus_1.
  pose proof (Z.mod_pos_bound (Z.of_nat (length v) - 1) (2 ^ 64)) as Hb.
  pose proof (Z.mod_le (Z.of_nat (length v) - 1) (2 ^ 64)). lia.
Qed.

Lemma size_minus_1_small {A} (v : list A) :
  (0 < length v)%nat -> Z.of_nat (length v) <= 2 ^ 64 ->
  size_minus_1 v = Z.of_nat (length v) - 1.
Proof. intros Hpos Hsmall. unfold size_minus_1. apply Z.mod_small. lia. Qed.

Lemma draw_hill_shade_loops bb (elevation : list (list spec_float)) min_elevation :
  (0 < num_rows elevation)%nat ->
  draw_hill_shade bb elevation min_elevation
  = (calls ←
       for_each
         (fun calls i =>
            for_each (shade_cell bb elevation min_elevation
                        (to_int32 (Z.of_nat (num_rows elevation)))
                        (to_int32 (Z.of_nat (num_cols elevation))) i)
                     (seqZ 0 (size_minus_1 (default [] (elevation !! Z.to_nat i)))) calls)
         (seqZ 0 (size_minus_1 elevation)) [glBegin GL_TRIANGLES];
     Returns (calls ++ [glEnd])).
Proof. intros Hr. destruct elevation as [|row0 lg]; [simpl in Hr; lia|done]. Qed.

Section DrawHillShade.
Variable bb : bbox.
Variable min_elevation : spec_float.
Variable elevation : list (list spec_float).
Variables R C : nat.
Hypothesis Hrect : rect R C elevation.
Hypothesis HR : (0 < R)%nat.
Hypothesis HC : (0 < C)%nat.

Lemma shade_cell_in nr nc i j calls :
  0 <= i < Z.of_nat R - 1 -> 0 <= j < Z.of_nat C - 1 ->
  exists k, shade_cell bb elevation min_elevation nr nc i calls j = Returns (calls ++ k)
            /\ two_triangles k.
Proof.
  intros Hi Hj. unfold shade_cell.
  rewrite !(at2_in R C elevation Hrect S754_nan) by (unfold in_grid; simpl; lia).
  cbn [mbind outcome_bind]. eexists. split; [reflexivity|].
  unfold two_triangles. eexists _, _, _, _, _, _, _, _. split; [reflexivity|].
  by repeat constructor.
Qed.

Lemma draw_hill_shade_calls :
  exists ks,
    draw_hill_shade bb elevation min_elevation
    = Returns ([glBegin GL_TRIANGLES] ++ concat ks ++ [glEnd])
    /\ Forall2 (fun _ k => two_triangles k)
         (i ← seqZ 0 (size_minus_1 elevation);
          (fun j => (i, j)) <$> seqZ 0 ((Z.of_nat C - 1) mod 2 ^ 64)) ks.
Proof.
  destruct (rect_dimensions R C elevation Hrect HR) as [HnR HnC].
  pose proof Hrect as [Hlen _].
  rewrite draw_hill_shade_loops by lia.
  pose proof (size_minus_1_le elevation) as HbR. rewrite Hlen in HbR. specialize (HbR HR).
  assert (0 <= (Z.of_nat C - 1) mod 2 ^ 64 <= Z.of_nat C - 1) as HbC.
  { pose proof (Z.mod_pos_bound (Z.of_nat C - 1) (2 ^ 64)).
    pose proof (Z.mod_le (Z.of_nat C - 1) (2 ^ 64)). lia. }
  rewrite (for_each_rows _ _ _ ((Z.of_nat C - 1) mod 2 ^ 64)).
  - destruct (for_each_appends
                (fun calls p =>
                   shade_cell bb elevation min_elevation
                     (to_int32 (Z.of_nat (num_rows elevation)))
                     (to_int32 (Z.of_nat (num_cols elevation))) p.1 calls p.2)
                (fun _ k => two_triangles k)
                (i ← seqZ 0 (size_minus_1 elevation);
                 (fun j => (i, j)) <$> seqZ 0 ((Z.of_nat C - 1) mod 2 ^ 64))
                [glBegin GL_TRIANGLES]) as (ks & Hrun & Hks).
    + intros calls [i j] Hp. apply list_elem_of_bind in Hp as (i' & Hp & Hi).
      apply list_elem_of_fmap in Hp as (j' & [= -> ->] & Hj).
      apply elem_of_seqZ in Hi, Hj. apply shade_cell_in; simpl; lia.
    + exists ks. rewrite Hrun. simpl. by split.
  - intros i Hi. unfold size_minus_1. by rewrite (row_length R C elevation Hrect) by lia.
Qed.
End DrawHillShade.

Lemma count_two_triangles k :
  two_triangles k -> count_if is_vertex k = 6%nat /\ count_if is_colour k = 2%nat.
Proof.
  intros (c1 & a1 & a2 & a3 & c2 & b1 & b2 & b3 & -> & Hv).
  assert (forall v, is_vertex v = true -> is_colour v = false) as Hvc by by intros [].
  repeat (apply Forall_cons in Hv as [? Hv]).
  cbn [count_if glColor is_vertex is_colour].
  rewrite !Hvc by done.
  repeat match goal with H : is_vertex _ = true |- _ => rewrite H; clear H end.
  done.
Qed.

Lemma length_pairs n m :
  0 <= n -> 0 <= m ->
  length (i ← seqZ 0 n; (fun j => (i, j)) <$> seqZ 0 m) = (Z.to_nat n * Z.to_nat m)%nat.
Proof.
  intros Hn Hm.
  pose proof (length_positions (Z.to_nat n) (Z.to_nat m)) as Hlen.
  unfold positions in Hlen. by rewrite !Z2Nat.id in Hlen by done.
Qed.

(** X14: on a rectangular elevation grid with a cell at least,
    [draw_hill_shade] reads no height out of range and draws two
    triangles, each with its colour, for every square of four
    neighbouring cells: none when the grid has one row or one column. *)
Theorem draw_hill_shade_two_triangles_per_cell bb min_elevation elevation R C :
  rect R C elevation -> (0 < R)%nat -> (0 < C)%nat ->
  Z.of_nat R <= 2 ^ 64 -> Z.of_nat C <= 2 ^ 64 ->
  exists calls,
    draw_hill_shade bb elevation min_elevation
    = Returns ([glBegin GL_TRIANGLES] ++ calls ++ [glEnd])
    /\ count_if is_vertex calls = (6 * ((R - 1) * (C - 1)))%nat
    /\ count_if is_colour calls = (2 * ((R - 1) * (C - 1)))%nat.
Proof.
  intros Hrect HR HC HsR HsC.
  destruct (draw_hill_shade_calls bb min_elevation elevation R C Hrect HR HC)
    as (ks & Hrun & Hks).
  pose proof Hrect as [Hlen _].
  rewrite size_minus_1_small in Hks by lia. rewrite Z.mod_small in Hks by lia.
  exists (concat ks). split; [done|].
  assert (length (i ← seqZ 0 (Z.of_nat (length elevation) - 1);
                  (fun j => (i, j)) <$> seqZ 0 (Z.of_nat C - 1))
          = ((R - 1) * (C - 1))%nat) as Hpairs.
  { rewrite length_pairs by lia. rewrite Hlen. f_equal; lia. }
  set (cells := _ ≫= _) in Hks, Hpairs.
  split.
  - rewrite (count_if_concat is_vertex cells ks 6); [lia|].
    eapply Forall2_impl; [exact Hks|]. intros p k Hk. by destruct (count_two_triangles k Hk).
  - rewrite (count_if_concat is_colour cells ks 2); [lia|].
    eapply Forall2_impl; [exact Hks|]. intros p k Hk. by destruct (count_two_triangles k Hk).
Qed.

(** ** ztoscreen *)

Lemma add_inf_or_nan x y : inf_or_nan y -> inf_or_nan (F32.add x y).
Proof. destruct y as [|sy| |]; try done; destruct x as [|sx| |]; try done; by destruct sx, sy. Qed.

(** X15: when the lowest and the highest point have the same height
    ([maxz = minz]), [ztoscreen] divides by zero: the depth that it
    returns is infinite or NaN for every height. *)
Theorem ztoscreen_flat_terrain bb z :
  maxz bb = minz bb -> inf_or_nan (ztoscreen bb z).
Proof.
  intros Hflat. unfold ztoscreen. rewrite Hflat.
  assert (zero_or_nan (F32.sub (minz bb) (minz bb))) as Hzero.
  { by destruct (sub_self (minz bb)) as [-> | ->]. }
  pose proof (add_inf_or_nan (F32.of_int (-1)) _
                (div_by_zero_or_nan (F32.mul (F32.of_int 2) (F32.sub z (minz bb))) _ Hzero))
    as Hinner.
  by destruct (F32.add _ _) as [|[]| |].
Qed.

(** ** The event handlers *)

Lemma wf_gridb_true g : wf_grid g -> wf_gridb g = true.
Proof.
  intros (Hr & Hc & _ & Hrows). unfold wf_gridb.
  apply andb_true_intro. split; [apply andb_true_intro; split; by apply Nat.ltb_lt|].
  apply forallb_forall. intros row Hrow. apply Nat.eqb_eq.
  rewrite Forall_forall in Hrows. by apply Hrows, list_elem_of_In.
Qed.

Lemma reclassify_consistent s t :
  consistent s ->
  exists isg,
    reclassify s t = Returns (set_threshold s t isg, [glutPostRedisplay])
    /\ consistent (set_threshold s t isg).
Proof.
  intros (Hwf & Helev & Hfg & Hc & Hw). unfold reclassify.
  rewrite wf_gridb_true by done.
  destruct (find_ground_total _ t Hwf) as (isg & Hisg & _).
  exists isg. rewrite Hisg. split; [done|].
  split; [exact Hwf|]. split; [exact Helev|]. split; [exact Hisg|]. split; [exact Hc|exact Hw].
Qed.

Lemma consistent_set_view s p th : consistent s -> consistent (set_view s p th).
Proof. by intros (? & ? & ? & ? & ?). Qed.

Lemma consistent_set_filters s fm wr gnd veg bld oth hs cm :
  consistent s -> 0 <= wr < NB_WHICH_RETURN_OPTIONS -> 0 <= cm < NB_COLORMAP_CHOICES ->
  consistent (set_filters s fm wr gnd veg bld oth hs cm).
Proof. by intros (? & ? & ? & ? & ?) ? ?. Qed.

Lemma colormap_next cm :
  0 <= cm < NB_COLORMAP_CHOICES ->
  (cm =? F32.INT_MAX) = false
  /\ ((Z.rem (cm + 1) NB_COLORMAP_CHOICES =? 0) || (Z.rem (cm + 1) NB_COLORMAP_CHOICES =? 1)
      || (Z.rem (cm + 1) NB_COLORMAP_CHOICES =? 2)) = true
  /\ 0 <= Z.rem (cm + 1) NB_COLORMAP_CHOICES < NB_COLORMAP_CHOICES.
Proof.
  unfold NB_COLORMAP_CHOICES. intros Hcm.
  assert (cm = 0 \/ cm = 1 \/ cm = 2) as Hcases by lia.
  by destruct Hcases as [-> | [-> | ->]].
Qed.

Lemma which_return_next wr :
  0 <= wr < NB_WHICH_RETURN_OPTIONS ->
  (wr =? F32.INT_MAX) = false
  /\ 0 <= Z.rem (wr + 1) NB_WHICH_RETURN_OPTIONS < NB_WHICH_RETURN_OPTIONS.
Proof.
  unfold NB_WHICH_RETURN_OPTIONS. intros Hwr.
  assert (wr = 0 \/ wr = 1 \/ wr = 2 \/ wr = 3) as Hcases by lia.
  by destruct Hcases as [-> | [-> | [-> | ->]]].
Qed.

(** A key other than [q] is handled without failure, and leaves globals
    that are consistent, with the same grids of heights. *)
Lemma keypress_consistent key s :
  consistent s -> key <> "q"%char ->
  exists s' calls,
    keypress key s = Returns (s', calls) /\ consistent s'
    /\ g_last_grid (g_grids s') = g_last_grid (g_grids s)
    /\ elevation (g_grids s') = elevation (g_grids s).
Proof.
  intros Hs Hq.
  pose proof Hs as (_ & _ & _ & Hcm & Hwr).
  destruct (colormap_next _ Hcm) as (Hc1 & Hc2 & Hc3).
  destruct (which_return_next _ Hwr) as (Hw1 & Hw2).
  pose proof (reclassify_consistent s
                (add_double (building_slope_threshold s) (F64.literal 5 100)) Hs)
    as (isg1 & Hplus & Hplus').
  pose proof (reclassify_consistent s
                (sub_double (building_slope_threshold s) (F64.literal 5 100)) Hs)
    as (isg2 & Hminus & Hminus').
  unfold keypress. destruct (pos s) as [[px py] pz], (theta s) as [[tx ty] tz].
  destruct key as [[] [] [] [] [] [] [] []]; try done;
    rewrite ?Hc1, ?Hc2, ?Hw1, ?Hplus, ?Hminus;
    (eexists _, _; split; [reflexivity|]; split_and!; try done;
     first [by apply consistent_set_view | by apply consistent_set_filters]).
Qed.

Lemma display_consistent s :
  consistent s -> exists calls, display s = Returns calls.
Proof.
  intros (Hwf & Helev & Hfg & _). unfold display.
  pose proof Hwf as (Hr & Hc & _).
  destruct (HILL_SHADE s =? 0).
  - destruct (draw_hill_shade_calls (g_bbox s) (min_elevation (g_grids s)) _ _ _ Helev Hr Hc)
      as (ks & -> & _). simpl. eauto.
  - destruct (draw_ground_calls (g_bbox s) (min_elevation (g_grids s)) _ _ Hwf
                (find_ground_rect _ _ _ Hwf Hfg)) as (ks & -> & _). simpl. eauto.
Qed.

Lemma handle_consistent s e :
  consistent s -> e <> Key "q" ->
  exists s' calls,
    handle s e = Returns (s', calls) /\ consistent s'
    /\ g_last_grid (g_grids s') = g_last_grid (g_grids s)
    /\ elevation (g_grids s') = elevation (g_grids s).
Proof.
  intros Hs Hq. destruct e as [key|]; simpl.
  - apply keypress_consistent; [done|]. by intros ->.
  - destruct (display_consistent s Hs) as (calls & ->). simpl. by eexists _, _.
Qed.

(** X16: from consistent globals, a sequence of keys, none of them [q],
    and of requests to draw is handled without failure: no handler
    exits, none reads a grid out of range; the globals stay consistent,
    with the same grids of heights, and [is_ground] is the
    classification of the current threshold.  The key [q] then ends the
    program with status 0. *)
Theorem glutMainLoop_keeps_running events s :
  consistent s -> Key "q" ∉ events ->
  (exists s' calls,
     glutMainLoop events s = Returns (s', calls) /\ consistent s'
     /\ g_last_grid (g_grids s') = g_last_grid (g_grids s)
     /\ elevation (g_grids s') = elevation (g_grids s))
  /\ forall rest, glutMainLoop (events ++ Key "q" :: rest) s = Exits 0.
Proof.
  revert s. induction events as [|e events IH]; intros s Hs Hq.
  - split; [by eexists _, _|]. intros rest. simpl.
    unfold keypress. by destruct (pos s) as [[? ?] ?], (theta s) as [[? ?] ?].
  - apply not_elem_of_cons in Hq as [Hne Hq].
    destruct (handle_consistent s e Hs) as (s1 & calls1 & He & Hs1 & Hlg1 & Hel1);
      [by intros ->|].
    destruct (IH s1 Hs1 Hq) as ((s' & calls & Hrun & Hs' & Hlg & Hel) & Hquit).
    split.
    + exists s', (calls1 ++ calls). cbn [glutMainLoop]. rewrite He. cbn [mbind outcome_bind].
      rewrite Hrun. split_and!; [done|done|congruence|congruence].
    + intros rest. cbn [glutMainLoop app]. rewrite He. cbn [mbind outcome_bind].
      by rewrite Hquit.
Qed.

(** ** Keys that cycle *)

(** X17: the keys that switch a display option return the globals to
    what they were when they are pressed twice ([s], [g], [v], [h], [o],
    [w]), three times ([c], the colormap) or four times ([t], the filter
    on the returns). *)
Theorem keys_cycle s key n :
  switches_set s ->
  (key, n) ∈ [("s"%char, 2%nat); ("g"%char, 2%nat); ("v"%char, 2%nat); ("h"%char, 2%nat);
              ("o"%char, 2%nat); ("w"%char, 2%nat); ("c"%char, 3%nat); ("t"%char, 4%nat)] ->
  glutMainLoop (replicate n (Key key)) s = Returns (s, replicate n glutPostRedisplay).
Proof.
  intros (Hf & Hg & Hv & Hb & Ho & Hh & Hc & Hw) Hkey.
  unfold NB_COLORMAP_CHOICES in Hc. unfold NB_WHICH_RETURN_OPTIONS in Hw.
  destruct s as [bb gr t [[px py] pz] [[tx ty] tz] fm wr gnd veg bld oth hs cm].
  simpl in *.
  repeat (apply elem_of_cons in Hkey as [[= -> ->]|Hkey]);
    [..|by apply elem_of_nil in Hkey].
  - by destruct Hh as [-> | ->].
  - by destruct Hg as [-> | ->].
  - by destruct Hv as [-> | ->].
  - by destruct Hb as [-> | ->].
  - by destruct Ho as [-> | ->].
  - by destruct Hf as [-> | ->].
  - assert (cm = 0 \/ cm = 1 \/ cm = 2) as Hcases by lia.
    by destruct Hcases as [-> | [-> | ->]].
  - assert (wr = 0 \/ wr = 1 \/ wr = 2 \/ wr = 3) as Hcases by lia.
    by destruct Hcases as [-> | [-> | [-> | ->]]].
Qed.

(** ** main *)

Section MainFacts.
Variable atoi : string -> Z.
Variable atof : string -> spec_float.
Variable files : string -> option (list lidarPoint).

(** X18: [main] reaches the event loop only with four arguments and a
    file that it could open, after [gridify] has returned; the globals
    are then consistent: grids of the same dimensions, with a cell at
    least, and the classification of the threshold given on the command
    line. *)
Theorem main_starts_consistent argv s :
  main atoi atof files argv = Returns s ->
  consistent s /\ switches_set s
  /\ exists prog fname density slope records,
       argv = [prog; fname; density; slope] /\ files fname = Some records
       /\ g_bbox s = (read_points records).2
       /\ building_slope_threshold s = F64.to_float (atof slope)
       /\ gridify (read_points records).1 (read_points records).2 (atoi density)
            (F64.to_float (atof slope)) = Returns (g_grids s).
Proof.
  unfold main. intros Hmain.
  destruct argv as [|prog [|fname [|density [|slope [|]]]]]; try done.
  destruct (files fname) as [records|] eqn:Hfile; [|done].
  unfold readPointsFromFile in Hmain.
  destruct (read_points records) as [points bb] eqn:Hread.
  destruct (gridify points bb (atoi density) (F64.to_float (atof slope)))
    as [grids| | |] eqn:Hgrid; try done.
  injection Hmain as <-.
  destruct (gridify_returns _ _ _ _ _ Hgrid)
    as (n & rows & cols & _ & _ & _ & Hpos & Helev & Hlg & Hwf & Hfg & _).
  destruct (rect_dimensions _ _ _ Hlg) as [HnR HnC]; [lia|].
  split; [|split].
  - split; [exact Hwf|]. split; [|split; [exact Hfg|done]].
    simpl. by rewrite HnR, HnC.
  - unfold switches_set. simpl. split_and!; auto; done.
  - exists prog, fname, density, slope, records. by rewrite Hfile, Hread.
Qed.

(** X19: [main] exits before the event loop only with status 1, and only
    when the number of arguments is not four or the file cannot be
    opened: no content of the file makes the program exit. *)
Theorem main_exits argv status :
  main atoi atof files argv = Exits status <->
  status = 1
  /\ (length argv <> 4%nat
      \/ exists fname, argv !! 1%nat = Some fname /\ files fname = None).
Proof.
  unfold main. split.
  - intros Hmain.
    destruct argv as [|prog [|fname [|density [|slope [|]]]]];
      try (injection Hmain as <-; split; [done|by left]).
    destruct (files fname) as [records|] eqn:Hfile.
    + unfold readPointsFromFile in Hmain.
      destruct (read_points records) as [points bb].
      destruct (gridify_outcomes points bb (atoi density) (F64.to_float (atof slope)))
        as [[g Hg]|[Hg|[Hg _]]]; by rewrite Hg in Hmain.
    + simpl in Hmain. injection Hmain as <-. split; [done|]. right. by exists fname.
  - intros [-> [Hlen|(fname & Hname & Hfile)]].
    + by destruct argv as [|prog [|f [|density [|slope [|]]]]].
    + destruct argv as [|prog [|f [|density [|slope [|]]]]]; try done.
      simpl in Hname. injection Hname as ->. by rewrite Hfile.
Qed.
End MainFacts.

(** ** The properties on concrete inputs *)

Lemma for_cells_spec {A} (g : list (list A)) f p :
  for_cells g f = true -> in_grid (num_rows g) (num_cols g) p -> f p = true.
Proof.
  unfold for_cells. rewrite forallb_forall. intros Hall Hp.
  by apply Hall, list_elem_of_In, elem_of_positions.
Defined.

Lemma data_cellb_spec lg p : data_cell lg p -> data_cellb lg p = true.
Proof.
  intros [[Hi Hj] Hd]. unfold data_cellb, in_bounds. rewrite Hd. simpl. lia.
Defined.

Lemma below_BIGINT_intro lg : below_BIGINTb lg = true -> below_BIGINT lg.
Proof.
  intros Hb p Hp Hd. pose proof (for_cells_spec lg _ p Hb Hp) as Hf. simpl in Hf.
  by rewrite Hd in Hf.
Defined.

Lemma lowest_intro lg p p' :
  lowestb lg p = true -> data_cell lg p' -> p' <> p ->
  F32.ltb (height lg p.1 p.2) (height lg p'.1 p'.2) = true.
Proof.
  intros Hb [Hp' Hd] Hne. pose proof (for_cells_spec lg _ p' Hb Hp') as Hf. simpl in Hf.
  rewrite Hd in Hf. by rewrite bool_decide_eq_false_2 in Hf.
Defined.

Lemma no_steep_step_intro lg t : no_steep_stepb lg t = true -> no_steep_step lg t.
Proof.
  intros Hb p d [Hp Hd] Hdir Hcompass Hd'.
  pose proof (for_cells_spec lg _ p Hb Hp) as Hf. cbv beta in Hf.
  rewrite Hd, orb_false_l, forallb_forall in Hf.
  specialize (Hf d (proj1 (list_elem_of_In _ _) Hdir)). cbv beta in Hf.
  rewrite Hcompass, (data_cellb_spec lg _ Hd') in Hf. simpl in Hf.
  by destruct (steep t _).
Defined.

Lemma X20_witness :
  exists st, run (grid_of [[0; 1]; [7; 2]]) (F32.of_int 5) = Some st
    /\ (seedings st <= 4)%nat
    /\ (below_BIGINT (grid_of [[0; 1]; [7; 2]]) -> NoDup (writes st)).
Proof.
  apply (find_ground_terminates_and_labels_once (grid_of [[0; 1]; [7; 2]]) (F32.of_int 5)).
  apply wf_grid_intro. reflexivity.
Defined.

Lemma X21_witness :
  exists g1 g2,
    find_ground (grid_of [[0; 3; 1]; [9; 2; 2]]) (F32.of_int 1) = Some g1
    /\ find_ground (grid_of [[0; 3; 1]; [9; 2; 2]]) (F32.of_int 5) = Some g2
    /\ (forall i j, label g1 i j = 1 -> label g2 i j = 1)
    /\ (below_BIGINT (grid_of [[0; 3; 1]; [9; 2; 2]]) ->
        forall i j, label g1 i j <> label g2 i j ->
          label g1 i j = 0 /\ label g2 i j = 1).
Proof.
  apply (find_ground_raising_threshold_keeps_ground
           (grid_of [[0; 3; 1]; [9; 2; 2]]) (F32.of_int 1) (F32.of_int 5)).
  - apply wf_grid_intro. reflexivity.
  - reflexivity.
Defined.

Lemma X1_witness :
  exists isg, find_ground (grid_of [[0; 3; 1]; [9; 2; 2]]) (F32.of_int 1) = Some isg
    /\ length isg = length (grid_of [[0; 3; 1]; [9; 2; 2]])
    /\ Forall (fun row => length row = num_cols (grid_of [[0; 3; 1]; [9; 2; 2]])) isg
    /\ forall i j, label isg i j = -1 \/ label isg i j = 0 \/ label isg i j = 1.
Proof.
  apply (find_ground_dimensions_and_labels (grid_of [[0; 3; 1]; [9; 2; 2]]) (F32.of_int 1)).
  apply wf_grid_intro. reflexivity.
Defined.

Lemma X2_witness :
  exists isg, find_ground (grid_of [[0; -9999; 1]; [9; 2; -9999]]) (F32.of_int 1) = Some isg
    /\ forall i j, (i, j) <> (0, 0) ->
         ~ data_cell (grid_of [[0; -9999; 1]; [9; 2; -9999]]) (i, j) -> label isg i j = -1.
Proof.
  apply (find_ground_leaves_nodata_unlabelled
           (grid_of [[0; -9999; 1]; [9; 2; -9999]]) (F32.of_int 1)).
  apply wf_grid_intro. reflexivity.
Defined.

Lemma X3_witness :
  exists isg, find_ground (grid_of [[0; -9999; 1]; [9; 2; -9999]]) (F32.of_int 1) = Some isg
    /\ forall i j,
         (data_cell (grid_of [[0; -9999; 1]; [9; 2; -9999]]) (i, j) ->
          label isg i j = 0 \/ label isg i j = 1)
         /\ (~ data_cell (grid_of [[0; -9999; 1]; [9; 2; -9999]]) (i, j) ->
             label isg i j = -1).
Proof.
  apply (find_ground_labels_every_data_cell
           (grid_of [[0; -9999; 1]; [9; 2; -9999]]) (F32.of_int 1)).
  - apply wf_grid_intro. reflexivity.
  - apply below_BIGINT_intro. reflexivity.
  - exists (0, 0). split; [apply in_bounds_in_grid|]; reflexivity.
Defined.

Lemma X4_witness :
  exists isg, find_ground (grid_of [[4; 3; 1]; [9; 2; 2]]) (F32.of_int (-1)) = Some isg
    /\ label isg 0 2 = 1.
Proof.
  refine (find_ground_lowest_cell_is_ground
            (grid_of [[4; 3; 1]; [9; 2; 2]]) (F32.of_int (-1)) _ (0, 2) _ _ _).
  - apply wf_grid_intro. reflexivity.
  - split; [apply in_bounds_in_grid|]; reflexivity.
  - reflexivity.
  - intros p'. by apply lowest_intro.
Defined.

Lemma X5_witness :
  exists isg, find_ground (grid_of [[0; 1; -9999]; [2; 1; 3]]) (F32.of_int 2) = Some isg
    /\ forall i j,
         label isg i j
         = if decide (data_cell (grid_of [[0; 1; -9999]; [2; 1; 3]]) (i, j)) then 1 else -1.
Proof.
  apply (find_ground_without_steep_step_all_ground
           (grid_of [[0; 1; -9999]; [2; 1; 3]]) (F32.of_int 2)).
  - apply wf_grid_intro. reflexivity.
  - apply below_BIGINT_intro. reflexivity.
  - exists (0, 0). split; [apply in_bounds_in_grid|]; reflexivity.
  - apply no_steep_step_intro. reflexivity.
Defined.

Lemma X6_witness :
  Forall (encloses (read_points cloud).2) (read_points cloud).1.
Proof.
  apply Forall_forall. apply (read_points_bbox_encloses cloud).
  repeat (apply Forall_cons; split; [by split_and!|]). apply Forall_nil_2.
Defined.

Lemma X7_witness :
  (exists p, p ∈ cloud /\ minx (read_points cloud).2 = lp_x p)
  /\ (exists p, p ∈ cloud /\ maxx (read_points cloud).2 = lp_x p)
  /\ (exists p, p ∈ cloud /\ miny (read_points cloud).2 = lp_y p)
  /\ (exists p, p ∈ cloud /\ maxy (read_points cloud).2 = lp_y p)
  /\ (exists p, p ∈ cloud /\ minz (read_points cloud).2 = lp_z p)
  /\ (exists p, p ∈ cloud /\ maxz (read_points cloud).2 = lp_z p).
Proof. apply (read_points_bbox_attained cloud). discriminate. Defined.

Lemma X8_witness :
  gridify (read_points cloud).1 (read_points cloud).2 9 (F32.of_int 1) = Undefined.
Proof.
  apply (gridify_without_cells (read_points cloud).1 (read_points cloud).2 9 (F32.of_int 1)).
  right. reflexivity.
Defined.

Lemma X9_witness :
  gridify (read_points [record_of 0 0 10 1 1; record_of 1 3 7 1 1]).1
          (read_points [record_of 0 0 10 1 1; record_of 1 3 7 1 1]).2 1 (F32.of_int 1)
  = Undefined.
Proof.
  apply (gridify_more_rows_than_columns
           (read_points [record_of 0 0 10 1 1; record_of 1 3 7 1 1]).1
           (read_points [record_of 0 0 10 1 1; record_of 1 3 7 1 1]).2 1 (F32.of_int 1)
           2 3 1).
  - reflexivity.
  - vm_compute. reflexivity.
  - vm_compute. reflexivity.
  - lia.
Defined.

Lemma X10_witness :
  exists g,
    gridify (read_points cloud).1 (read_points cloud).2 3 (F32.of_int 1) = Returns g
    /\ (0 < num_rows (g_last_grid g) <= num_cols (g_last_grid g))%nat
    /\ rect (num_rows (g_last_grid g)) (num_cols (g_last_grid g)) (elevation g)
    /\ rect (num_rows (g_last_grid g)) (num_cols (g_last_grid g)) (g_last_grid g)
    /\ rect (num_rows (g_last_grid g)) (num_cols (g_last_grid g)) (g_is_ground g)
    /\ find_ground (g_last_grid g) (F32.of_int 1) = Some (g_is_ground g).
Proof.
  eexists. split; [vm_compute; reflexivity|].
  apply (gridify_grids_share_dimensions
           (read_points cloud).1 (read_points cloud).2 3 (F32.of_int 1)).
  vm_compute. reflexivity.
Defined.

Lemma X11_witness :
  exists g,
    gridify (read_points cloud).1 (read_points cloud).2 3 (F32.of_int 1) = Returns g
    /\ exists n,
         num_cells (read_points cloud).1 3 = Returns n
         /\ forall i j,
              in_grid (num_rows (g_last_grid g)) (num_cols (g_last_grid g)) (i, j) ->
              cell S754_nan (elevation g) i j
              = (if j <? Z.of_nat (num_rows (g_last_grid g))
                 then mean_or NODATA_f
                        (samples_in (fun p => return_number p =? 1) (read_points cloud).2
                           (cell_size (read_points cloud).2 n) (read_points cloud).1 i j)
                 else NODATA_f)
              /\ cell S754_nan (g_last_grid g) i j
                 = (if j <? Z.of_nat (num_rows (g_last_grid g))
                    then mean_or NODATA_f
                           (samples_in (fun _ => true) (read_points cloud).2
                              (cell_size (read_points cloud).2 n) (read_points cloud).1 i j)
                    else NODATA_f).
Proof.
  eexists. split; [vm_compute; reflexivity|].
  apply (gridify_cells_hold_averages
           (read_points cloud).1 (read_points cloud).2 3 (F32.of_int 1)).
  vm_compute. reflexivity.
Defined.

Lemma X12_witness :
  exists g,
    gridify (read_points cloud).1 (read_points cloud).2 3 (F32.of_int 1) = Returns g
    /\ F32.leb (min_elevation g) (maxz (read_points cloud).2) = true
    /\ forall i j,
         cell S754_nan (elevation g) i j <> S754_nan ->
         F32.eqb (cell S754_nan (elevation g) i j) NODATA_f = false ->
         F32.leb (min_elevation g) (cell S754_nan (elevation g) i j) = true.
Proof.
  eexists. split; [vm_compute; reflexivity|].
  apply (gridify_min_elevation_is_lower_bound
           (read_points cloud).1 (read_points cloud).2 3 (F32.of_int 1)).
  - vm_compute. reflexivity.
  - discriminate.
Defined.

Lemma X13_witness :
  exists calls,
    draw_ground (g_bbox scene_A) (min_elevation (g_grids scene_A))
      (g_last_grid (g_grids scene_A)) (g_is_ground (g_grids scene_A))
    = Returns ([glBegin GL_POINTS] ++ calls ++ [glEnd])
    /\ count_if is_vertex calls = 9%nat
    /\ count_if is_colour calls = 9%nat
    /\ (forall c, c ∈ calls -> is_vertex c = true \/ is_colour c = true)
    /\ (below_BIGINT (g_last_grid (g_grids scene_A)) -> glColor green ∉ calls).
Proof.
  apply (draw_ground_after_find_ground (g_bbox scene_A) (min_elevation (g_grids scene_A))
           (g_last_grid (g_grids scene_A)) (F32.of_int 5) (g_is_ground (g_grids scene_A))).
  - apply wf_grid_intro. reflexivity.
  - vm_compute. reflexivity.
Defined.

Lemma X14_witness :
  exists calls,
    draw_hill_shade (g_bbox scene_A) (elevation (g_grids scene_A))
      (min_elevation (g_grids scene_A))
    = Returns ([glBegin GL_TRIANGLES] ++ calls ++ [glEnd])
    /\ count_if is_vertex calls = 24%nat
    /\ count_if is_colour calls = 8%nat.
Proof.
  apply (draw_hill_shade_two_triangles_per_cell (g_bbox scene_A)
           (min_elevation (g_grids scene_A)) (elevation (g_grids scene_A)) 3 3).
  - split; [reflexivity|]. repeat constructor.
  - lia.
  - lia.
  - discriminate.
  - discriminate.
Defined.

Lemma X15_witness :
  inf_or_nan (ztoscreen (mkBbox (F32.of_int 0) (F32.of_int 4) (F32.of_int 0) (F32.of_int 4)
                                (F32.of_int 7) (F32.of_int 7)) (F32.of_int 7)).
Proof. apply ztoscreen_flat_terrain. reflexivity. Defined.

Lemma scene_A_consistent : consistent scene_A.
Proof.
  split; [apply wf_grid_intro; reflexivity|].
  split; [split; [reflexivity|repeat constructor]|].
  split; [vm_compute; reflexivity|]. by vm_compute.
Defined.

Lemma X16_witness :
  (exists s' calls,
     glutMainLoop [Key "+"; Redraw; Key "c"; Key "s"; Redraw] scene_A = Returns (s', calls)
     /\ consistent s'
     /\ g_last_grid (g_grids s') = g_last_grid (g_grids scene_A)
     /\ elevation (g_grids s') = elevation (g_grids scene_A))
  /\ forall rest,
       glutMainLoop ([Key "+"; Redraw; Key "c"; Key "s"; Redraw] ++ Key "q" :: rest) scene_A
       = Exits 0.
Proof.
  apply (glutMainLoop_keeps_running [Key "+"; Redraw; Key "c"; Key "s"; Redraw] scene_A).
  - apply scene_A_consistent.
  - intros Hq. repeat (apply elem_of_cons in Hq as [Hq|Hq]; [discriminate Hq|]).
    by apply elem_of_nil in Hq.
Defined.

Lemma X17_witness :
  glutMainLoop (replicate 3 (Key "c")) scene_A = Returns (scene_A, replicate 3 glutPostRedisplay).
Proof.
  apply (keys_cycle scene_A "c" 3).
  - unfold switches_set. simpl. split_and!; auto; done.
  - do 6 (apply elem_of_cons; right). apply elem_of_cons. by left.
Defined.

Lemma X18_witness :
  exists s,
    main (fun _ => 3) (fun _ => F64.of_int 1) (fun _ => Some cloud)
         ["lidarview"; "cloud.txt"; "3"; "1"]%string = Returns s
    /\ consistent s /\ switches_set s
    /\ exists prog fname density slope records,
         ["lidarview"; "cloud.txt"; "3"; "1"]%string = [prog; fname; density; slope]
         /\ Some cloud = Some records
         /\ g_bbox s = (read_points records).2
         /\ building_slope_threshold s = F64.to_float (F64.of_int 1)
         /\ gridify (read_points records).1 (read_points records).2 3
              (F64.to_float (F64.of_int 1)) = Returns (g_grids s).
Proof.
  eexists. split; [vm_compute; reflexivity|].
  apply (main_starts_consistent (fun _ => 3) (fun _ => F64.of_int 1) (fun _ => Some cloud)
           ["lidarview"; "cloud.txt"; "3"; "1"]%string).
  vm_compute. reflexivity.
Defined.
